(** * DnD-Roller: the dice-expression parser and evaluator of [dnd-roller.py]

    A shallow embedding of [ParseTree], [OpNode], [ValueNode] and the helper
    functions of the script, followed by the properties of the expression
    evaluator.

    Conventions of the embedding.
    - A Python [str] is a [string]: a sequence of characters with code points
      below 256.
    - A Python [int] is a [Z].
    - A raised exception is a value of [PyExn], one constructor per raise
      site of the script (and of the library calls it makes).
    - The process-wide generator of [random] is a tape [rnd : nat -> Z] of raw
      draws together with a position on the tape; the position is the only
      state threaded through construction.
    - The three classes are the three constructors of [Node]; attributes are
      constructor arguments, assigned once in the constructor functions
      [ParseTree_init], [OpNode_init] and [ValueNode_init].
    - Where a property is about assignments and reads of attributes, the
      classes are embedded a second time over a store of objects
      ([Store]): [s_ParseTree] allocates objects and assigns their
      attributes one by one, [s_str] is the [__str__] method reading them,
      and every program may assign attributes and draw from the tape.
      [s_ParseTree_refines] relates the two embeddings.
    - Limits of the interpreter (recursion depth, memory, the length of
      digit strings [int()] converts) are not part of the model. *)

From Stdlib Require Import ZArith List String Ascii Bool Lia.
From Stdlib Require Import Decimal DecimalString DecimalZ.
Import ListNotations.

#[local] Open Scope string_scope.
#[local] Open Scope Z_scope.

(** ** Exceptions and the construction monad *)

Inductive PyExn : Type :=
| AssertionError_split        (* parse_fields: [assert len(fields) > 0 or curr != ""] *)
| AssertionError_no_op        (* find_root_node: "No op fields w/ multiple values" *)
| AssertionError_root_first   (* parse_node: [assert root_index != 0] *)
| AssertionError_root_len     (* parse_node: [assert root_index != len(fields)] *)
| ValueError_int              (* int(field): invalid literal *)
| ValueError_randrange        (* random.randint: empty range *)
| Exception_not_a_die         (* get_die_type: "doesn't look like a die to me" *)
| IndexError.                 (* list index out of range *)

(** [NoFuel] is not a Python outcome: it marks a recursion depth bound that
    was too small (see [ParseTree_init] and [ParseTree_fuel_enough]). *)
Inductive result (A : Type) : Type :=
| Ok (a : A)
| Raise (e : PyExn)
| NoFuel.

Arguments Ok {A} a.
Arguments Raise {A} e.
Arguments NoFuel {A}.

Definition bind {A B : Type} (r : result A) (k : A -> result B) : result B :=
  match r with
  | Ok a => k a
  | Raise e => Raise e
  | NoFuel => NoFuel
  end.

Notation "x <- r ;; k" := (bind r (fun x => k))
  (at level 61, r at next level, right associativity).
Notation "' pat <- r ;; k" := (bind r (fun x => match x with pat => k end))
  (at level 61, pat pattern, r at next level, right associativity).

Definition py_assert (b : bool) (e : PyExn) : result unit :=
  if b then Ok tt else Raise e.

Definition is_ok {A : Type} (r : result A) : bool :=
  match r with Ok _ => true | _ => false end.

(** ** Python string primitives *)

Definition is_digit (c : ascii) : bool :=
  let n := nat_of_ascii c in (48 <=? n)%nat && (n <=? 57)%nat.

(** [str.isspace] for one character (code points below 256). *)
Definition isspace (c : ascii) : bool :=
  let n := nat_of_ascii c in
  ((9 <=? n)%nat && (n <=? 13)%nat) || ((28 <=? n)%nat && (n <=? 32)%nat)
  || (n =? 133)%nat || (n =? 160)%nat.

Fixpoint lstrip (s : string) : string :=
  match s with
  | EmptyString => EmptyString
  | String c r => if isspace c then lstrip r else s
  end.

Fixpoint rstrip (s : string) : string :=
  match s with
  | EmptyString => EmptyString
  | String c r =>
      match rstrip r with
      | EmptyString => if isspace c then EmptyString else String c EmptyString
      | r' => String c r'
      end
  end.

(** [s.strip()] *)
Definition strip (s : string) : string := rstrip (lstrip s).

(** [c in s] for a one-character [c] *)
Fixpoint contains (c : ascii) (s : string) : bool :=
  match s with
  | EmptyString => false
  | String a r => Ascii.eqb a c || contains c r
  end.

(** [s[:-1]] *)
Fixpoint drop_last (s : string) : string :=
  match s with
  | EmptyString => EmptyString
  | String _ EmptyString => EmptyString
  | String c r => String c (drop_last r)
  end.

(** [s[1:]] *)
Definition drop_first (s : string) : string :=
  match s with
  | EmptyString => EmptyString
  | String _ r => r
  end.

(** [str(n)] and ["{}".format(n)] for an [int]. *)
Definition str_int (n : Z) : string := NilZero.string_of_int (Z.to_int n).

(** The digit part of an integer literal as [int()] accepts it: a non-empty
    run of digits in which single underscores may separate digits.
    [prev_digit] tells whether the previous character was a digit. *)
Fixpoint int_body (s : string) (prev_digit : bool) : option string :=
  match s with
  | EmptyString => if prev_digit then Some EmptyString else None
  | String c r =>
      if is_digit c then option_map (String c) (int_body r true)
      else if Ascii.eqb c "_" && prev_digit then int_body r false
      else None
  end.

(** The whitespace [int()] drops around a literal: the characters the C
    function [isspace] knows and the whitespace beyond ASCII, which [int()]
    first turns into spaces.  The separators 28 to 31, whitespace for
    [str.isspace], are not among them. *)
Definition int_space (c : ascii) : bool :=
  let n := nat_of_ascii c in
  ((9 <=? n)%nat && (n <=? 13)%nat) || (n =? 32)%nat
  || (n =? 133)%nat || (n =? 160)%nat.

Fixpoint int_lstrip (s : string) : string :=
  match s with
  | EmptyString => EmptyString
  | String c r => if int_space c then int_lstrip r else s
  end.

Fixpoint int_rstrip (s : string) : string :=
  match s with
  | EmptyString => EmptyString
  | String c r =>
      match int_rstrip r with
      | EmptyString => if int_space c then EmptyString else String c EmptyString
      | r' => String c r'
      end
  end.

Definition int_strip (s : string) : string := int_rstrip (int_lstrip s).

(** [int(s)]: surrounding whitespace is dropped, one sign is allowed, the
    rest is read in base ten. *)
Definition py_int (s : string) : result Z :=
  let t := int_strip s in
  let '(neg, body) :=
    match t with
    | String c r =>
        if Ascii.eqb c "-" then (true, r)
        else if Ascii.eqb c "+" then (false, r)
        else (false, t)
    | EmptyString => (false, t)
    end in
  match int_body body false with
  | Some ds =>
      match NilZero.uint_of_string ds with
      | Some u => Ok (if neg then - Z.of_uint u else Z.of_uint u)
      | None => Raise ValueError_int
      end
  | None => Raise ValueError_int
  end.

(** ** The two compiled patterns *)

(** The longest prefix of digits, and what follows it. *)
Fixpoint span_digits (s : string) : string * string :=
  match s with
  | EmptyString => (EmptyString, EmptyString)
  | String c r =>
      if is_digit c then
        let '(ds, rest) := span_digits r in (String c ds, rest)
      else (EmptyString, s)
  end.

(** [DIE_MULT_REGEXP.match(s)] with [DIE_MULT_REGEXP = "[0-9]*d"]: anchored
    at the start; the result is [group(0)].  A shorter digit run can never be
    followed by [d], so only the longest run is tried. *)
Definition DIE_MULT_REGEXP_match (s : string) : option string :=
  let '(ds, rest) := span_digits s in
  match rest with
  | String c _ => if Ascii.eqb c "d" then Some (ds ++ "d") else None
  | EmptyString => None
  end.

(** [DIE_TYPE_REGEXP.search(s)] with [DIE_TYPE_REGEXP = "d[0-9]+"]: the
    leftmost [d] that is followed by a digit, with the longest digit run
    after it; the result is [group(0)]. *)
Fixpoint DIE_TYPE_REGEXP_search (s : string) : option string :=
  match s with
  | EmptyString => None
  | String c r =>
      if Ascii.eqb c "d" then
        match fst (span_digits r) with
        | EmptyString => DIE_TYPE_REGEXP_search r
        | ds => Some (String c ds)
        end
      else DIE_TYPE_REGEXP_search r
  end.

(** ** Helper functions *)

Definition get_multiplier (field : string) : result Z :=
  match DIE_MULT_REGEXP_match field with
  | Some matchstr =>
      if (String.length matchstr =? 1)%nat then Ok 1
      else py_int (drop_last matchstr)
  | None => Ok 1
  end.

Definition is_multi_die (field : string) : result bool :=
  m <- get_multiplier field ;; Ok (1 <? m).

Definition get_die_type (field : string) : result Z :=
  match DIE_TYPE_REGEXP_search field with
  | Some matchstr => py_int (drop_first matchstr)
  | None => Raise Exception_not_a_die
  end.


(** ** Field splitter: [ParseTree.parse_fields] *)

(** [fields.append(x)], as the new list *)
Definition append_field (fields : list string) (x : string) : list string :=
  (fields ++ [x])%list.

(** [fields[-1]] *)
Definition last_field (fields : list string) : result string :=
  match List.rev fields with
  | [] => Raise IndexError
  | f :: _ => Ok f
  end.

(** The body of the [for c in fields_string] loop, with the two local
    variables [fields] and [curr] as accumulators; the code after the loop
    is the [EmptyString] case. *)
Fixpoint parse_fields_loop (cs : string) (fields : list string) (curr : string)
  : result (list string) :=
  match cs with
  | EmptyString =>
      if String.eqb curr "" then Ok fields else Ok (append_field fields (strip curr))
  | String c rest =>
      if Ascii.eqb c "+" then
        _ <- py_assert ((0 <? List.length fields)%nat || negb (String.eqb curr ""))
               AssertionError_split ;;
        parse_fields_loop rest (append_field (append_field fields (strip curr)) "+") ""
      else if Ascii.eqb c "-" then
        _ <- py_assert ((0 <? List.length fields)%nat || negb (String.eqb curr ""))
               AssertionError_split ;;
        is_sign <- (if String.eqb curr ""
                    then (l <- last_field fields ;; Ok (String.eqb l "-"))
                    else Ok false) ;;
        if is_sign : bool then
          (* negative number *)
          parse_fields_loop rest fields curr
        else
          parse_fields_loop rest (append_field (append_field fields (strip curr)) "-") ""
      else
        parse_fields_loop rest fields (curr ++ String c "")
  end.

Definition parse_fields (fields_string : string) : result (list string) :=
  parse_fields_loop fields_string [] "".

(** ** Root locator: [ParseTree.find_root_node] *)

(** [x in fields] *)
Definition field_in (x : string) (fields : list string) : bool :=
  existsb (String.eqb x) fields.

(** [fields.index(x)]; [None] stands for the [ValueError] of a missing [x],
    which no caller can reach. *)
Fixpoint index (x : string) (fields : list string) : option nat :=
  match fields with
  | [] => None
  | f :: rest => if String.eqb f x then Some 0%nat else option_map S (index x rest)
  end.

Definition find_root_node (fields : list string) : result nat :=
  if field_in "+" fields then
    match index "+" fields with
    | Some i => Ok i
    | None => Raise IndexError
    end
  else if field_in "-" fields then
    match index "-" (List.rev fields) with
    | Some i => Ok (List.length fields - 1 - i)%nat
    | None => Raise IndexError
    end
  else
    _ <- py_assert (List.length fields =? 1)%nat AssertionError_no_op ;;
    Ok 0%nat.

(** ** The node classes *)

Inductive Operator : Type := operator_add | operator_sub.

Definition apply_op (op : Operator) (a b : Z) : Z :=
  match op with
  | operator_add => a + b
  | operator_sub => a - b
  end.

(** The objects of the three classes.  [ParseTree.root_node] is an [OpNode],
    a [ValueNode] or, for an expanded multi-die field, another [ParseTree];
    [OpNode.left] and [OpNode.right] are [ParseTree]s. *)
Inductive Node : Type :=
| ParseTree (root_node : Node) (value : Z)
| OpNode (left right : Node) (op : Operator) (value : Z)
| ValueNode (field : string) (isdie : bool) (max_value : option Z) (value : Z).

(** [node.value] *)
Definition value_of (n : Node) : Z :=
  match n with
  | ParseTree _ v => v
  | OpNode _ _ _ v => v
  | ValueNode _ _ _ v => v
  end.

(** ** The random source *)

(** [random.randint(a, b)]: [randrange(a, b+1)], that is
    [a + _randbelow(b + 1 - a)] for a positive width and a [ValueError]
    otherwise.  [_randbelow(n)] is the next raw draw of the tape reduced to
    [[0, n)]. *)
Definition randint (rnd : nat -> Z) (a b : Z) (pos : nat) : result (Z * nat) :=
  let width := b + 1 - a in
  if 0 <? width then Ok (a + rnd pos mod width, S pos)
  else Raise ValueError_randrange.

(** ** Construction *)

Definition OpNode_init (left right : Node) (op : Operator) : Node :=
  OpNode left right op (apply_op op (value_of left) (value_of right)).

Definition ValueNode_init (rnd : nat -> Z) (field : string) (pos : nat)
  : result (Node * nat) :=
  let isdie := contains "d" field in
  if isdie then
    max_value <- get_die_type field ;;
    '(value, pos') <- randint rnd 1 max_value pos ;;
    Ok (ValueNode field isdie (Some max_value) value, pos')
  else
    value <- py_int field ;;
    Ok (ValueNode field isdie None value, pos).

(** [ParseTree.make_single_roll] *)
Definition make_single_roll (field : string) : result string :=
  die_type <- get_die_type field ;;
  Ok ("1d" ++ str_int die_type).

(** [ParseTree.multi_expression] *)
Definition multi_expression (field : string) (mult : Z) : result (list string) :=
  single <- make_single_roll field ;;
  let fields := repeat single (Z.to_nat mult) in
  match fields with
  | [] => Raise IndexError
  | f0 :: rest => Ok (f0 :: flat_map (fun f => ["+"; f]) rest)
  end.

(** [fields[i]] *)
Definition get_field (fields : list string) (i : nat) : result string :=
  match nth_error fields i with
  | Some f => Ok f
  | None => Raise IndexError
  end.

(** [ParseTree.parse_node], with the constructor [ParseTree(...)] it calls
    recursively taken as the parameter [ParseTree_].  Arguments are
    evaluated left to right: the left operand is built (and rolled) before
    the right one. *)
Definition parse_node (rnd : nat -> Z)
    (ParseTree_ : list string -> nat -> result (Node * nat))
    (fields : list string) (root_index : nat) (pos : nat) : result (Node * nat) :=
  root_field <- get_field fields root_index ;;
  if String.eqb root_field "+" then
    _ <- py_assert (negb (root_index =? 0)%nat) AssertionError_root_first ;;
    _ <- py_assert (negb (root_index =? List.length fields)%nat)
           AssertionError_root_len ;;
    '(left_, pos1) <- ParseTree_ (firstn root_index fields) pos ;;
    '(right_, pos2) <- ParseTree_ (skipn (root_index + 1) fields) pos1 ;;
    Ok (OpNode_init left_ right_ operator_add, pos2)
  else if String.eqb root_field "-" then
    _ <- py_assert (negb (root_index =? 0)%nat) AssertionError_root_first ;;
    _ <- py_assert (negb (root_index =? List.length fields)%nat)
           AssertionError_root_len ;;
    '(left_, pos1) <- ParseTree_ (firstn root_index fields) pos ;;
    '(right_, pos2) <- ParseTree_ (skipn (root_index + 1) fields) pos1 ;;
    Ok (OpNode_init left_ right_ operator_sub, pos2)
  else
    multi <- is_multi_die root_field ;;
    if multi : bool then
      multiplier <- get_multiplier root_field ;;
      expanded <- multi_expression root_field multiplier ;;
      ParseTree_ expanded pos
    else
      ValueNode_init rnd root_field pos.

(** [ParseTree.__init__] on a list of fields.  The recursion of the script is
    not structural (a multi-die field is replaced by a longer list), so the
    depth of nested constructor calls is bounded by [fuel]. *)
Fixpoint ParseTree_fuel (rnd : nat -> Z) (fuel : nat) (fields : list string)
    (pos : nat) : result (Node * nat) :=
  match fuel with
  | O => NoFuel
  | S fuel' =>
      root_index <- find_root_node fields ;;
      '(root_node, pos') <-
        parse_node rnd (ParseTree_fuel rnd fuel') fields root_index pos ;;
      Ok (ParseTree root_node (value_of root_node), pos')
  end.

(** A bound on the depth of nested constructor calls for [fields]: a
    multi-die field with multiplier [m] expands to [2m - 1] fields. *)
Definition field_weight (f : string) : nat :=
  match get_multiplier f with
  | Ok m => if 1 <? m then Z.to_nat (2 * m) else 1%nat
  | _ => 1%nat
  end.

Definition fields_weight (fields : list string) : nat :=
  list_sum (map field_weight fields).

(** The argument of [ParseTree(...)] once the [isinstance] dispatch of
    [__init__] has accepted it: a [str] or a [list] of [str].  The dispatch
    itself, with its two raise sites, is [ParseTree_call]. *)
Inductive PyArg : Type :=
| PyStr (s : string)
| PyList (l : list string).

(** [ParseTree.__init__] on an accepted argument *)
Definition ParseTree_init (rnd : nat -> Z) (fields_or_str : PyArg) (pos : nat)
  : result (Node * nat) :=
  fields <- match fields_or_str with
            | PyStr s => parse_fields s
            | PyList l => Ok l
            end ;;
  ParseTree_fuel rnd (S (fields_weight fields)) fields pos.

(** ** Rendering: the [__str__] methods *)

Definition opstring (op : Operator) : string :=
  match op with
  | operator_add => "+"
  | operator_sub => "-"
  end.

(** ["{}".format(x)] for an attribute that is an [int] or [None] *)
Definition str_opt (x : option Z) : string :=
  match x with
  | Some n => str_int n
  | None => "None"
  end.

(** [self.value == self.max_value] *)
Definition eq_max (value : Z) (max_value : option Z) : bool :=
  match max_value with
  | Some m => value =? m
  | None => false
  end.

Fixpoint Node_str (n : Node) : string :=
  match n with
  | ParseTree root_node _ => Node_str root_node
  | OpNode left_ right_ op _ =>
      Node_str left_ ++ " " ++ opstring op ++ " " ++ Node_str right_
  | ValueNode _ isdie max_value value =>
      if isdie && eq_max value max_value then
        "!*" ++ str_int value ++ "*!(d" ++ str_opt max_value ++ ")"
      else if isdie then
        str_int value ++ "(d" ++ str_opt max_value ++ ")"
      else
        str_int value
  end.

(** ** The evaluator: the body of the loop of [main]

    [result = ParseTree(line)], then [str(result)] and [result.value] are
    read for printing.  The constructed object is returned as well. *)
Record Evaluation : Type := mkEvaluation {
  tree : Node;
  rendered : string;
  total : Z
}.

Definition evaluate (rnd : nat -> Z) (line : string) (pos : nat)
  : result (Evaluation * nat) :=
  '(result, pos') <- ParseTree_init rnd (PyStr line) pos ;;
  let expr := Node_str result in
  let res := value_of result in
  Ok (mkEvaluation result expr res, pos').


(** ** Specification-side vocabulary *)

(** [i] is the first position of [x] in [fields]. *)
Definition first_occurrence (x : string) (fields : list string) (i : nat) : Prop :=
  nth_error fields i = Some x /\
  forall j, (j < i)%nat -> nth_error fields j <> Some x.

(** [i] is the last position of [x] in [fields]. *)
Definition last_occurrence (x : string) (fields : list string) (i : nat) : Prop :=
  nth_error fields i = Some x /\
  forall j, (i < j)%nat -> nth_error fields j <> Some x.

(** The root policy as the specification words it, with ["-"] taking
    priority over ["+"]: the last ["-"] if there is one, else the first
    ["+"], else index 0 of a one-element sequence. *)
Definition spec_find_root (fields : list string) : result nat :=
  if field_in "-" fields then
    match index "-" (List.rev fields) with
    | Some i => Ok (List.length fields - 1 - i)%nat
    | None => Raise IndexError
    end
  else if field_in "+" fields then
    match index "+" fields with
    | Some i => Ok i
    | None => Raise IndexError
    end
  else
    _ <- py_assert (List.length fields =? 1)%nat AssertionError_no_op ;;
    Ok 0%nat.

(** Every character of [s] is a decimal digit. *)
Fixpoint all_digits (s : string) : bool :=
  match s with
  | EmptyString => true
  | String c r => is_digit c && all_digits r
  end.

(** No character of [s] is whitespace. *)
Fixpoint no_space (s : string) : bool :=
  match s with
  | EmptyString => true
  | String c r => negb (isspace c) && no_space r
  end.

(** No character of [s] is one of the two operator characters. *)
Fixpoint no_operator (s : string) : bool :=
  match s with
  | EmptyString => true
  | String c r => negb (Ascii.eqb c "+") && negb (Ascii.eqb c "-") && no_operator r
  end.

(** [rec2] agrees with [rec1] wherever [rec1] does not run out of fuel. *)
Definition extends (rec1 rec2 : list string -> nat -> result (Node * nat)) : Prop :=
  forall fields pos, rec1 fields pos <> NoFuel -> rec2 fields pos = rec1 fields pos.

(** The field list of [n + 1] copies of [single] joined by ["+"], as
    [multi_expression] builds it. *)
Definition chain_fields (single : string) (n : nat) : list string :=
  single :: flat_map (fun f => ["+"; f]) (repeat single n).

(** The value rolled at tape position [pos] for a die with [faces] faces. *)
Definition die_value (rnd : nat -> Z) (faces : Z) (pos : nat) : Z :=
  1 + rnd pos mod faces.

(** The leaf of one single-die field ["1d{faces}"] rolled at [pos]. *)
Definition die_leaf (rnd : nat -> Z) (faces : Z) (pos : nat) : Node :=
  ValueNode ("1d" ++ str_int faces) true (Some faces) (die_value rnd faces pos).

(** The right-nested chain of [n + 1] single dice rolled from [pos] on:
    the left operand of every [OpNode] is one die leaf, the right operand
    is the rest of the chain. *)
Fixpoint dice_chain (rnd : nat -> Z) (faces : Z) (n : nat) (pos : nat) : Node :=
  let first := ParseTree (die_leaf rnd faces pos) (die_value rnd faces pos) in
  match n with
  | O => first
  | S n' =>
      let rest := dice_chain rnd faces n' (S pos) in
      ParseTree (OpNode first rest operator_add
                   (die_value rnd faces pos + value_of rest))
                (die_value rnd faces pos + value_of rest)
  end.

(** The multi-die input ["{M}d{F}"]. *)
Definition dice_input (mult faces : Z) : string :=
  str_int mult ++ "d" ++ str_int faces.

(** The rendering of one die sub-term with the given face count and value:
    the two die branches of [ValueNode.__str__]. *)
Definition die_str (faces value : Z) : string :=
  if value =? faces
  then "!*" ++ str_int value ++ "*!(d" ++ str_int faces ++ ")"
  else str_int value ++ "(d" ++ str_int faces ++ ")".

(** Sub-terms joined by [" + "]. *)
Fixpoint join_plus (terms : list string) : string :=
  match terms with
  | [] => ""
  | [t] => t
  | t :: rest => t ++ " + " ++ join_plus rest
  end.

(** The values of [n] consecutive rolls of a die from tape position [pos]. *)
Definition draws (rnd : nat -> Z) (faces : Z) (n : nat) (pos : nat) : list Z :=
  map (die_value rnd faces) (seq pos n).

Definition sum_Z (l : list Z) : Z := fold_right Z.add 0 l.

(** The node is a single leaf, possibly wrapped in [ParseTree] objects. *)
Fixpoint is_leaf (n : Node) : bool :=
  match n with
  | ParseTree root_node _ => is_leaf root_node
  | OpNode _ _ _ _ => false
  | ValueNode _ _ _ _ => true
  end.

(** Right-nested chain: the left operand of every operation is a leaf. *)
Fixpoint right_nested (n : Node) : bool :=
  match n with
  | ParseTree root_node _ => right_nested root_node
  | OpNode left_ right_ _ _ => is_leaf left_ && right_nested right_
  | ValueNode _ _ _ _ => true
  end.

(** Left-nested chain: the right operand of every operation is a leaf. *)
Fixpoint left_nested (n : Node) : bool :=
  match n with
  | ParseTree root_node _ => left_nested root_node
  | OpNode left_ right_ _ _ => left_nested left_ && is_leaf right_
  | ValueNode _ _ _ _ => true
  end.

(** The [ValueNode]s of a tree, left to right. *)
Fixpoint leaves (n : Node) : list Node :=
  match n with
  | ParseTree root_node _ => leaves root_node
  | OpNode left_ right_ _ _ => (leaves left_ ++ leaves right_)%list
  | ValueNode _ _ _ _ => [n]
  end.

(** [leaf.field], for a [ValueNode]. *)
Definition field_of (n : Node) : string :=
  match n with
  | ValueNode field _ _ _ => field
  | _ => ""
  end.

(** [leaf.isdie], for a [ValueNode]. *)
Definition isdie_of (n : Node) : bool :=
  match n with
  | ValueNode _ isdie _ _ => isdie
  | _ => false
  end.

(** The number of die leaves of a tree. *)
Definition count_dice (n : Node) : nat :=
  List.length (filter isdie_of (leaves n)).

(** The successful runs of the constructor on a list of fields, as a
    big-step relation: [built rnd fields pos t pos'] when [ParseTree(fields)]
    started at tape position [pos] returns [t] and leaves the tape at
    [pos']. *)
Inductive built (rnd : nat -> Z) : list string -> nat -> Node -> nat -> Prop :=
| built_leaf (f : string) (pos : nat) (n : Node) (pos' : nat) :
    f <> "+" -> f <> "-" ->
    is_multi_die f = Ok false ->
    ValueNode_init rnd f pos = Ok (n, pos') ->
    built rnd [f] pos (ParseTree n (value_of n)) pos'
| built_multi (f : string) (m : Z) (expanded : list string) (pos : nat)
    (t : Node) (pos' : nat) :
    f <> "+" -> f <> "-" ->
    get_multiplier f = Ok m -> 1 < m ->
    multi_expression f m = Ok expanded ->
    built rnd expanded pos t pos' ->
    built rnd [f] pos (ParseTree t (value_of t)) pos'
| built_op (fields : list string) (i : nat) (op : Operator) (pos : nat)
    (l : Node) (pos1 : nat) (r : Node) (pos2 : nat) :
    find_root_node fields = Ok i ->
    nth_error fields i = Some (opstring op) ->
    i <> 0%nat ->
    built rnd (firstn i fields) pos l pos1 ->
    built rnd (skipn (i + 1) fields) pos1 r pos2 ->
    built rnd fields pos
      (ParseTree (OpNode_init l r op) (value_of (OpNode_init l r op))) pos2.

(** The values stored in a tree are the ones rolled on the tape between two
    positions: every die leaf holds the draw of its own tape position, every
    literal leaf the integer its field reads as, and every inner node the
    result of its operator on the stored values of its operands. *)
Inductive rolled (rnd : nat -> Z) : Node -> nat -> nat -> Prop :=
| rolled_die (f : string) (faces : Z) (pos : nat) :
    0 < faces ->
    rolled rnd (ValueNode f true (Some faces) (die_value rnd faces pos)) pos (S pos)
| rolled_literal (f : string) (v : Z) (pos : nat) :
    py_int f = Ok v ->
    rolled rnd (ValueNode f false None v) pos pos
| rolled_op (l r : Node) (op : Operator) (pos pos1 pos2 : nat) :
    rolled rnd l pos pos1 -> rolled rnd r pos1 pos2 ->
    rolled rnd (OpNode l r op (apply_op op (value_of l) (value_of r))) pos pos2
| rolled_tree (n : Node) (pos pos' : nat) :
    rolled rnd n pos pos' ->
    rolled rnd (ParseTree n (value_of n)) pos pos'.

(** Some [d] of [s] is directly followed by a digit. *)
Fixpoint has_d_digit (s : string) : bool :=
  match s with
  | EmptyString => false
  | String c r =>
      (Ascii.eqb c "d" &&
       match r with String c' _ => is_digit c' | EmptyString => false end)
      || has_d_digit r
  end.

(** [s] does not start with a digit. *)
Definition starts_nondigit (s : string) : bool :=
  match s with
  | String c _ => negb (is_digit c)
  | EmptyString => true
  end.


(** The exceptions the constructor can raise on a list of fields. *)
Definition constructor_exn (e : PyExn) : Prop :=
  e = AssertionError_no_op \/ e = AssertionError_root_first \/
  e = Exception_not_a_die \/ e = ValueError_randrange \/ e = ValueError_int.

(** ** Vocabulary for the splitter *)

(** The first character of [s] is one of the two operator characters. *)
Definition starts_with_operator (s : string) : bool :=
  match s with
  | String c _ => Ascii.eqb c "+" || Ascii.eqb c "-"
  | EmptyString => false
  end.

(** Two ["-"] characters stand side by side somewhere in [s]. *)
Fixpoint has_double_minus (s : string) : bool :=
  match s with
  | EmptyString => false
  | String c r =>
      (Ascii.eqb c "-" &&
       match r with String c' _ => Ascii.eqb c' "-" | EmptyString => false end)
      || has_double_minus r
  end.

(** The field is one of the two operator markers. *)
Definition is_operator (f : string) : bool :=
  String.eqb f "+" || String.eqb f "-".

(** The fields written one after the other. *)
Definition concat_fields (fields : list string) : string :=
  fold_right append "" fields.

(** The operand/operator pairs of the fields pushed so far by the splitter,
    written out as the list of fields. *)
Definition flat_pairs (ps : list (string * string)) : list string :=
  flat_map (fun p => [fst p; snd p]) ps.

(** An operand as the splitter pushes it: free of operator characters
    and already stripped. *)
Definition pushed_operand (f : string) : Prop :=
  no_operator f = true /\ strip f = f.

(** ** Vocabulary for the left-to-right reading of an expression *)

(** The operator an operator field stands for. *)
Definition op_of_field (o : string) : Operator :=
  if String.eqb o "+" then operator_add else operator_sub.

(** The fields of an expression: a first operand followed by
    (operator, operand) pairs. *)
Definition expression_fields (first : string) (terms : list (string * string))
  : list string :=
  first :: flat_pairs terms.

(** What a caller observes of a constructed tree: its value, its rendering
    and the tape position after construction. *)
Definition observe (r : result (Node * nat)) : result (Z * string * nat) :=
  '(t, pos') <- r ;; Ok (value_of t, Node_str t, pos').

(** Reading the (operator, operand) pairs from left to right: every operand
    is built on its own, at the tape position the previous one left, and
    applied to the running value with the operator in front of it. *)
Fixpoint eval_terms (rnd : nat -> Z) (terms : list (string * string)) (acc : Z)
    (shown : string) (pos : nat) : result (Z * string * nat) :=
  match terms with
  | [] => Ok (acc, shown, pos)
  | (o, f) :: rest =>
      '(t, pos') <- ParseTree_init rnd (PyList [f]) pos ;;
      eval_terms rnd rest (apply_op (op_of_field o) acc (value_of t))
        (shown ++ " " ++ o ++ " " ++ Node_str t) pos'
  end.

Definition eval_left_to_right (rnd : nat -> Z) (first : string)
    (terms : list (string * string)) (pos : nat) : result (Z * string * nat) :=
  '(t, pos') <- ParseTree_init rnd (PyList [first]) pos ;;
  eval_terms rnd terms (value_of t) (Node_str t) pos'.

(** Operators and operands are where they belong. *)
Definition well_formed (first : string) (terms : list (string * string)) : Prop :=
  is_operator first = false /\
  Forall (fun p => is_operator (fst p) = true /\ is_operator (snd p) = false) terms.

(** The value and rendering of integer terms read from left to right. *)
Fixpoint literal_terms (terms : list (string * Z)) (acc : Z) (shown : string)
  : Z * string :=
  match terms with
  | [] => (acc, shown)
  | (o, v) :: rest =>
      literal_terms rest (apply_op (op_of_field o) acc v)
        (shown ++ " " ++ o ++ " " ++ str_int v)
  end.

(** The text of the (operator, operand) pairs. *)
Fixpoint terms_string (terms : list (string * string)) : string :=
  match terms with
  | [] => ""
  | (o, f) :: rest => o ++ f ++ terms_string rest
  end.

(** The text of an expression: a first operand followed by the text of its
    (operator, operand) pairs. *)
Definition expression_string (first : string) (terms : list (string * string))
  : string :=
  first ++ terms_string terms.

(** The pairs with every operand stripped, as the splitter pushes them. *)
Definition strip_terms (terms : list (string * string)) : list (string * string) :=
  map (fun p => (fst p, strip (snd p))) terms.

(** What a caller observes of an evaluation: total, rendering and the tape
    position after it. *)
Definition observe_evaluation (r : result (Evaluation * nat))
  : result (Z * string * nat) :=
  '(e, pos') <- r ;; Ok (total e, rendered e, pos').

(** Operand texts between operators: an operator in front, no operator
    character inside, at least one character. *)
Definition operand_texts (first : string) (terms : list (string * string)) : Prop :=
  (no_operator first = true /\ first <> "") /\
  Forall (fun p => is_operator (fst p) = true /\
                   no_operator (snd p) = true /\ snd p <> "") terms.

(** An operand text that is an integer literal with value [v]: stripped,
    as the splitter pushes it, it reads as [v]. *)
Definition literal_text (f : string) (v : Z) : Prop :=
  no_operator f = true /\ f <> "" /\ contains "d" f = false /\
  py_int (strip f) = Ok v.

(** The (operator, operand text) pair and the (operator, value) pair of an
    annotated literal term. *)
Definition term_text (p : string * string * Z) : string * string := fst p.
Definition term_value (p : string * string * Z) : string * Z := (fst (fst p), snd p).

(** ** Vocabulary for constructed trees *)

(** What a leaf stores: a die leaf has a [d] in its field, the face count
    read from it, at least one face and a value on one of the faces; a
    literal leaf has no [d] in its field, no face count and the integer its
    field reads as. *)
Definition leaf_ok (leaf : Node) : Prop :=
  match leaf with
  | ValueNode f true (Some faces) v =>
      contains "d" f = true /\ get_die_type f = Ok faces /\
      1 <= faces /\ 1 <= v <= faces
  | ValueNode f false None v => contains "d" f = false /\ py_int f = Ok v
  | _ => False
  end.

(** The least and the greatest total a tree of this shape can hold: a die
    leaf ranges over its faces, a literal leaf is fixed, and the operators
    combine the ranges of their operands. *)
Fixpoint value_range (n : Node) : Z * Z :=
  match n with
  | ParseTree root_node _ => value_range root_node
  | OpNode left_ right_ op _ =>
      match op with
      | operator_add =>
          (fst (value_range left_) + fst (value_range right_),
           snd (value_range left_) + snd (value_range right_))
      | operator_sub =>
          (fst (value_range left_) - snd (value_range right_),
           snd (value_range left_) - fst (value_range right_))
      end
  | ValueNode _ isdie max_value value =>
      match isdie, max_value with
      | true, Some faces => (1, faces)
      | _, _ => (value, value)
      end
  end.

(** The number of dice a field stands for: none without a [d], otherwise
    its multiplier, and one when the multiplier is absent or 0. *)
Definition dice_of_field (f : string) : nat :=
  if contains "d" f then
    match get_multiplier f with
    | Ok m => Z.to_nat (Z.max 1 m)
    | _ => 1%nat
    end
  else 0%nat.


(** Every character of [s] is whitespace for [str.isspace]. *)
Fixpoint all_space (s : string) : bool :=
  match s with
  | EmptyString => true
  | String c r => isspace c && all_space r
  end.

(** ** The loop of [main] *)

(** [x in string.whitespace] for one character: space, tab, line feed,
    vertical tab, form feed and carriage return. *)
Definition in_string_whitespace (c : ascii) : bool :=
  let n := nat_of_ascii c in
  (n =? 32)%nat || ((9 <=? n)%nat && (n <=? 13)%nat).

(** [all(map(lambda x: x in string.whitespace, line))] *)
Fixpoint all_string_whitespace (line : string) : bool :=
  match line with
  | EmptyString => true
  | String c r => in_string_whitespace c && all_string_whitespace r
  end.

Definition newline : string := String "010" "".

(** The prompt [input] writes before it reads a line. *)
Definition PROMPT : string := "What would you like to roll?" ++ newline.

(** What [print("{expr} = {res}\n".format(expr=result, res=result.value))]
    writes: the formatted text and the line end of [print]. *)
Definition printed (result : Node) : string :=
  Node_str result ++ " = " ++ str_int (value_of result) ++ newline ++ newline.

(** How a run of [main] ends: it returns at a blank line, or an exception
    of the constructor or the [EOFError] of [input] at the end of the input
    leaves it.  [Main_no_fuel] stands for a constructor call cut short by
    its depth bound. *)
Inductive MainOutcome : Type :=
| Main_returned
| Main_raised (e : PyExn)
| Main_EOFError
| Main_no_fuel.

(** [main], on the lines the standard input holds; the result is what was
    written to the standard output, chunk by chunk, how the run ended, and
    the tape position reached. *)
Fixpoint main (rnd : nat -> Z) (stdin : list string) (pos : nat)
  : list string * MainOutcome * nat :=
  match stdin with
  | [] => ([PROMPT], Main_EOFError, pos)
  | line :: rest =>
      if all_string_whitespace line then ([PROMPT], Main_returned, pos)
      else
        match ParseTree_init rnd (PyStr line) pos with
        | Ok (result, pos') =>
            let '(out, outcome, pos'') := main rnd rest pos' in
            (PROMPT :: printed result :: out, outcome, pos'')
        | Raise e => ([PROMPT], Main_raised e, pos)
        | NoFuel => ([PROMPT], Main_no_fuel, pos)
        end
  end.

(** The lines evaluated one after the other on the tape. *)
Fixpoint evaluate_lines (rnd : nat -> Z) (lines : list string) (pos : nat)
  : result (list Evaluation * nat) :=
  match lines with
  | [] => Ok ([], pos)
  | line :: rest =>
      '(e, pos') <- evaluate rnd line pos ;;
      '(es, pos'') <- evaluate_lines rnd rest pos' ;;
      Ok (e :: es, pos'')
  end.

(** What [main] writes for the evaluations of a run of lines. *)
Definition transcript (es : list Evaluation) : list string :=
  flat_map (fun e => [PROMPT;
                      rendered e ++ " = " ++ str_int (total e) ++ newline ++ newline])
    es.

(** ** The objects in the store

    The three classes once more, this time as the interpreter has them:
    objects live in a store under an address, attributes are assigned one
    by one, and every method is a program that may read and write the store
    and draw from the tape.  Every attribute assignment is logged. *)

Inductive PyClass : Type := Class_ParseTree | Class_OpNode | Class_ValueNode.

Inductive PyVal : Type :=
| VInt (z : Z)
| VStr (s : string)
| VBool (b : bool)
| VNone
| VRef (a : nat)
| VOp (op : Operator).

Record PyObj : Type := mkObj {
  obj_class : PyClass;
  obj_attrs : list (string * PyVal)
}.

(** [heap] maps the addresses below [next] to objects, [writes] is the log
    of attribute assignments (address, attribute name), oldest first, and
    [tape_pos] is the position on the tape of raw draws. *)
Record Store : Type := mkStore {
  heap : nat -> option PyObj;
  next : nat;
  writes : list (nat * string);
  tape_pos : nat
}.

Definition empty_store (pos : nat) : Store := mkStore (fun _ => None) 0 [] pos.

(** The exceptions of store programs: those of the construction, the
    [AttributeError] of a read of an attribute that was never assigned, and
    [Exception("unknown operator in OpNode")]. *)
Inductive StoreExn : Type :=
| Py (e : PyExn)
| AttributeError
| Exception_unknown_operator.

(** [SNoFuel] and [SStuck] are not Python outcomes.  [SNoFuel] marks a
    depth bound that was too small.  [SStuck] marks a store that no run of
    the script produces: a reference to no object, or an attribute that
    holds a value of a type none of the constructors assigns to it; the
    script is not followed further from there. *)
Inductive sresult (A : Type) : Type :=
| SOk (a : A)
| SRaise (e : StoreExn)
| SNoFuel
| SStuck.

Arguments SOk {A} a.
Arguments SRaise {A} e.
Arguments SNoFuel {A}.
Arguments SStuck {A}.

Definition SM (A : Type) : Type := Store -> sresult (A * Store).

Definition sret {A : Type} (a : A) : SM A := fun st => SOk (a, st).

Definition sbind {A B : Type} (c : SM A) (k : A -> SM B) : SM B :=
  fun st =>
    match c st with
    | SOk (a, st') => k a st'
    | SRaise e => SRaise e
    | SNoFuel => SNoFuel
    | SStuck => SStuck
    end.

Notation "x <-- c ;; k" := (sbind c (fun x => k))
  (at level 61, c at next level, right associativity).

Definition sraise {A : Type} (e : StoreExn) : SM A := fun _ => SRaise e.

Definition stuck {A : Type} : SM A := fun _ => SStuck.

(** A pure computation of the script, run inside a store program. *)
Definition lift {A : Type} (r : result A) : SM A :=
  fun st =>
    match r with
    | Ok a => SOk (a, st)
    | Raise e => SRaise (Py e)
    | NoFuel => SNoFuel
    end.

Fixpoint lookup_attr (name : string) (attrs : list (string * PyVal)) : option PyVal :=
  match attrs with
  | [] => None
  | (n, v) :: rest => if String.eqb n name then Some v else lookup_attr name rest
  end.

(** The heap [hp] with the object [o] at address [a]. *)
Definition update (hp : nat -> option PyObj) (a : nat) (o : PyObj)
  : nat -> option PyObj :=
  fun b => if (b =? a)%nat then Some o else hp b.

(** Allocation of an object of class [cls] without attributes. *)
Definition new_object (cls : PyClass) : SM nat :=
  fun st =>
    SOk (next st,
         mkStore (update (heap st) (next st) (mkObj cls []))
                 (S (next st)) (writes st) (tape_pos st)).

(** [obj.name = v]: the assignment is made and logged. *)
Definition set_attr (a : nat) (name : string) (v : PyVal) : SM unit :=
  fun st =>
    match heap st a with
    | Some o =>
        SOk (tt,
             mkStore (update (heap st) a
                        (mkObj (obj_class o) ((name, v) :: obj_attrs o)))
                     (next st) (writes st ++ [(a, name)]) (tape_pos st))
    | None => SStuck
    end.

(** [obj.name] *)
Definition get_attr (a : nat) (name : string) : SM PyVal :=
  fun st =>
    match heap st a with
    | Some o =>
        match lookup_attr name (obj_attrs o) with
        | Some v => SOk (v, st)
        | None => SRaise AttributeError
        end
    | None => SStuck
    end.

(** [type(obj)], on which the call [str(obj)] dispatches *)
Definition class_of (a : nat) : SM PyClass :=
  fun st =>
    match heap st a with
    | Some o => SOk (obj_class o, st)
    | None => SStuck
    end.

(** An attribute read where the script goes on with an [int], an [int] or
    [None], a reference to an object, or a truth value. *)
Definition get_int (a : nat) (name : string) : SM Z :=
  v <-- get_attr a name ;;
  match v with VInt z => sret z | _ => stuck end.

Definition get_opt_int (a : nat) (name : string) : SM (option Z) :=
  v <-- get_attr a name ;;
  match v with VInt z => sret (Some z) | VNone => sret None | _ => stuck end.

Definition get_ref (a : nat) (name : string) : SM nat :=
  v <-- get_attr a name ;;
  match v with VRef r => sret r | _ => stuck end.

Definition get_bool (a : nat) (name : string) : SM bool :=
  v <-- get_attr a name ;;
  match v with VBool b => sret b | _ => stuck end.

(** [random.randint(a, b)] on the tape of the store. *)
Definition s_randint (rnd : nat -> Z) (a b : Z) : SM Z :=
  fun st =>
    match randint rnd a b (tape_pos st) with
    | Ok (v, pos') => SOk (v, mkStore (heap st) (next st) (writes st) pos')
    | Raise e => SRaise (Py e)
    | NoFuel => SNoFuel
    end.

(** [ValueNode(field)]: allocation, then [ValueNode.__init__]. *)
Definition s_ValueNode (rnd : nat -> Z) (field : string) : SM nat :=
  self <-- new_object Class_ValueNode ;;
  _ <-- set_attr self "field" (VStr field) ;;
  _ <-- set_attr self "isdie" (VBool (contains "d" field)) ;;
  isdie <-- get_bool self "isdie" ;;
  _ <-- (if isdie : bool then
           max_value <-- lift (get_die_type field) ;;
           _ <-- set_attr self "max_value" (VInt max_value) ;;
           m <-- get_int self "max_value" ;;
           value <-- s_randint rnd 1 m ;;
           set_attr self "value" (VInt value)
         else
           _ <-- set_attr self "max_value" VNone ;;
           value <-- lift (py_int field) ;;
           set_attr self "value" (VInt value)) ;;
  sret self.

(** [OpNode(left, right, op)]: allocation, then [OpNode.__init__]. *)
Definition s_OpNode (left_ right_ : nat) (op : Operator) : SM nat :=
  self <-- new_object Class_OpNode ;;
  _ <-- set_attr self "left" (VRef left_) ;;
  _ <-- set_attr self "right" (VRef right_) ;;
  _ <-- set_attr self "op" (VOp op) ;;
  lv <-- get_int left_ "value" ;;
  rv <-- get_int right_ "value" ;;
  _ <-- set_attr self "value" (VInt (apply_op op lv rv)) ;;
  sret self.

(** [ParseTree.parse_node] as a store program; [ParseTree_] is the
    constructor call [ParseTree(...)] on a list. *)
Definition s_parse_node (rnd : nat -> Z) (ParseTree_ : list string -> SM nat)
    (fields : list string) (root_index : nat) : SM nat :=
  root_field <-- lift (get_field fields root_index) ;;
  if String.eqb root_field "+" then
    _ <-- lift (py_assert (negb (root_index =? 0)%nat) AssertionError_root_first) ;;
    _ <-- lift (py_assert (negb (root_index =? List.length fields)%nat)
                  AssertionError_root_len) ;;
    left_ <-- ParseTree_ (firstn root_index fields) ;;
    right_ <-- ParseTree_ (skipn (root_index + 1) fields) ;;
    s_OpNode left_ right_ operator_add
  else if String.eqb root_field "-" then
    _ <-- lift (py_assert (negb (root_index =? 0)%nat) AssertionError_root_first) ;;
    _ <-- lift (py_assert (negb (root_index =? List.length fields)%nat)
                  AssertionError_root_len) ;;
    left_ <-- ParseTree_ (firstn root_index fields) ;;
    right_ <-- ParseTree_ (skipn (root_index + 1) fields) ;;
    s_OpNode left_ right_ operator_sub
  else
    multi <-- lift (is_multi_die root_field) ;;
    if multi : bool then
      multiplier <-- lift (get_multiplier root_field) ;;
      expanded <-- lift (multi_expression root_field multiplier) ;;
      ParseTree_ expanded
    else
      s_ValueNode rnd root_field.

(** The two assignments of [ParseTree.__init__] once the fields are known;
    [s_new] is the whole constructor call on a list, allocation included.
    [fuel] bounds the depth of nested constructor calls as in
    [ParseTree_fuel]. *)
Fixpoint s_init (rnd : nat -> Z) (fuel : nat) (self : nat) (fields : list string)
  : SM unit :=
  match fuel with
  | O => fun _ => SNoFuel
  | S fuel' =>
      root_index <-- lift (find_root_node fields) ;;
      node <-- s_parse_node rnd
                 (fun fs => self' <-- new_object Class_ParseTree ;;
                            _ <-- s_init rnd fuel' self' fs ;;
                            sret self')
                 fields root_index ;;
      _ <-- set_attr self "root_node" (VRef node) ;;
      root_node <-- get_ref self "root_node" ;;
      value <-- get_attr root_node "value" ;;
      set_attr self "value" value
  end.

Definition s_new (rnd : nat -> Z) (fuel : nat) (fields : list string) : SM nat :=
  self <-- new_object Class_ParseTree ;;
  _ <-- s_init rnd fuel self fields ;;
  sret self.

(** [ParseTree(fields_or_str)] *)
Definition s_ParseTree (rnd : nat -> Z) (fields_or_str : PyArg) : SM nat :=
  self <-- new_object Class_ParseTree ;;
  fields <-- lift (match fields_or_str with
                   | PyStr s => parse_fields s
                   | PyList l => Ok l
                   end) ;;
  _ <-- s_init rnd (S (fields_weight fields)) self fields ;;
  sret self.

(** [str(obj)]: the [__str__] method of the class of the object, with the
    attribute reads of the script in their order.  [fuel] bounds the depth
    of nested [str] calls. *)
Fixpoint s_str (fuel : nat) (self : nat) : SM string :=
  match fuel with
  | O => fun _ => SNoFuel
  | S fuel' =>
      cls <-- class_of self ;;
      match cls with
      | Class_ParseTree =>
          root_node <-- get_ref self "root_node" ;;
          s_str fuel' root_node
      | Class_OpNode =>
          op <-- get_attr self "op" ;;
          opstring_ <-- match op with
                        | VOp operator_add => sret "+"
                        | _ =>
                            op' <-- get_attr self "op" ;;
                            match op' with
                            | VOp operator_sub => sret "-"
                            | _ => sraise Exception_unknown_operator
                            end
                        end ;;
          left_ <-- get_ref self "left" ;;
          ls <-- s_str fuel' left_ ;;
          right_ <-- get_ref self "right" ;;
          rs <-- s_str fuel' right_ ;;
          sret (ls ++ " " ++ opstring_ ++ " " ++ rs)
      | Class_ValueNode =>
          isdie <-- get_bool self "isdie" ;;
          is_max <-- (if isdie : bool then
                        value <-- get_int self "value" ;;
                        max_value <-- get_opt_int self "max_value" ;;
                        sret (eq_max value max_value)
                      else sret false) ;;
          if is_max : bool then
            value <-- get_int self "value" ;;
            max_value <-- get_opt_int self "max_value" ;;
            sret ("!*" ++ str_int value ++ "*!(d" ++ str_opt max_value ++ ")")
          else
            isdie' <-- get_bool self "isdie" ;;
            value <-- get_int self "value" ;;
            max_value <-- get_opt_int self "max_value" ;;
            if isdie' : bool then
              sret (str_int value ++ "(d" ++ str_opt max_value ++ ")")
            else
              sret (str_int value)
      end
  end.

(** The body of the loop of [main] on the store: the tree is built, its
    [value] is read for the argument [res] of [format], and [format] then
    renders the tree. *)
Definition s_evaluate (rnd : nat -> Z) (fuel : nat) (line : string)
  : SM (nat * string * PyVal) :=
  result <-- s_ParseTree rnd (PyStr line) ;;
  res <-- get_attr result "value" ;;
  expr <-- s_str fuel result ;;
  sret (result, expr, res).

(** ** The constructor on an argument of any type

    [ParseTree.__init__] dispatches on the type of its argument with
    [isinstance]: a [str] is split, a [list] must hold only [str] (the
    assertion of line 30), anything else raises
    [Exception("improper argument to ParseTree")] (line 33). *)

(** The values a caller can pass: a [str], a [list] of values, or an object
    of another type. *)
#[warnings="-register-all"] Inductive PyValue : Type :=
| PVStr (s : string)
| PVList (items : list PyValue)
| PVOther.

(** The two exceptions of the dispatch. *)
Inductive ArgumentExn : Type :=
| AssertionError_isinstance
| Exception_improper_argument.

(** [isinstance(x, str)] *)
Definition isinstance_str (x : PyValue) : bool :=
  match x with
  | PVStr _ => true
  | _ => false
  end.

(** The items of a list that holds only [str]. *)
Fixpoint str_items (items : list PyValue) : list string :=
  match items with
  | [] => []
  | PVStr s :: rest => s :: str_items rest
  | _ :: rest => str_items rest
  end.

(** The arguments the dispatch accepts: a string, or a list whose items are
    all strings. *)
Definition accepted_argument (v : PyValue) : Prop :=
  (exists s, v = PVStr s) \/
  (exists items, v = PVList items /\
                 forall x, In x items -> exists s, x = PVStr s).

(** [ParseTree(fields_or_str)] for any argument: an exception of the
    dispatch, or the outcome of [ParseTree_init]. *)
Definition ParseTree_call (rnd : nat -> Z) (fields_or_str : PyValue) (pos : nat)
  : ArgumentExn + result (Node * nat) :=
  match fields_or_str with
  | PVStr s => inr (ParseTree_init rnd (PyStr s) pos)
  | PVList items =>
      if forallb isinstance_str items
      then inr (ParseTree_init rnd (PyList (str_items items)) pos)
      else inl AssertionError_isinstance
  | PVOther => inl Exception_improper_argument
  end.

(** ** Vocabulary for the store *)

(** ["{}".format(x)] reads an attribute that holds an [int] or [None]. *)
Definition val_of_opt (x : option Z) : PyVal :=
  match x with
  | Some m => VInt m
  | None => VNone
  end.

(** The object at address [a] of the heap [hp], with everything reachable
    from it, is the tree [t]; all its objects lie in the address range
    [[k, n)]. *)
Inductive represents (hp : nat -> option PyObj) (k n : nat) : nat -> Node -> Prop :=
| rep_ValueNode (a : nat) (attrs : list (string * PyVal))
    (field : string) (isdie : bool) (max_value : option Z) (value : Z) :
    (k <= a < n)%nat ->
    hp a = Some (mkObj Class_ValueNode attrs) ->
    lookup_attr "field" attrs = Some (VStr field) ->
    lookup_attr "isdie" attrs = Some (VBool isdie) ->
    lookup_attr "max_value" attrs = Some (val_of_opt max_value) ->
    lookup_attr "value" attrs = Some (VInt value) ->
    represents hp k n a (ValueNode field isdie max_value value)
| rep_OpNode (a : nat) (attrs : list (string * PyVal))
    (al ar : nat) (left_ right_ : Node) (op : Operator) (value : Z) :
    (k <= a < n)%nat ->
    hp a = Some (mkObj Class_OpNode attrs) ->
    lookup_attr "left" attrs = Some (VRef al) ->
    lookup_attr "right" attrs = Some (VRef ar) ->
    lookup_attr "op" attrs = Some (VOp op) ->
    lookup_attr "value" attrs = Some (VInt value) ->
    represents hp k n al left_ ->
    represents hp k n ar right_ ->
    represents hp k n a (OpNode left_ right_ op value)
| rep_ParseTree (a : nat) (attrs : list (string * PyVal))
    (ar : nat) (root_node : Node) (value : Z) :
    (k <= a < n)%nat ->
    hp a = Some (mkObj Class_ParseTree attrs) ->
    lookup_attr "root_node" attrs = Some (VRef ar) ->
    lookup_attr "value" attrs = Some (VInt value) ->
    represents hp k n ar root_node ->
    represents hp k n a (ParseTree root_node value).

(** The store [st'] is [st] after the construction of the tree [t] at
    address [a]: the objects of [st] are untouched, the tree lies in the
    addresses allocated since, every assignment made since is to a new
    object and is made once, and every new [ValueNode] had its [value]
    assigned. *)
Definition constructed (st : Store) (a : nat) (t : Node) (st' : Store) : Prop :=
  (next st <= next st')%nat /\
  (forall b, (b < next st)%nat -> heap st' b = heap st b) /\
  represents (heap st') (next st) (next st') a t /\
  exists ws,
    writes st' = (writes st ++ ws)%list /\
    NoDup ws /\
    Forall (fun w => (next st <= fst w < next st')%nat) ws /\
    forall b attrs,
      (next st <= b < next st')%nat ->
      heap st' b = Some (mkObj Class_ValueNode attrs) ->
      In (b, "value") ws.

(** The store program [c], run from [st], has the outcome [r] of the
    construction on values run from the tape position of [st]. *)
Definition refines (r : result (Node * nat)) (c : SM nat) (st : Store) : Prop :=
  match r with
  | Ok (t, p) =>
      exists a st', c st = SOk (a, st') /\ tape_pos st' = p /\ constructed st a t st'
  | Raise e => c st = SRaise (Py e)
  | NoFuel => c st = SNoFuel
  end.

(** The depth of nested [str] calls needed to render [t]. *)
Fixpoint str_depth (t : Node) : nat :=
  match t with
  | ParseTree root_node _ => S (str_depth root_node)
  | OpNode left_ right_ _ _ => S (Nat.max (str_depth left_) (str_depth right_))
  | ValueNode _ _ _ _ => 1
  end.

(** Every assignment logged in [st] is to an object allocated in [st]. *)
Definition writes_allocated (st : Store) : Prop :=
  Forall (fun w => (fst w < next st)%nat) (writes st).

(** The number of assignments to attribute [name] of the object at [a]
    logged in [st]. *)
Definition is_write (a : nat) (name : string) (w : nat * string) : bool :=
  (fst w =? a)%nat && String.eqb (snd w) name.

Definition write_count (st : Store) (a : nat) (name : string) : nat :=
  List.length (filter (is_write a name) (writes st)).

(** The tape of raw draws used in the examples: draw [n] is [n]. *)
Definition tape_count : nat -> Z := fun n => Z.of_nat n.

(** * Properties *)

(** ** The monad *)

Lemma bind_Ok_inv {A B : Type} (r : result A) (k : A -> result B) (b : B) :
  bind r k = Ok b -> exists a, r = Ok a /\ k a = Ok b.
Proof.
  destruct r as [a| |]; simpl; intros H; try discriminate.
  exists a; split; [reflexivity | exact H].
Qed.

(** ** The root locator *)

Lemma field_in_iff (x : string) (fields : list string) :
  field_in x fields = true <-> In x fields.
Proof.
  unfold field_in. rewrite existsb_exists. split.
  - intros [y [Hin Heq]]. apply String.eqb_eq in Heq. now subst.
  - intros Hin. exists x. split; [assumption | apply String.eqb_refl].
Qed.

Lemma field_in_false_iff (x : string) (fields : list string) :
  field_in x fields = false <-> ~ In x fields.
Proof.
  rewrite <- field_in_iff. destruct (field_in x fields); split; congruence.
Qed.

Lemma index_first (x : string) (fields : list string) (i : nat) :
  index x fields = Some i -> first_occurrence x fields i.
Proof.
  revert i. induction fields as [|f rest IH]; simpl; intros i H; [discriminate|].
  destruct (String.eqb_spec f x) as [->|Hne].
  - injection H as <-. split; [reflexivity | intros j Hj; lia].
  - destruct (index x rest) as [k|]; simpl in H; [|discriminate].
    injection H as <-. destruct (IH k eq_refl) as [Hk Hbefore].
    split; [exact Hk|].
    intros [|j] Hj; simpl; [congruence | apply Hbefore; lia].
Qed.

Lemma index_In (x : string) (fields : list string) :
  In x fields -> exists i, index x fields = Some i.
Proof.
  induction fields as [|f rest IH]; simpl; [tauto|].
  intros [->|Hin].
  - rewrite String.eqb_refl. now exists 0%nat.
  - destruct (String.eqb f x); [now exists 0%nat|].
    destruct (IH Hin) as [i ->]. now exists (S i).
Qed.

Lemma first_occurrence_lt (x : string) (fields : list string) (i : nat) :
  first_occurrence x fields i -> (i < List.length fields)%nat.
Proof. intros [H _]. apply nth_error_Some. congruence. Qed.

Lemma rev_first_last (x : string) (fields : list string) (i : nat) :
  first_occurrence x (List.rev fields) i ->
  last_occurrence x fields (List.length fields - 1 - i).
Proof.
  intros Hfirst. pose proof (first_occurrence_lt _ _ _ Hfirst) as Hlt.
  rewrite length_rev in Hlt. destruct Hfirst as [Hi Hbefore]. split.
  - rewrite nth_error_rev in Hi.
    apply Nat.ltb_lt in Hlt. rewrite Hlt in Hi. rewrite <- Hi. f_equal. lia.
  - intros j Hj Hnth.
    assert (Hjlt : (j < List.length fields)%nat)
      by (apply nth_error_Some; congruence).
    apply (Hbefore (List.length fields - 1 - j)%nat); [lia|].
    rewrite nth_error_rev.
    replace (_ <? _)%nat with true by (symmetry; apply Nat.ltb_lt; lia).
    rewrite <- Hnth. f_equal. lia.
Qed.

Lemma find_root_node_lt (fields : list string) (i : nat) :
  find_root_node fields = Ok i -> (i < List.length fields)%nat.
Proof.
  unfold find_root_node.
  destruct (field_in "+" fields) eqn:Hplus.
  - destruct (index "+" fields) as [k|] eqn:Hk; [|discriminate].
    intros [= <-]. eapply first_occurrence_lt, index_first, Hk.
  - destruct (field_in "-" fields) eqn:Hminus.
    + destruct (index "-" (List.rev fields)) as [k|] eqn:Hk; [|discriminate].
      intros [= <-].
      apply index_first, first_occurrence_lt in Hk. rewrite length_rev in Hk. lia.
    + destruct (List.length fields =? 1)%nat eqn:Hlen; simpl; [|discriminate].
      intros [= <-]. apply Nat.eqb_eq in Hlen. lia.
Qed.

(** C1, as the code has it: a ["+"] anywhere takes priority, and the root is
    its first occurrence; only without any ["+"] is the last ["-"] the root;
    without operators the sequence must have exactly one element, whose
    index 0 is returned, and any other length fails the assertion of the
    root locator. *)
Theorem find_root_node_plus_first_else_minus_last (fields : list string) :
  (In "+" fields ->
     exists i, find_root_node fields = Ok i /\ first_occurrence "+" fields i) /\
  (~ In "+" fields -> In "-" fields ->
     exists i, find_root_node fields = Ok i /\ last_occurrence "-" fields i) /\
  (~ In "+" fields -> ~ In "-" fields ->
     find_root_node fields =
       if (List.length fields =? 1)%nat then Ok 0%nat
       else Raise AssertionError_no_op).
Proof.
  unfold find_root_node. repeat split.
  - intros Hin. apply field_in_iff in Hin as Hb. rewrite Hb.
    destruct (index_In _ _ Hin) as [i Hi]. rewrite Hi.
    exists i. split; [reflexivity | now apply index_first].
  - intros Hplus Hin. apply field_in_false_iff in Hplus as ->.
    apply field_in_iff in Hin as Hb. rewrite Hb.
    apply in_rev in Hin. destruct (index_In _ _ Hin) as [i Hi]. rewrite Hi.
    eexists. split; [reflexivity|]. now apply rev_first_last, index_first.
  - intros Hplus Hminus.
    apply field_in_false_iff in Hplus as ->.
    apply field_in_false_iff in Hminus as ->.
    destruct (List.length fields =? 1)%nat; reflexivity.
Qed.

Lemma find_root_node_plus_first_else_minus_last_witness :
  (exists i, find_root_node ["1"; "-"; "2"; "+"; "3"] = Ok i /\
             first_occurrence "+" ["1"; "-"; "2"; "+"; "3"] i) /\
  (exists i, find_root_node ["1"; "-"; "2"; "-"; "3"] = Ok i /\
             last_occurrence "-" ["1"; "-"; "2"; "-"; "3"] i) /\
  find_root_node ["7"] = Ok 0%nat.
Proof.
  split; [|split].
  - apply (find_root_node_plus_first_else_minus_last ["1"; "-"; "2"; "+"; "3"]).
    simpl. intuition.
  - apply (find_root_node_plus_first_else_minus_last ["1"; "-"; "2"; "-"; "3"]).
    + simpl. intuition discriminate.
    + simpl. intuition.
  - apply (find_root_node_plus_first_else_minus_last ["7"]).
    + simpl. intuition discriminate.
    + simpl. intuition discriminate.
Defined.

(** C1 as stated fails: on the fields of ["1-2+3"] a ["-"] is present, its
    last occurrence is index 1, and the root locator returns index 3, the
    first ["+"]. *)
Lemma find_root_node_not_minus_priority :
  parse_fields "1-2+3" = Ok ["1"; "-"; "2"; "+"; "3"] /\
  In "-" ["1"; "-"; "2"; "+"; "3"] /\
  last_occurrence "-" ["1"; "-"; "2"; "+"; "3"] 1 /\
  spec_find_root ["1"; "-"; "2"; "+"; "3"] = Ok 1%nat /\
  find_root_node ["1"; "-"; "2"; "+"; "3"] = Ok 3%nat /\
  ~ (forall fields i, In "-" fields -> last_occurrence "-" fields i ->
       find_root_node fields = Ok i).
Proof.
  assert (Hlast : last_occurrence "-" ["1"; "-"; "2"; "+"; "3"] 1).
  { split; [reflexivity|].
    intros j Hj. do 5 (destruct j as [|j]; [try lia; simpl; congruence|]).
    simpl. destruct j; discriminate. }
  repeat split; try reflexivity; try (simpl; tauto); try apply Hlast.
  intros H. specialize (H ["1"; "-"; "2"; "+"; "3"] 1%nat).
  assert (Hin : In "-" ["1"; "-"; "2"; "+"; "3"]) by (simpl; tauto).
  specialize (H Hin Hlast). vm_compute in H. discriminate.
Qed.

(** ** Digits, [int()] and [str()] *)

Lemma is_digit_cases (c : ascii) :
  is_digit c = true ->
  (c = "0" \/ c = "1" \/ c = "2" \/ c = "3" \/ c = "4" \/
   c = "5" \/ c = "6" \/ c = "7" \/ c = "8" \/ c = "9")%char.
Proof.
  destruct c as [[|] [|] [|] [|] [|] [|] [|] [|]]; vm_compute;
    first [ discriminate
          | intros _; repeat (try (left; reflexivity); right); reflexivity ].
Qed.

Ltac digit_cases c H :=
  let D := fresh "D" in
  pose proof (is_digit_cases c H) as D;
  repeat (destruct D as [D|D]); subst c.

Lemma is_digit_not_space (c : ascii) : is_digit c = true -> isspace c = false.
Proof. intros H. digit_cases c H; reflexivity. Qed.

Lemma is_digit_not_d (c : ascii) : is_digit c = true -> Ascii.eqb c "d" = false.
Proof. intros H. digit_cases c H; reflexivity. Qed.

Lemma is_digit_not_operator (c : ascii) :
  is_digit c = true -> Ascii.eqb c "+" = false /\ Ascii.eqb c "-" = false.
Proof. intros H. digit_cases c H; split; reflexivity. Qed.

Lemma rstrip_no_space (s : string) : no_space s = true -> rstrip s = s.
Proof.
  induction s as [|c r IH]; simpl; [reflexivity|].
  intros H. apply andb_prop in H as [Hc Hr]. rewrite (IH Hr).
  apply negb_true_iff in Hc. rewrite Hc. now destruct r.
Qed.

Lemma strip_no_space (s : string) : no_space s = true -> strip s = s.
Proof.
  intros H. unfold strip.
  assert (Hl : lstrip s = s).
  { destruct s as [|c r]; simpl in *; [reflexivity|].
    apply andb_prop in H as [Hc _]. apply negb_true_iff in Hc. now rewrite Hc. }
  rewrite Hl. now apply rstrip_no_space.
Qed.

Lemma all_digits_no_space (ds : string) : all_digits ds = true -> no_space ds = true.
Proof.
  induction ds as [|c r IH]; simpl; [reflexivity|].
  intros H. apply andb_prop in H as [Hc Hr].
  rewrite (is_digit_not_space c Hc), (IH Hr). reflexivity.
Qed.

Lemma int_body_digits (ds : string) (prev : bool) :
  all_digits ds = true -> (ds <> "" \/ prev = true) -> int_body ds prev = Some ds.
Proof.
  revert prev. induction ds as [|c r IH]; simpl; intros prev Hd Hne.
  - destruct Hne as [Hne| ->]; [congruence | reflexivity].
  - apply andb_prop in Hd as [Hc Hr]. rewrite Hc.
    rewrite (IH true Hr (or_intror eq_refl)). reflexivity.
Qed.

Lemma uint_of_string_digits (ds : string) :
  all_digits ds = true -> exists u, NilEmpty.uint_of_string ds = Some u.
Proof.
  induction ds as [|c r IH]; simpl; [now eexists|].
  intros H. apply andb_prop in H as [Hc Hr].
  destruct (IH Hr) as [u ->]. digit_cases c Hc; simpl; eexists; reflexivity.
Qed.

Lemma int_space_isspace (c : ascii) : isspace c = false -> int_space c = false.
Proof.
  destruct c as [[|] [|] [|] [|] [|] [|] [|] [|]]; vm_compute;
    first [discriminate | reflexivity].
Qed.

Lemma int_strip_no_space (s : string) : no_space s = true -> int_strip s = s.
Proof.
  intros H. unfold int_strip.
  assert (Hl : int_lstrip s = s).
  { destruct s as [|c r]; simpl in *; [reflexivity|].
    apply andb_prop in H as [Hc _]. apply negb_true_iff in Hc.
    now rewrite (int_space_isspace c Hc). }
  rewrite Hl. clear Hl.
  induction s as [|c r IH]; simpl in *; [reflexivity|].
  apply andb_prop in H as [Hc Hr]. rewrite (IH Hr).
  apply negb_true_iff in Hc. rewrite (int_space_isspace c Hc). now destruct r.
Qed.

(** [int()] of a non-empty run of digits is its decimal value. *)
Lemma py_int_digits (ds : string) :
  all_digits ds = true -> ds <> "" ->
  exists u, NilEmpty.uint_of_string ds = Some u /\ py_int ds = Ok (Z.of_uint u).
Proof.
  intros Hd Hne. destruct (uint_of_string_digits ds Hd) as [u Hu].
  exists u. split; [exact Hu|].
  unfold py_int. rewrite (int_strip_no_space ds (all_digits_no_space ds Hd)).
  destruct ds as [|c r]; [congruence|].
  assert (Hbody : int_body (String c r) false = Some (String c r))
    by (apply int_body_digits; [exact Hd | left; congruence]).
  simpl in Hd. apply andb_prop in Hd as [Hc Hr].
  assert (Hz : NilZero.uint_of_string (String c r) = Some u) by exact Hu.
  destruct (is_digit_not_operator c Hc) as [Hplus Hminus].
  cbv beta iota zeta. rewrite Hminus, Hplus. cbv beta iota.
  rewrite Hbody, Hz. reflexivity.
Qed.

Lemma py_int_not_NoFuel (s : string) : py_int s <> NoFuel.
Proof.
  unfold py_int.
  match goal with |- (let '(_, _) := ?x in _) <> _ => destruct x as [neg body] end.
  destruct (int_body body false) as [ds|]; [|discriminate].
  destruct (NilZero.uint_of_string ds); discriminate.
Qed.

(** ** The two patterns *)

Lemma span_digits_spec (s : string) :
  s = fst (span_digits s) ++ snd (span_digits s) /\
  all_digits (fst (span_digits s)) = true /\
  match snd (span_digits s) with
  | String c _ => is_digit c = false
  | EmptyString => True
  end.
Proof.
  induction s as [|c r IH]; simpl; [auto|].
  destruct (is_digit c) eqn:Hc.
  - destruct (span_digits r) as [ds rest]. simpl in *.
    destruct IH as [IH1 [IH2 IH3]]. rewrite Hc, IH2. repeat split; [|exact IH3].
    now rewrite <- IH1.
  - simpl. auto.
Qed.

Lemma span_digits_app (ds rest : string) :
  all_digits ds = true ->
  match rest with String c _ => is_digit c = false | EmptyString => True end ->
  span_digits (ds ++ rest) = (ds, rest).
Proof.
  intros Hd Hrest. induction ds as [|c r IH]; simpl.
  - destruct rest as [|c r]; [reflexivity|]. simpl. now rewrite Hrest.
  - simpl in Hd. apply andb_prop in Hd as [Hc Hr]. rewrite Hc, (IH Hr). reflexivity.
Qed.

Lemma drop_last_app_char (s : string) (c : ascii) :
  drop_last (s ++ String c "") = s.
Proof.
  induction s as [|a r IH]; simpl; [reflexivity|].
  rewrite IH. destruct r; reflexivity.
Qed.

Lemma length_app_char (s : string) (c : ascii) :
  String.length (s ++ String c "") = S (String.length s).
Proof. induction s as [|a r IH]; simpl; [reflexivity | now rewrite IH]. Qed.

(** [get_multiplier] never raises: the slice handed to [int()] is a
    non-empty run of digits. *)
Lemma get_multiplier_total (field : string) :
  exists m, get_multiplier field = Ok m /\ 0 <= m.
Proof.
  unfold get_multiplier, DIE_MULT_REGEXP_match.
  destruct (span_digits_spec field) as [_ [Hd _]].
  destruct (span_digits field) as [ds rest]. simpl in Hd.
  destruct rest as [|c rest]; [exists 1; split; [reflexivity | lia]|].
  destruct (Ascii.eqb c "d"); [|exists 1; split; [reflexivity | lia]].
  rewrite length_app_char, drop_last_app_char.
  destruct ds as [|a r]; [exists 1; split; [reflexivity | lia]|].
  replace (S (String.length (String a r)) =? 1)%nat with false by reflexivity.
  destruct (py_int_digits (String a r) Hd) as [u [_ ->]]; [congruence|].
  exists (Z.of_uint u). split; [reflexivity|].
  unfold Z.of_uint. apply N2Z.is_nonneg.
Qed.

(** ** Termination: enough fuel always exists *)

Lemma ParseTree_fuel_unfold (rnd : nat -> Z) (fuel : nat) (fields : list string)
    (pos : nat) :
  ParseTree_fuel rnd (S fuel) fields pos =
    (root_index <- find_root_node fields ;;
     '(root_node, pos') <-
       parse_node rnd (ParseTree_fuel rnd fuel) fields root_index pos ;;
     Ok (ParseTree root_node (value_of root_node), pos')).
Proof. reflexivity. Qed.

Lemma get_die_type_not_NoFuel (field : string) : get_die_type field <> NoFuel.
Proof.
  unfold get_die_type. destruct (DIE_TYPE_REGEXP_search field);
    [apply py_int_not_NoFuel | discriminate].
Qed.

Lemma ValueNode_init_not_NoFuel (rnd : nat -> Z) (field : string) (pos : nat) :
  ValueNode_init rnd field pos <> NoFuel.
Proof.
  unfold ValueNode_init. destruct (contains "d" field).
  - pose proof (get_die_type_not_NoFuel field) as Hd.
    destruct (get_die_type field) as [m| |]; simpl; try congruence.
    unfold randint. destruct (0 <? m + 1 - 1); simpl; discriminate.
  - pose proof (py_int_not_NoFuel field) as Hi.
    destruct (py_int field); simpl; congruence.
Qed.

Lemma multi_expression_not_NoFuel (field : string) (mult : Z) :
  multi_expression field mult <> NoFuel.
Proof.
  unfold multi_expression, make_single_roll.
  pose proof (get_die_type_not_NoFuel field) as Hd.
  destruct (get_die_type field) as [m| |]; simpl; try congruence.
  destruct (repeat _ _); discriminate.
Qed.

Ltac mono_operands Hext Hrun :=
  match goal with
  | |- context [bind (?rec1 ?fs ?p) _] =>
      let R := fresh "R" in
      destruct (rec1 fs p) as [[? ?]| |] eqn:R;
      [ rewrite (Hext fs p) by (rewrite R; discriminate); rewrite R; simpl in *
      | rewrite (Hext fs p) by (rewrite R; discriminate); rewrite R; reflexivity
      | simpl in Hrun; congruence ]
  end.

Lemma parse_node_mono (rnd : nat -> Z)
    (rec1 rec2 : list string -> nat -> result (Node * nat))
    (fields : list string) (i pos : nat) :
  extends rec1 rec2 ->
  parse_node rnd rec1 fields i pos <> NoFuel ->
  parse_node rnd rec2 fields i pos = parse_node rnd rec1 fields i pos.
Proof.
  intros Hext Hrun. unfold parse_node in *.
  destruct (get_field fields i) as [root_field| |]; simpl in *; try reflexivity.
  destruct (String.eqb root_field "+").
  { destruct (py_assert _ AssertionError_root_first); simpl in *; try reflexivity.
    destruct (py_assert _ AssertionError_root_len); simpl in *; try reflexivity.
    mono_operands Hext Hrun. mono_operands Hext Hrun. reflexivity. }
  destruct (String.eqb root_field "-").
  { destruct (py_assert _ AssertionError_root_first); simpl in *; try reflexivity.
    destruct (py_assert _ AssertionError_root_len); simpl in *; try reflexivity.
    mono_operands Hext Hrun. mono_operands Hext Hrun. reflexivity. }
  destruct (is_multi_die root_field) as [[|]| |]; simpl in *; try reflexivity.
  destruct (get_multiplier root_field) as [m| |]; simpl in *; try reflexivity.
  destruct (multi_expression root_field m) as [expanded| |]; simpl in *;
    try reflexivity.
  now apply Hext.
Qed.

Lemma ParseTree_fuel_S (rnd : nat -> Z) (fuel : nat) :
  extends (ParseTree_fuel rnd fuel) (ParseTree_fuel rnd (S fuel)).
Proof.
  induction fuel as [|fuel IH]; intros fields pos Hrun; [now elim Hrun|].
  rewrite (ParseTree_fuel_unfold rnd (S fuel)).
  rewrite (ParseTree_fuel_unfold rnd fuel) in *.
  destruct (find_root_node fields) as [i| |]; simpl in *; try reflexivity.
  rewrite (parse_node_mono rnd _ _ fields i pos IH); [reflexivity|].
  intros Hno. rewrite Hno in Hrun. now apply Hrun.
Qed.

Lemma ParseTree_fuel_le (rnd : nat -> Z) (fuel fuel' : nat) :
  (fuel <= fuel')%nat -> extends (ParseTree_fuel rnd fuel) (ParseTree_fuel rnd fuel').
Proof.
  induction 1 as [|fuel' Hle IH]; intros fields pos Hrun; [reflexivity|].
  rewrite <- (IH fields pos Hrun). apply ParseTree_fuel_S.
  now rewrite (IH fields pos Hrun).
Qed.

Lemma field_weight_pos (f : string) : (1 <= field_weight f)%nat.
Proof.
  unfold field_weight. destruct (get_multiplier f) as [m| |]; try lia.
  destruct (1 <? m) eqn:Hm; [|lia]. apply Z.ltb_lt in Hm. lia.
Qed.

Lemma fields_weight_app (a b : list string) :
  fields_weight (a ++ b) = (fields_weight a + fields_weight b)%nat.
Proof. unfold fields_weight. now rewrite map_app, list_sum_app. Qed.

Lemma fields_weight_split (fields : list string) (i : nat) (f : string) :
  nth_error fields i = Some f ->
  fields_weight fields =
    (fields_weight (firstn i fields) + field_weight f
     + fields_weight (skipn (i + 1) fields))%nat.
Proof.
  unfold fields_weight.
  revert i. induction fields as [|x rest IH]; intros [|i] H; simpl in *;
    try discriminate.
  - injection H as ->. lia.
  - rewrite (IH i H). lia.
Qed.

Lemma get_multiplier_single (face : string) : get_multiplier ("1d" ++ face) = Ok 1.
Proof. reflexivity. Qed.

Lemma fields_weight_chain (single : string) (k : nat) :
  field_weight single = 1%nat ->
  fields_weight (flat_map (fun f => ["+"; f]) (repeat single k)) = (2 * k)%nat.
Proof.
  intros Hs. induction k as [|k IH]; [reflexivity|].
  simpl repeat. simpl flat_map.
  change ("+" :: single :: ?l) with (["+"; single] ++ l)%list.
  rewrite fields_weight_app, IH. unfold fields_weight at 1. simpl.
  rewrite Hs. change (field_weight "+") with 1%nat. lia.
Qed.

Lemma multi_expression_weight (field : string) (mult : Z) (expanded : list string) :
  multi_expression field mult = Ok expanded ->
  (fields_weight expanded = 2 * Z.to_nat mult - 1)%nat.
Proof.
  unfold multi_expression, make_single_roll.
  destruct (get_die_type field) as [face| |]; cbn [bind]; try discriminate.
  set (single := "1d" ++ str_int face).
  assert (Hs : field_weight single = 1%nat).
  { unfold field_weight, single. now rewrite get_multiplier_single. }
  destruct (Z.to_nat mult) as [|k]; cbn [repeat]; [discriminate|].
  intros [= <-].
  change (single :: ?l) with ([single] ++ l)%list.
  rewrite fields_weight_app, (fields_weight_chain single k Hs).
  unfold fields_weight at 1. cbn [map]. rewrite Hs.
  change (list_sum [1%nat]) with 1%nat. lia.
Qed.

Lemma find_root_node_not_NoFuel (fields : list string) :
  find_root_node fields <> NoFuel.
Proof.
  unfold find_root_node, py_assert.
  destruct (field_in "+" fields); [destruct (index "+" fields); discriminate|].
  destruct (field_in "-" fields);
    [destruct (index "-" (List.rev fields)); discriminate|].
  destruct (List.length fields =? 1)%nat; discriminate.
Qed.

(** The constructor returns (or raises) whenever the depth bound exceeds
    the weight of the fields. *)
Lemma ParseTree_fuel_terminates (rnd : nat -> Z) (fuel : nat) :
  forall fields pos,
    (fields_weight fields < fuel)%nat -> ParseTree_fuel rnd fuel fields pos <> NoFuel.
Proof.
  induction fuel as [|fuel IH]; intros fields pos Hw; [lia|].
  rewrite ParseTree_fuel_unfold.
  pose proof (find_root_node_not_NoFuel fields) as Hroot.
  destruct (find_root_node fields) as [i| |]; simpl; try congruence.
  assert (Hres : parse_node rnd (ParseTree_fuel rnd fuel) fields i pos <> NoFuel).
  { unfold parse_node, get_field.
    destruct (nth_error fields i) as [root_field|] eqn:Hnth; simpl; [|discriminate].
    pose proof (fields_weight_split fields i root_field Hnth) as Hsplit.
    pose proof (field_weight_pos root_field) as Hpos.
    assert (Hops :
      forall op,
        (_ <- py_assert (negb (i =? 0)%nat) AssertionError_root_first ;;
         _ <- py_assert (negb (i =? List.length fields)%nat) AssertionError_root_len ;;
         '(left_, pos1) <- ParseTree_fuel rnd fuel (firstn i fields) pos ;;
         '(right_, pos2) <- ParseTree_fuel rnd fuel (skipn (i + 1) fields) pos1 ;;
         Ok (OpNode_init left_ right_ op, pos2)) <> NoFuel).
    { intros op. unfold py_assert.
      destruct (negb (i =? 0)%nat); simpl; try discriminate.
      destruct (negb (i =? List.length fields)%nat); simpl; try discriminate.
      pose proof (IH (firstn i fields) pos ltac:(lia)) as Hl.
      destruct (ParseTree_fuel rnd fuel (firstn i fields) pos) as [[l p1]| |];
        simpl; try congruence.
      pose proof (IH (skipn (i + 1) fields) p1 ltac:(lia)) as Hr.
      destruct (ParseTree_fuel rnd fuel (skipn (i + 1) fields) p1) as [[r p2]| |];
        simpl; congruence. }
    destruct (String.eqb root_field "+"); [apply Hops|].
    destruct (String.eqb root_field "-"); [apply Hops|].
    unfold is_multi_die.
    destruct (get_multiplier_total root_field) as [m [Hm _]]. rewrite Hm. simpl.
    destruct (1 <? m) eqn:Hmulti; [|apply ValueNode_init_not_NoFuel].
    pose proof (multi_expression_not_NoFuel root_field m) as Hme.
    destruct (multi_expression root_field m) as [expanded| |] eqn:He; simpl;
      try congruence.
    apply IH. rewrite (multi_expression_weight _ _ _ He).
    unfold field_weight in *. rewrite Hm, Hmulti in *.
    apply Z.ltb_lt in Hmulti. lia. }
  destruct (parse_node rnd (ParseTree_fuel rnd fuel) fields i pos) as [[n p]| |];
    simpl; congruence.
Qed.

(** Any depth bound above the weight gives the result of [ParseTree_init]. *)
Lemma ParseTree_fuel_enough (rnd : nat -> Z) (fuel : nat) (fields : list string)
    (pos : nat) :
  (fields_weight fields < fuel)%nat ->
  ParseTree_fuel rnd fuel fields pos = ParseTree_init rnd (PyList fields) pos.
Proof.
  intros Hw. unfold ParseTree_init. cbn [bind].
  apply (ParseTree_fuel_le rnd (S (fields_weight fields)) fuel); [lia|].
  apply ParseTree_fuel_terminates. lia.
Qed.

Lemma ParseTree_init_not_NoFuel (rnd : nat -> Z) (arg : PyArg) (pos : nat) :
  ParseTree_init rnd arg pos <> NoFuel.
Proof.
  unfold ParseTree_init.
  assert (Hsplit : forall s fields curr, parse_fields_loop s fields curr <> NoFuel).
  { induction s as [|c rest IHs]; intros fields curr; simpl.
    - destruct (String.eqb curr ""); discriminate.
    - destruct (Ascii.eqb c "+").
      + unfold py_assert. destruct (_ || _); simpl; try discriminate. apply IHs.
      + destruct (Ascii.eqb c "-"); [|apply IHs].
        unfold py_assert. destruct (_ || _); simpl; try discriminate.
        destruct (String.eqb curr ""); simpl; [|apply IHs].
        destruct (last_field fields) as [l| |] eqn:Hl; simpl; try discriminate.
        * destruct (String.eqb l "-"); apply IHs.
        * unfold last_field in Hl. destruct (List.rev fields); discriminate. }
  destruct arg as [s|l]; cbn [bind].
  - pose proof (Hsplit s [] "") as Hs. unfold parse_fields.
    destruct (parse_fields_loop s [] "") as [fields| |]; cbn [bind];
      try congruence.
    apply ParseTree_fuel_terminates. lia.
  - apply ParseTree_fuel_terminates. lia.
Qed.

(** ** [str()] of a natural number and its reading back *)

Lemma all_digits_string_of_uint (u : uint) :
  all_digits (NilEmpty.string_of_uint u) = true.
Proof. induction u; simpl; auto. Qed.

Lemma str_int_digits (n : Z) :
  0 <= n -> all_digits (str_int n) = true /\ str_int n <> "".
Proof.
  intros Hn. unfold str_int.
  destruct n as [|p|p]; [split; [reflexivity | discriminate] | | lia].
  simpl. unfold NilZero.string_of_uint.
  destruct (Pos.to_uint p) eqn:Hu; try (split; [reflexivity | discriminate]);
    (split; [apply all_digits_string_of_uint | discriminate]).
Qed.

Lemma py_int_str_int (n : Z) : 0 <= n -> py_int (str_int n) = Ok n.
Proof.
  intros Hn. destruct (str_int_digits n Hn) as [Hd Hne].
  destruct (py_int_digits _ Hd Hne) as [u [Hu ->]]. f_equal.
  unfold str_int in Hu. destruct n as [|p|p]; [| |lia].
  - injection Hu as <-. reflexivity.
  - pose proof (DecimalZ.of_to (Z.pos p)) as Hback.
    simpl in *. unfold NilZero.string_of_uint in Hu.
    destruct (Pos.to_uint p) eqn:Hp;
      try (rewrite NilEmpty.usu in Hu; now injection Hu as <-).
    injection Hu as <-. exact Hback.
Qed.

(** ** Single-die fields ["1d{faces}"] *)

Lemma get_die_type_single (faces : Z) :
  0 <= faces -> get_die_type ("1d" ++ str_int faces) = Ok faces.
Proof.
  intros Hf. destruct (str_int_digits faces Hf) as [Hd Hne].
  unfold get_die_type. cbn [append DIE_TYPE_REGEXP_search].
  change (Ascii.eqb "1" "d") with false. change (Ascii.eqb "d" "d") with true.
  cbv beta iota.
  pose proof (span_digits_app (str_int faces) "" Hd I) as Hspan.
  replace (str_int faces ++ "") with (str_int faces) in Hspan
    by (clear; induction (str_int faces); simpl; congruence).
  rewrite Hspan. cbn [fst].
  destruct (str_int faces) as [|c r] eqn:Hs; [congruence|].
  cbn [drop_first]. rewrite <- Hs. now apply py_int_str_int.
Qed.

Lemma die_value_range (rnd : nat -> Z) (faces : Z) (pos : nat) :
  0 < faces -> 1 <= die_value rnd faces pos <= faces.
Proof.
  intros Hf. unfold die_value.
  pose proof (Z.mod_pos_bound (rnd pos) faces Hf). lia.
Qed.

Lemma randint_die (rnd : nat -> Z) (faces : Z) (pos : nat) :
  0 < faces -> randint rnd 1 faces pos = Ok (die_value rnd faces pos, S pos).
Proof.
  intros Hf. unfold randint, die_value. rewrite Z.add_simpl_r.
  apply Z.ltb_lt in Hf. now rewrite Hf.
Qed.

Lemma randint_empty (rnd : nat -> Z) (faces : Z) (pos : nat) :
  faces <= 0 -> randint rnd 1 faces pos = Raise ValueError_randrange.
Proof.
  intros Hf. unfold randint. rewrite Z.add_simpl_r.
  apply Z.ltb_ge in Hf. now rewrite Hf.
Qed.

(** ** One step of the constructor *)


Lemma find_root_node_single (f : string) :
  f <> "+" -> f <> "-" -> find_root_node [f] = Ok 0%nat.
Proof.
  intros Hp Hm. unfold find_root_node, field_in. cbn [existsb].
  apply not_eq_sym, String.eqb_neq in Hp, Hm. now rewrite Hp, Hm.
Qed.

(** A field that is not multi-die becomes a [ValueNode]. *)
Lemma ParseTree_fuel_leaf (rnd : nat -> Z) (fuel : nat) (f : string) (pos : nat)
    (m : Z) :
  f <> "+" -> f <> "-" -> get_multiplier f = Ok m -> m <= 1 ->
  ParseTree_fuel rnd (S fuel) [f] pos =
    ('(n, p) <- ValueNode_init rnd f pos ;; Ok (ParseTree n (value_of n), p)).
Proof.
  intros Hp Hm Hmult Hle. rewrite ParseTree_fuel_unfold.
  rewrite (find_root_node_single f Hp Hm). cbn [bind].
  unfold parse_node, get_field. cbn [nth_error bind].
  apply String.eqb_neq in Hp, Hm. rewrite Hp, Hm.
  unfold is_multi_die. rewrite Hmult. cbn [bind].
  apply Z.ltb_ge in Hle. now rewrite Hle.
Qed.

(** A multi-die field is replaced by its expansion and built again. *)
Lemma ParseTree_fuel_multi (rnd : nat -> Z) (fuel : nat) (f : string) (pos : nat)
    (m : Z) :
  f <> "+" -> f <> "-" -> get_multiplier f = Ok m -> 1 < m ->
  ParseTree_fuel rnd (S fuel) [f] pos =
    (expanded <- multi_expression f m ;;
     '(n, p) <- ParseTree_fuel rnd fuel expanded pos ;;
     Ok (ParseTree n (value_of n), p)).
Proof.
  intros Hp Hm Hmult Hlt. rewrite ParseTree_fuel_unfold.
  rewrite (find_root_node_single f Hp Hm). cbn [bind].
  unfold parse_node, get_field. cbn [nth_error bind].
  apply String.eqb_neq in Hp, Hm. rewrite Hp, Hm.
  unfold is_multi_die. rewrite Hmult. cbn [bind].
  apply Z.ltb_lt in Hlt. rewrite Hlt.
  destruct (multi_expression f m); reflexivity.
Qed.

(** An operator root away from index 0 splits the fields around it; the
    left operand is built first. *)
Lemma ParseTree_fuel_op (rnd : nat -> Z) (fuel : nat) (fields : list string)
    (pos i : nat) (op : Operator) :
  find_root_node fields = Ok i -> nth_error fields i = Some (opstring op) ->
  i <> 0%nat ->
  ParseTree_fuel rnd (S fuel) fields pos =
    ('(l, p1) <- ParseTree_fuel rnd fuel (firstn i fields) pos ;;
     '(r, p2) <- ParseTree_fuel rnd fuel (skipn (i + 1) fields) p1 ;;
     Ok (ParseTree (OpNode_init l r op) (value_of (OpNode_init l r op)), p2)).
Proof.
  intros Hroot Hnth Hi. rewrite ParseTree_fuel_unfold, Hroot. cbn [bind].
  pose proof (find_root_node_lt fields i Hroot) as Hlt.
  unfold parse_node, get_field. rewrite Hnth. cbn [bind].
  replace (i =? 0)%nat with false by (symmetry; apply Nat.eqb_neq; lia).
  replace (i =? List.length fields)%nat with false
    by (symmetry; apply Nat.eqb_neq; lia).
  destruct op; cbn [opstring negb py_assert bind];
    rewrite ?String.eqb_refl;
    change ("-" =? "+")%string with false; cbv beta iota;
    destruct (ParseTree_fuel rnd fuel (firstn i fields) pos) as [[l p1]| |];
    cbn [bind]; try reflexivity;
    destruct (ParseTree_fuel rnd fuel (skipn (i + 1) fields) p1) as [[r p2]| |];
    reflexivity.
Qed.

(** An operator root at index 0 fails the first placement assertion. *)
Lemma ParseTree_fuel_op_first (rnd : nat -> Z) (fuel : nat) (fields : list string)
    (pos : nat) (op : Operator) :
  find_root_node fields = Ok 0%nat -> nth_error fields 0 = Some (opstring op) ->
  ParseTree_fuel rnd (S fuel) fields pos = Raise AssertionError_root_first.
Proof.
  intros Hroot Hnth. rewrite ParseTree_fuel_unfold, Hroot. cbn [bind].
  unfold parse_node, get_field. rewrite Hnth. cbn [bind].
  destruct op; reflexivity.
Qed.

(** ** Building a chain of single dice *)

Lemma ValueNode_init_single (rnd : nat -> Z) (faces : Z) (pos : nat) :
  0 < faces ->
  ValueNode_init rnd ("1d" ++ str_int faces) pos = Ok (die_leaf rnd faces pos, S pos).
Proof.
  intros Hf. unfold ValueNode_init.
  change (contains "d" ("1d" ++ str_int faces)) with true. cbv beta iota.
  rewrite get_die_type_single by lia. cbn [bind].
  rewrite randint_die by assumption. reflexivity.
Qed.

Lemma find_root_node_chain (single : string) (n : nat) :
  single <> "+" -> find_root_node (chain_fields single (S n)) = Ok 1%nat.
Proof.
  intros Hs. unfold find_root_node, chain_fields, field_in.
  cbn [repeat flat_map Datatypes.app existsb index].
  apply String.eqb_neq in Hs. rewrite Hs.
  rewrite String.eqb_sym in Hs. rewrite Hs.
  rewrite !String.eqb_refl. reflexivity.
Qed.

Lemma ParseTree_fuel_chain (rnd : nat -> Z) (faces : Z) (n : nat) :
  0 < faces ->
  forall fuel pos,
    (n < fuel)%nat ->
    ParseTree_fuel rnd fuel (chain_fields ("1d" ++ str_int faces) n) pos =
      Ok (dice_chain rnd faces n pos, (pos + S n)%nat).
Proof.
  intros Hf. set (single := "1d" ++ str_int faces).
  assert (Hsp : single <> "+") by discriminate.
  assert (Hsm : single <> "-") by discriminate.
  induction n as [|n IH]; intros fuel pos Hfuel;
    (destruct fuel as [|fuel]; [lia|]).
  - unfold chain_fields. cbn [repeat flat_map].
    rewrite (ParseTree_fuel_leaf rnd fuel single pos 1 Hsp Hsm); try lia;
      [|apply get_multiplier_single].
    unfold single. rewrite ValueNode_init_single by assumption.
    cbn [bind dice_chain]. do 2 f_equal. lia.
  - rewrite (ParseTree_fuel_op rnd fuel _ pos 1 operator_add);
      [|now apply find_root_node_chain|reflexivity|lia].
    change (firstn 1 (chain_fields single (S n))) with [single].
    change (skipn (1 + 1) (chain_fields single (S n))) with (chain_fields single n).
    destruct fuel as [|fuel]; [lia|].
    rewrite (ParseTree_fuel_leaf rnd fuel single pos 1 Hsp Hsm); try lia;
      [|apply get_multiplier_single].
    unfold single at 1. rewrite ValueNode_init_single by assumption.
    cbn [bind]. rewrite (IH (S fuel) (S pos)) by lia.
    cbn [bind dice_chain]. unfold OpNode_init. cbn [value_of apply_op].
    do 2 f_equal. lia.
Qed.

(** ** The constructor and its big-step relation *)

Lemma find_root_node_cases (fields : list string) (i : nat) :
  find_root_node fields = Ok i ->
  nth_error fields i = Some "+" \/ nth_error fields i = Some "-" \/
  (i = 0%nat /\ exists f, fields = [f] /\ f <> "+" /\ f <> "-").
Proof.
  unfold find_root_node.
  destruct (field_in "+" fields) eqn:Hplus.
  - destruct (index "+" fields) as [k|] eqn:Hk; [|discriminate].
    intros [= <-]. left. now apply index_first in Hk as [Hk _].
  - destruct (field_in "-" fields) eqn:Hminus.
    + destruct (index "-" (List.rev fields)) as [k|] eqn:Hk; [|discriminate].
      intros [= <-]. right. left.
      now apply index_first, rev_first_last in Hk as [Hk _].
    + destruct (List.length fields =? 1)%nat eqn:Hlen; simpl; [|discriminate].
      intros [= <-]. right. right. split; [reflexivity|].
      apply Nat.eqb_eq in Hlen.
      destruct fields as [|f [|g rest]]; try discriminate.
      exists f. split; [reflexivity|].
      apply field_in_false_iff in Hplus, Hminus. simpl in *.
      split; intros ->; tauto.
Qed.

(** Every successful run of the constructor is a derivation of [built]. *)
Lemma ParseTree_fuel_built (rnd : nat -> Z) (fuel : nat) :
  forall fields pos t pos',
    ParseTree_fuel rnd fuel fields pos = Ok (t, pos') -> built rnd fields pos t pos'.
Proof.
  induction fuel as [|fuel IH]; intros fields pos t pos' Hrun; [discriminate|].
  destruct (find_root_node fields) as [i| |] eqn:Hroot;
    try (rewrite ParseTree_fuel_unfold, Hroot in Hrun; discriminate).
  assert (Hop : forall op, nth_error fields i = Some (opstring op) ->
                           built rnd fields pos t pos').
  { intros op Hnth. destruct (Nat.eq_dec i 0) as [->|Hi].
    - rewrite (ParseTree_fuel_op_first rnd fuel fields pos op Hroot Hnth) in Hrun.
      discriminate.
    - rewrite (ParseTree_fuel_op rnd fuel fields pos i op Hroot Hnth Hi) in Hrun.
      apply bind_Ok_inv in Hrun as [[l p1] [Hl Hrun]].
      apply bind_Ok_inv in Hrun as [[r p2] [Hr Hrun]].
      injection Hrun as <- <-.
      eapply built_op; eauto. }
  destruct (find_root_node_cases fields i Hroot) as [Hnth|[Hnth|[-> [f [-> [Hp Hm]]]]]].
  - now apply (Hop operator_add).
  - now apply (Hop operator_sub).
  - destruct (get_multiplier_total f) as [m [Hmult _]].
    destruct (Z.ltb_spec 1 m) as [Hlt|Hle].
    + rewrite (ParseTree_fuel_multi rnd fuel f pos m Hp Hm Hmult Hlt) in Hrun.
      apply bind_Ok_inv in Hrun as [expanded [Hexp Hrun]].
      apply bind_Ok_inv in Hrun as [[n p] [Hn Hrun]].
      injection Hrun as <- <-.
      eapply built_multi; eauto.
    + rewrite (ParseTree_fuel_leaf rnd fuel f pos m Hp Hm Hmult Hle) in Hrun.
      apply bind_Ok_inv in Hrun as [[n p] [Hn Hrun]].
      injection Hrun as <- <-.
      apply built_leaf; auto.
      unfold is_multi_die. rewrite Hmult. cbn [bind].
      apply Z.ltb_ge in Hle. now rewrite Hle.
Qed.

Lemma ValueNode_init_Ok_inv (rnd : nat -> Z) (f : string) (pos : nat) (n : Node)
    (pos' : nat) :
  ValueNode_init rnd f pos = Ok (n, pos') ->
  (contains "d" f = true /\
   exists faces, get_die_type f = Ok faces /\ 0 < faces /\
     n = ValueNode f true (Some faces) (die_value rnd faces pos) /\ pos' = S pos) \/
  (contains "d" f = false /\
   exists v, py_int f = Ok v /\ n = ValueNode f false None v /\ pos' = pos).
Proof.
  unfold ValueNode_init. destruct (contains "d" f) eqn:Hd; intros Hrun.
  - left. split; [reflexivity|].
    apply bind_Ok_inv in Hrun as [faces [Hfaces Hrun]].
    exists faces. split; [exact Hfaces|].
    destruct (Z.ltb_spec 0 faces) as [Hpos|Hneg].
    + rewrite randint_die in Hrun by assumption. cbn [bind] in Hrun.
      injection Hrun as <- <-. auto.
    + rewrite randint_empty in Hrun by assumption. discriminate.
  - right. split; [reflexivity|].
    apply bind_Ok_inv in Hrun as [v [Hv Hrun]].
    injection Hrun as <- <-. exists v. auto.
Qed.

Lemma built_rolled (rnd : nat -> Z) (fields : list string) (pos : nat) (t : Node)
    (pos' : nat) :
  built rnd fields pos t pos' -> rolled rnd t pos pos'.
Proof.
  induction 1 as [f pos n pos' _ _ _ Hinit
                 |f m expanded pos t pos' _ _ _ _ _ _ IH
                 |fields i op pos l pos1 r pos2 _ _ _ _ IHl _ IHr].
  - apply rolled_tree.
    apply ValueNode_init_Ok_inv in Hinit
      as [[_ [faces [_ [Hpos [-> ->]]]]]|[_ [v [Hv [-> ->]]]]].
    + now apply rolled_die.
    + now apply rolled_literal.
  - now apply rolled_tree.
  - apply rolled_tree. unfold OpNode_init. eapply rolled_op; eassumption.
Qed.

Lemma rolled_count_dice (rnd : nat -> Z) (t : Node) (pos pos' : nat) :
  rolled rnd t pos pos' -> pos' = (pos + count_dice t)%nat.
Proof.
  unfold count_dice.
  induction 1 as [f faces pos _|f v pos _|l r op pos pos1 pos2 _ IHl _ IHr
                 |n pos pos' _ IH]; cbn [leaves filter isdie_of List.length].
  - lia.
  - lia.
  - rewrite filter_app, length_app. lia.
  - exact IH.
Qed.

Lemma built_no_multi_leaf (rnd : nat -> Z) (fields : list string) (pos : nat)
    (t : Node) (pos' : nat) :
  built rnd fields pos t pos' ->
  Forall (fun leaf => is_multi_die (field_of leaf) = Ok false) (leaves t).
Proof.
  induction 1 as [f pos n pos' _ _ Hmulti Hinit
                 |f m expanded pos t pos' _ _ _ _ _ _ IH
                 |fields i op pos l pos1 r pos2 _ _ _ _ IHl _ IHr];
    cbn [leaves OpNode_init].
  - apply ValueNode_init_Ok_inv in Hinit
      as [[_ [faces [_ [_ [-> _]]]]]|[_ [v [_ [-> _]]]]];
      cbn [leaves]; constructor; auto.
  - exact IH.
  - apply Forall_app. now split.
Qed.

(** Inversion of a successful evaluation. *)
Lemma evaluate_Ok_inv (rnd : nat -> Z) (line : string) (pos : nat)
    (e : Evaluation) (pos' : nat) :
  evaluate rnd line pos = Ok (e, pos') ->
  exists fields,
    parse_fields line = Ok fields /\
    built rnd fields pos (tree e) pos' /\
    rendered e = Node_str (tree e) /\ total e = value_of (tree e).
Proof.
  unfold evaluate, ParseTree_init. intros Hrun.
  apply bind_Ok_inv in Hrun as [[t p] [Hrun Hres]].
  apply bind_Ok_inv in Hrun as [fields [Hsplit Hrun]].
  injection Hres as <- <-. cbn [tree rendered total].
  exists fields. repeat split; [exact Hsplit|].
  eapply ParseTree_fuel_built, Hrun.
Qed.

Lemma ParseTree_init_list_built (rnd : nat -> Z) (arg : PyArg) (pos : nat)
    (t : Node) (pos' : nat) :
  ParseTree_init rnd arg pos = Ok (t, pos') ->
  exists fields, built rnd fields pos t pos'.
Proof.
  unfold ParseTree_init. intros Hrun.
  apply bind_Ok_inv in Hrun as [fields [_ Hrun]].
  exists fields. eapply ParseTree_fuel_built, Hrun.
Qed.

(** ** String bookkeeping *)

Lemma append_empty_r (s : string) : s ++ "" = s.
Proof. induction s as [|c r IH]; simpl; congruence. Qed.

Lemma append_assoc (a b c : string) : (a ++ b) ++ c = a ++ (b ++ c).
Proof. induction a as [|x r IH]; simpl; congruence. Qed.

Lemma no_operator_app (a b : string) :
  no_operator (a ++ b) = no_operator a && no_operator b.
Proof.
  induction a as [|c r IH]; simpl; [reflexivity|].
  rewrite IH. now rewrite andb_assoc.
Qed.

Lemma no_space_app (a b : string) : no_space (a ++ b) = no_space a && no_space b.
Proof.
  induction a as [|c r IH]; simpl; [reflexivity|].
  rewrite IH. now rewrite andb_assoc.
Qed.

Lemma all_digits_no_operator (ds : string) :
  all_digits ds = true -> no_operator ds = true.
Proof.
  induction ds as [|c r IH]; simpl; [reflexivity|].
  intros H. apply andb_prop in H as [Hc Hr].
  destruct (is_digit_not_operator c Hc) as [-> ->]. now rewrite (IH Hr).
Qed.

(** Characters other than the two operators only extend the buffer. *)
Lemma parse_fields_loop_operand (a rest : string) (fields : list string)
    (curr : string) :
  no_operator a = true ->
  parse_fields_loop (a ++ rest) fields curr =
    parse_fields_loop rest fields (curr ++ a).
Proof.
  revert curr. induction a as [|c r IH]; intros curr Ha; simpl.
  - now rewrite append_empty_r.
  - simpl in Ha. apply andb_prop in Ha as [Hc Hr]. apply andb_prop in Hc as [Hp Hm].
    apply negb_true_iff in Hp, Hm. rewrite Hp, Hm.
    rewrite (IH _ Hr), append_assoc. reflexivity.
Qed.

(** An input without operator characters is a single operand field. *)
Lemma parse_fields_operand (s : string) :
  no_operator s = true -> s <> "" -> parse_fields s = Ok [strip s].
Proof.
  intros Hs Hne. unfold parse_fields.
  rewrite <- (append_empty_r s) at 1.
  rewrite (parse_fields_loop_operand s "" [] "" Hs). simpl.
  apply String.eqb_neq in Hne. now rewrite Hne.
Qed.

(** ** The multi-die input ["{M}d{F}"] *)

Lemma dice_input_field (mult faces : Z) :
  0 <= mult -> 0 <= faces ->
  parse_fields (dice_input mult faces) = Ok [dice_input mult faces].
Proof.
  intros Hm Hf. unfold dice_input.
  destruct (str_int_digits mult Hm) as [Hdm Hnm].
  destruct (str_int_digits faces Hf) as [Hdf _].
  rewrite parse_fields_operand.
  - rewrite strip_no_space; [reflexivity|].
    rewrite no_space_app, (all_digits_no_space _ Hdm). simpl.
    now apply all_digits_no_space.
  - rewrite no_operator_app, (all_digits_no_operator _ Hdm). simpl.
    now apply all_digits_no_operator.
  - destruct (str_int mult); [congruence | discriminate].
Qed.

Lemma get_multiplier_digits_d (ds rest : string) (m : Z) :
  all_digits ds = true -> ds <> "" -> py_int ds = Ok m ->
  get_multiplier (ds ++ String "d" rest) = Ok m.
Proof.
  intros Hd Hne Hint. unfold get_multiplier, DIE_MULT_REGEXP_match.
  rewrite (span_digits_app ds (String "d" rest) Hd eq_refl).
  change (Ascii.eqb "d" "d") with true. cbv beta iota.
  rewrite length_app_char, drop_last_app_char.
  destruct ds as [|c r]; [congruence|]. exact Hint.
Qed.

Lemma search_skip_digits (ds s : string) :
  all_digits ds = true ->
  DIE_TYPE_REGEXP_search (ds ++ s) = DIE_TYPE_REGEXP_search s.
Proof.
  induction ds as [|c r IH]; simpl; [reflexivity|].
  intros H. apply andb_prop in H as [Hc Hr].
  now rewrite (is_digit_not_d c Hc), (IH Hr).
Qed.

Lemma get_die_type_digits_d (ds : string) (faces : Z) :
  all_digits ds = true -> 0 <= faces ->
  get_die_type (ds ++ String "d" (str_int faces)) = Ok faces.
Proof.
  intros Hd Hf. unfold get_die_type. rewrite (search_skip_digits _ _ Hd).
  exact (get_die_type_single faces Hf).
Qed.

Lemma get_multiplier_dice_input (mult faces : Z) :
  0 <= mult -> get_multiplier (dice_input mult faces) = Ok mult.
Proof.
  intros Hm. destruct (str_int_digits mult Hm) as [Hd Hne].
  apply get_multiplier_digits_d; auto. now apply py_int_str_int.
Qed.

Lemma get_die_type_dice_input (mult faces : Z) :
  0 <= mult -> 0 <= faces -> get_die_type (dice_input mult faces) = Ok faces.
Proof.
  intros Hm Hf. destruct (str_int_digits mult Hm) as [Hd _].
  now apply get_die_type_digits_d.
Qed.

(** ** The expansion of a multi-die field *)

Lemma multi_expression_chain (f : string) (mult faces : Z) :
  get_die_type f = Ok faces -> 0 < mult ->
  multi_expression f mult =
    Ok (chain_fields ("1d" ++ str_int faces) (Z.to_nat mult - 1)).
Proof.
  intros Hf Hm. unfold multi_expression, make_single_roll. rewrite Hf. cbn [bind].
  destruct (Z.to_nat mult) as [|k] eqn:Hk; [lia|].
  cbn [repeat]. replace (S k - 1)%nat with k by lia. reflexivity.
Qed.

Lemma multiplier_not_operator (f : string) (m : Z) :
  get_multiplier f = Ok m -> 1 < m -> f <> "+" /\ f <> "-".
Proof.
  intros Hm Hlt. split; intros ->; vm_compute in Hm; injection Hm as <-; lia.
Qed.

(** A multi-die field alone becomes the chain of its single dice. *)
Lemma ParseTree_init_multi_field (rnd : nat -> Z) (f : string) (mult faces : Z)
    (pos : nat) :
  get_multiplier f = Ok mult -> 1 < mult -> get_die_type f = Ok faces -> 0 < faces ->
  ParseTree_init rnd (PyList [f]) pos =
    Ok (ParseTree (dice_chain rnd faces (Z.to_nat mult - 1) pos)
          (value_of (dice_chain rnd faces (Z.to_nat mult - 1) pos)),
        (pos + Z.to_nat mult)%nat).
Proof.
  intros Hm Hlt Hf Hpos. unfold ParseTree_init. cbn [bind].
  destruct (multiplier_not_operator f mult Hm Hlt) as [Hnp Hnm].
  rewrite (ParseTree_fuel_multi rnd _ f pos mult Hnp Hnm Hm Hlt).
  rewrite (multi_expression_chain f mult faces Hf) by lia. cbn [bind].
  rewrite (ParseTree_fuel_chain rnd faces (Z.to_nat mult - 1) Hpos).
  - cbn [bind]. do 2 f_equal. lia.
  - unfold fields_weight, field_weight. cbn [map]. rewrite Hm.
    apply Z.ltb_lt in Hlt as Hb. rewrite Hb.
    change (list_sum [?x]) with (x + 0)%nat. lia.
Qed.

Lemma leaves_dice_chain (rnd : nat -> Z) (faces : Z) (n : nat) (pos : nat) :
  leaves (dice_chain rnd faces n pos) = map (die_leaf rnd faces) (seq pos (S n)).
Proof.
  revert pos. induction n as [|n IH]; intros pos; [reflexivity|].
  cbn [dice_chain leaves]. rewrite IH. reflexivity.
Qed.

Lemma right_nested_dice_chain (rnd : nat -> Z) (faces : Z) (n : nat) (pos : nat) :
  right_nested (dice_chain rnd faces n pos) = true.
Proof.
  revert pos. induction n as [|n IH]; intros pos; [reflexivity|].
  cbn [dice_chain right_nested is_leaf die_leaf]. now rewrite IH.
Qed.

Lemma value_of_dice_chain (rnd : nat -> Z) (faces : Z) (n : nat) (pos : nat) :
  value_of (dice_chain rnd faces n pos) = sum_Z (draws rnd faces (S n) pos).
Proof.
  revert pos. induction n as [|n IH]; intros pos.
  - unfold draws, sum_Z. simpl. lia.
  - cbn [dice_chain value_of]. rewrite IH. reflexivity.
Qed.

Lemma Node_str_die_leaf (rnd : nat -> Z) (faces : Z) (pos : nat) :
  Node_str (die_leaf rnd faces pos) = die_str faces (die_value rnd faces pos).
Proof.
  unfold die_leaf, die_str. cbn [Node_str eq_max str_opt andb].
  destruct (die_value rnd faces pos =? faces); reflexivity.
Qed.

Lemma Node_str_dice_chain (rnd : nat -> Z) (faces : Z) (n : nat) (pos : nat) :
  Node_str (dice_chain rnd faces n pos) =
    join_plus (map (die_str faces) (draws rnd faces (S n) pos)).
Proof.
  revert pos. induction n as [|n IH]; intros pos.
  - cbn [dice_chain]. change (Node_str (ParseTree ?n _)) with (Node_str n).
    now rewrite Node_str_die_leaf.
  - cbn [dice_chain].
    change (Node_str (ParseTree (OpNode ?l ?r operator_add _) _))
      with (Node_str l ++ " " ++ "+" ++ " " ++ Node_str r).
    change (Node_str (ParseTree ?n _)) with (Node_str n) at 1.
    rewrite Node_str_die_leaf, IH. reflexivity.
Qed.

Lemma draws_length (rnd : nat -> Z) (faces : Z) (n pos : nat) :
  List.length (draws rnd faces n pos) = n.
Proof. unfold draws. now rewrite length_map, length_seq. Qed.

Lemma draws_range (rnd : nat -> Z) (faces : Z) (n pos : nat) :
  0 < faces -> Forall (fun v => 1 <= v <= faces) (draws rnd faces n pos).
Proof.
  intros Hf. unfold draws. apply Forall_map, Forall_forall.
  intros p _. now apply die_value_range.
Qed.

Lemma sum_Z_bounds (lo hi : Z) (l : list Z) :
  Forall (fun v => lo <= v <= hi) l ->
  Z.of_nat (List.length l) * lo <= sum_Z l <= Z.of_nat (List.length l) * hi.
Proof.
  unfold sum_Z. induction 1 as [|v l Hv _ IH]; [simpl; lia|].
  cbn [fold_right List.length]. lia.
Qed.

(** * The claims about dice *)

(** C4, as the code has it: no leaf of a constructed tree is a multi-die
    term, and a multi-die field with multiplier [mult] and [faces] faces is
    rewritten before any roll into [mult] single-die fields ["1d{faces}"]
    (multiplier 1) joined by ["+"], which the first-["+"] root rule builds
    into a right-nested chain: one die leaf on the left of every operation,
    the rest of the chain on its right, rolled left to right. *)
Theorem multi_die_expands_to_right_nested_chain (rnd : nat -> Z) :
  (forall arg pos t pos',
     ParseTree_init rnd arg pos = Ok (t, pos') ->
     Forall (fun leaf => is_multi_die (field_of leaf) = Ok false) (leaves t)) /\
  (forall f mult faces pos,
     get_multiplier f = Ok mult -> 1 < mult ->
     get_die_type f = Ok faces -> 0 < faces ->
     exists chain,
       ParseTree_init rnd (PyList [f]) pos =
         Ok (ParseTree chain (value_of chain), (pos + Z.to_nat mult)%nat) /\
       right_nested chain = true /\
       leaves chain = map (die_leaf rnd faces) (seq pos (Z.to_nat mult)) /\
       get_multiplier ("1d" ++ str_int faces) = Ok 1).
Proof.
  split.
  - intros arg pos t pos' Hrun.
    apply ParseTree_init_list_built in Hrun as [fields Hbuilt].
    eapply built_no_multi_leaf, Hbuilt.
  - intros f mult faces pos Hm Hlt Hf Hpos.
    exists (dice_chain rnd faces (Z.to_nat mult - 1) pos).
    split; [now apply ParseTree_init_multi_field|].
    split; [apply right_nested_dice_chain|].
    split; [|reflexivity].
    rewrite leaves_dice_chain. do 2 f_equal. lia.
Qed.

Lemma multi_die_expands_to_right_nested_chain_witness :
  Forall (fun leaf => is_multi_die (field_of leaf) = Ok false)
    (leaves (ParseTree
               (OpNode (ParseTree (ValueNode "0d6" true (Some 6) 1) 1)
                       (ParseTree (ValueNode "2" false None 2) 2)
                       operator_add 3) 3)) /\
  exists chain,
    ParseTree_init tape_count (PyList ["3d6"]) 0 =
      Ok (ParseTree chain (value_of chain), 3%nat) /\
    right_nested chain = true /\
    leaves chain = map (die_leaf tape_count 6) (seq 0 3) /\
    get_multiplier "1d6" = Ok 1.
Proof.
  split.
  - apply (proj1 (multi_die_expands_to_right_nested_chain tape_count)
             (PyStr "0d6+2") 0%nat _ 1%nat).
    reflexivity.
  - apply (proj2 (multi_die_expands_to_right_nested_chain tape_count)
             "3d6" 3 6 0%nat);
      first [reflexivity | lia].
Defined.

(** C4 as stated fails: the chain built for ["3d6"] is not left-nested, the
    right operand of its root is itself an operation; and next to an
    expanded term a die leaf can carry a multiplier other than 1, as the
    leaf ["0d6"] of ["2d6+0d6"] does. *)
Lemma multi_die_chain_not_left_nested :
  (exists e,
     evaluate tape_count "3d6" 0 = Ok (e, 3%nat) /\
     left_nested (tree e) = false /\
     right_nested (tree e) = true) /\
  (exists e leaf,
     evaluate tape_count "2d6+0d6" 0 = Ok (e, 3%nat) /\
     In leaf (leaves (tree e)) /\
     isdie_of leaf = true /\
     get_multiplier (field_of leaf) = Ok 0).
Proof.
  split.
  - eexists. repeat split; vm_compute; reflexivity.
  - eexists. exists (ValueNode "0d6" true (Some 6) 3).
    split; [vm_compute; reflexivity|].
    split; [cbn; tauto|]. split; reflexivity.
Qed.

(** C5: the input ["{M}d{F}"] with [M >= 2] and [F >= 1] evaluates to [M]
    die sub-terms joined by ["+"], one per draw, and a total, their sum,
    between [M * 1] and [M * F]. *)
Theorem multi_die_roll (rnd : nat -> Z) (mult faces : Z) (pos : nat) :
  2 <= mult -> 1 <= faces ->
  exists e,
    evaluate rnd (dice_input mult faces) pos = Ok (e, (pos + Z.to_nat mult)%nat) /\
    Z.of_nat (List.length (draws rnd faces (Z.to_nat mult) pos)) = mult /\
    Forall (fun v => 1 <= v <= faces) (draws rnd faces (Z.to_nat mult) pos) /\
    rendered e = join_plus (map (die_str faces) (draws rnd faces (Z.to_nat mult) pos)) /\
    total e = sum_Z (draws rnd faces (Z.to_nat mult) pos) /\
    mult * 1 <= total e <= mult * faces.
Proof.
  intros Hm Hf.
  pose proof (draws_range rnd faces (Z.to_nat mult) pos ltac:(lia)) as Hrange.
  pose proof (sum_Z_bounds 1 faces _ Hrange) as Hsum.
  rewrite draws_length in Hsum.
  assert (Hn : S (Z.to_nat mult - 1) = Z.to_nat mult) by lia.
  eexists. split.
  - unfold evaluate, ParseTree_init.
    rewrite dice_input_field by lia. cbn [bind].
    change (ParseTree_fuel rnd (S (fields_weight [dice_input mult faces]))
              [dice_input mult faces] pos)
      with (ParseTree_init rnd (PyList [dice_input mult faces]) pos).
    rewrite (ParseTree_init_multi_field rnd _ mult faces pos);
      [|apply get_multiplier_dice_input|lia|apply get_die_type_dice_input|lia];
      try lia.
    cbn [bind]. reflexivity.
  - cbn [rendered total value_of Node_str].
    rewrite Node_str_dice_chain, value_of_dice_chain, Hn, draws_length.
    repeat split; try assumption; lia.
Qed.

Lemma multi_die_roll_witness :
  exists e,
    evaluate tape_count (dice_input 3 6) 4 = Ok (e, (4 + Z.to_nat 3)%nat) /\
    Z.of_nat (List.length (draws tape_count 6 (Z.to_nat 3) 4)) = 3 /\
    Forall (fun v => 1 <= v <= 6) (draws tape_count 6 (Z.to_nat 3) 4) /\
    rendered e = join_plus (map (die_str 6) (draws tape_count 6 (Z.to_nat 3) 4)) /\
    total e = sum_Z (draws tape_count 6 (Z.to_nat 3) 4) /\
    3 * 1 <= total e <= 3 * 6.
Proof. apply (multi_die_roll tape_count 3 6 4); lia. Defined.

(** C7: the input ["1d{F}"] with [F >= 1] rolls once; the total lies in
    [[1, F]]; it is rendered as ["{total}(d{F})"] below the maximum and as
    ["!*{total}*!(d{F})"] at the maximum; a roll of 1 on a die with more
    than one face has no form of its own. *)
Theorem single_die_roll (rnd : nat -> Z) (faces : Z) (pos : nat) :
  1 <= faces ->
  exists e,
    evaluate rnd (dice_input 1 faces) pos = Ok (e, S pos) /\
    total e = die_value rnd faces pos /\
    1 <= total e <= faces /\
    (total e < faces ->
       rendered e = str_int (total e) ++ "(d" ++ str_int faces ++ ")") /\
    (total e = faces ->
       rendered e = "!*" ++ str_int (total e) ++ "*!(d" ++ str_int faces ++ ")") /\
    (total e = 1 -> 1 < faces -> rendered e = "1(d" ++ str_int faces ++ ")").
Proof.
  intros Hf. eexists. split.
  - unfold evaluate, ParseTree_init.
    rewrite dice_input_field by lia. cbn [bind].
    rewrite (ParseTree_fuel_leaf rnd _ (dice_input 1 faces) pos 1);
      [|discriminate|discriminate|apply get_multiplier_single|lia].
    change (dice_input 1 faces) with ("1d" ++ str_int faces).
    rewrite ValueNode_init_single by lia. cbn [bind]. reflexivity.
  - cbn [rendered total value_of Node_str].
    change (value_of (die_leaf rnd faces pos)) with (die_value rnd faces pos).
    change (Node_str (ParseTree ?n _)) with (Node_str n).
    rewrite Node_str_die_leaf. unfold die_str.
    pose proof (die_value_range rnd faces pos ltac:(lia)) as Hrange.
    repeat split; try lia.
    + intros Hlt. apply Z.lt_neq, Z.eqb_neq in Hlt. now rewrite Hlt.
    + intros Heq. apply Z.eqb_eq in Heq. now rewrite Heq.
    + intros Hone Hlt. rewrite Hone.
      replace (1 =? faces) with false by (symmetry; apply Z.eqb_neq; lia).
      reflexivity.
Qed.

Lemma single_die_roll_witness :
  exists e,
    evaluate tape_count (dice_input 1 6) 5 = Ok (e, 6%nat) /\
    total e = die_value tape_count 6 5 /\
    1 <= total e <= 6 /\
    (total e < 6 -> rendered e = str_int (total e) ++ "(d" ++ str_int 6 ++ ")") /\
    (total e = 6 ->
       rendered e = "!*" ++ str_int (total e) ++ "*!(d" ++ str_int 6 ++ ")") /\
    (total e = 1 -> 1 < 6 -> rendered e = "1(d" ++ str_int 6 ++ ")").
Proof. apply (single_die_roll tape_count 6 5). lia. Defined.

(** * The claims about malformed and signed input *)

(** A ["-"] typed directly after a ["-"] leaves no trace in the fields. *)
Lemma double_minus_is_single_minus (a b : string) :
  no_operator a = true -> a <> "" ->
  parse_fields (a ++ "--" ++ b) = parse_fields (a ++ "-" ++ b).
Proof.
  intros Ha Hne. unfold parse_fields.
  rewrite (parse_fields_loop_operand a ("--" ++ b) [] "" Ha).
  rewrite (parse_fields_loop_operand a ("-" ++ b) [] "" Ha).
  cbn [append parse_fields_loop]. change (Ascii.eqb "-" "+") with false.
  change (Ascii.eqb "-" "-") with true. cbv beta iota.
  apply String.eqb_neq in Hne. rewrite Hne.
  reflexivity.
Qed.

(** The root rule at work on ["1-2+3"]: the first ["+"] is the root, so the
    subtraction is done first. *)
Example one_minus_two_plus_three (rnd : nat -> Z) (pos : nat) :
  exists t, evaluate rnd "1-2+3" pos = Ok (mkEvaluation t "1 - 2 + 3" 2, pos).
Proof. eexists. reflexivity. Qed.

(** C3, the code at ["5--3"]: the second ["-"] is dropped by the splitter
    together with its sign, so the operand is the literal 3, not -3, and the
    total is [5 - 3 = 2]; no field ["-3"] exists and no 8 is produced. *)
Theorem double_minus_drops_the_sign (rnd : nat -> Z) (pos : nat) :
  parse_fields "5--3" = Ok ["5"; "-"; "3"] /\
  evaluate rnd "5--3" pos =
    Ok ({| tree :=
             ParseTree
               (OpNode (ParseTree (ValueNode "5" false None 5) 5)
                       (ParseTree (ValueNode "3" false None 3) 3)
                       operator_sub 2) 2;
           rendered := "5 - 3";
           total := 2 |}, pos) /\
  py_int "-3" = Ok (-3) /\
  apply_op operator_sub 5 (-3) = 8.
Proof. repeat split. Qed.

(** C6, the code at the three inputs: ["+5"] fails the assertion of the
    splitter, ["d"] raises the exception of [get_die_type], and ["3+"] fails
    the assertion of the root locator (not a placement assertion). *)
Theorem malformed_inputs_fail (rnd : nat -> Z) (pos : nat) :
  evaluate rnd "+5" pos = Raise AssertionError_split /\
  evaluate rnd "d" pos = Raise Exception_not_a_die /\
  evaluate rnd "3+" pos = Raise AssertionError_no_op.
Proof. repeat split. Qed.

(** ** Which exception is raised where *)

Lemma bind_Raise_inv {A B : Type} (r : result A) (k : A -> result B) (e : PyExn) :
  bind r k = Raise e -> r = Raise e \/ exists a, r = Ok a /\ k a = Raise e.
Proof.
  destruct r as [a| |]; simpl; intros H; try discriminate.
  - right. now exists a.
  - left. now injection H as <-.
Qed.

Lemma py_int_Raise (s : string) (e : PyExn) :
  py_int s = Raise e -> e = ValueError_int.
Proof.
  unfold py_int.
  match goal with |- (let '(_, _) := ?x in _) = _ -> _ => destruct x as [neg body] end.
  destruct (int_body body false) as [ds|]; [|now intros [= <-]].
  destruct (NilZero.uint_of_string ds); [discriminate | now intros [= <-]].
Qed.

Lemma DIE_TYPE_REGEXP_search_spec (s ms : string) :
  DIE_TYPE_REGEXP_search s = Some ms ->
  exists ds, ms = String "d" ds /\ all_digits ds = true /\ ds <> "".
Proof.
  induction s as [|c r IH]; simpl; [discriminate|].
  destruct (Ascii.eqb_spec c "d") as [->|Hc]; [|exact IH].
  destruct (span_digits_spec r) as [_ [Hd _]].
  destruct (fst (span_digits r)) as [|a ds] eqn:Hspan; [exact IH|].
  intros [= <-]. exists (String a ds). repeat split; [exact Hd | discriminate].
Qed.

(** [get_die_type] raises nothing but its own exception, and a face count
    it returns is not negative. *)
Lemma get_die_type_cases (f : string) :
  get_die_type f = Raise Exception_not_a_die \/
  exists faces, get_die_type f = Ok faces /\ 0 <= faces.
Proof.
  unfold get_die_type.
  destruct (DIE_TYPE_REGEXP_search f) as [ms|] eqn:Hs; [|now left].
  apply DIE_TYPE_REGEXP_search_spec in Hs as [ds [-> [Hd Hne]]].
  destruct (py_int_digits ds Hd Hne) as [u [_ Hint]].
  right. exists (Z.of_uint u). split; [exact Hint|].
  unfold Z.of_uint. apply N2Z.is_nonneg.
Qed.

Lemma get_die_type_Raise (f : string) (e : PyExn) :
  get_die_type f = Raise e -> e = Exception_not_a_die.
Proof.
  destruct (get_die_type_cases f) as [H|[faces [H _]]]; rewrite H;
    [now intros [= <-] | discriminate].
Qed.

Lemma ValueNode_init_Raise (rnd : nat -> Z) (f : string) (pos : nat) (e : PyExn) :
  ValueNode_init rnd f pos = Raise e ->
  (contains "d" f = true /\ (e = Exception_not_a_die \/ e = ValueError_randrange)) \/
  (contains "d" f = false /\ e = ValueError_int).
Proof.
  unfold ValueNode_init. destruct (contains "d" f); intros Hrun.
  - left. split; [reflexivity|].
    apply bind_Raise_inv in Hrun as [Hrun|[faces [_ Hrun]]].
    + left. now apply get_die_type_Raise in Hrun.
    + right. unfold randint in Hrun.
      destruct (0 <? faces + 1 - 1); simpl in Hrun; [discriminate|].
      now injection Hrun as <-.
  - right. split; [reflexivity|].
    apply bind_Raise_inv in Hrun as [Hrun|[v [_ Hrun]]]; [|discriminate].
    now apply py_int_Raise in Hrun.
Qed.

Lemma multi_expression_Raise (f : string) (m : Z) (e : PyExn) :
  1 < m -> multi_expression f m = Raise e -> e = Exception_not_a_die.
Proof.
  intros Hm. destruct (get_die_type_cases f) as [H|[faces [H _]]].
  - unfold multi_expression, make_single_roll. rewrite H. now intros [= <-].
  - rewrite (multi_expression_chain f m faces H) by lia. discriminate.
Qed.

Lemma find_root_node_Raise (fields : list string) (e : PyExn) :
  find_root_node fields = Raise e -> e = AssertionError_no_op.
Proof.
  unfold find_root_node.
  destruct (field_in "+" fields) eqn:Hplus.
  - apply field_in_iff, index_In in Hplus as [i ->]. discriminate.
  - destruct (field_in "-" fields) eqn:Hminus.
    + apply field_in_iff, in_rev, index_In in Hminus as [i ->]. discriminate.
    + destruct (List.length fields =? 1)%nat; simpl; [discriminate|].
      now intros [= <-].
Qed.

(** One step of a constructor call that raises. *)
Lemma ParseTree_fuel_Raise_inv (rnd : nat -> Z) (fuel : nat) (fields : list string)
    (pos : nat) (e : PyExn) :
  ParseTree_fuel rnd (S fuel) fields pos = Raise e ->
  e = AssertionError_no_op \/ e = AssertionError_root_first \/
  (exists i,
     find_root_node fields = Ok i /\ i <> 0%nat /\
     (nth_error fields i = Some "+" \/ nth_error fields i = Some "-") /\
     (ParseTree_fuel rnd fuel (firstn i fields) pos = Raise e \/
      exists l p1,
        ParseTree_fuel rnd fuel (firstn i fields) pos = Ok (l, p1) /\
        ParseTree_fuel rnd fuel (skipn (i + 1) fields) p1 = Raise e)) \/
  (exists f m,
     fields = [f] /\ f <> "+" /\ f <> "-" /\ get_multiplier f = Ok m /\
     ((1 < m /\ e = Exception_not_a_die) \/
      (1 < m /\ exists expanded,
         multi_expression f m = Ok expanded /\
         ParseTree_fuel rnd fuel expanded pos = Raise e) \/
      (m <= 1 /\ ValueNode_init rnd f pos = Raise e))).
Proof.
  intros Hrun.
  destruct (find_root_node fields) as [i| |] eqn:Hroot.
  - assert (Hop : forall op, nth_error fields i = Some (opstring op) ->
        e = AssertionError_root_first \/
        (i <> 0%nat /\
         (ParseTree_fuel rnd fuel (firstn i fields) pos = Raise e \/
          exists l p1,
            ParseTree_fuel rnd fuel (firstn i fields) pos = Ok (l, p1) /\
            ParseTree_fuel rnd fuel (skipn (i + 1) fields) p1 = Raise e))).
    { intros op Hnth. destruct (Nat.eq_dec i 0) as [->|Hi].
      - rewrite (ParseTree_fuel_op_first rnd fuel fields pos op Hroot Hnth) in Hrun.
        left. now injection Hrun as <-.
      - rewrite (ParseTree_fuel_op rnd fuel fields pos i op Hroot Hnth Hi) in Hrun.
        right. split; [exact Hi|].
        apply bind_Raise_inv in Hrun as [Hl|[[l p1] [Hl Hrun]]]; [now left|].
        right. exists l, p1. split; [exact Hl|].
        apply bind_Raise_inv in Hrun as [Hr|[[r p2] [_ Hrun]]];
          [exact Hr | discriminate]. }
    destruct (find_root_node_cases fields i Hroot)
      as [Hnth|[Hnth|[-> [f [-> [Hp Hm]]]]]].
    + destruct (Hop operator_add Hnth) as [->|[Hi Hsub]]; [tauto|].
      right. right. left. exists i. tauto.
    + destruct (Hop operator_sub Hnth) as [->|[Hi Hsub]]; [tauto|].
      right. right. left. exists i. tauto.
    + right. right. right.
      destruct (get_multiplier_total f) as [m [Hmult _]].
      exists f, m. repeat split; auto.
      destruct (Z.ltb_spec 1 m) as [Hlt|Hle].
      * rewrite (ParseTree_fuel_multi rnd fuel f pos m Hp Hm Hmult Hlt) in Hrun.
        apply bind_Raise_inv in Hrun as [Hexp|[expanded [Hexp Hrun]]].
        -- left. split; [exact Hlt|].
           now apply (multi_expression_Raise f m e Hlt).
        -- right. left. split; [exact Hlt|]. exists expanded. split; [exact Hexp|].
           apply bind_Raise_inv in Hrun as [Hsub|[[n p] [_ Hrun]]];
             [exact Hsub | discriminate].
      * rewrite (ParseTree_fuel_leaf rnd fuel f pos m Hp Hm Hmult Hle) in Hrun.
        right. right. split; [exact Hle|].
        apply bind_Raise_inv in Hrun as [Hsub|[[n p] [_ Hrun]]];
          [exact Hsub | discriminate].
  - rewrite ParseTree_fuel_unfold, Hroot in Hrun. cbn [bind] in Hrun.
    injection Hrun as <-. left. now apply find_root_node_Raise in Hroot.
  - now apply find_root_node_not_NoFuel in Hroot.
Qed.

(** The constructor raises only the exceptions of [constructor_exn]: the
    assertion [root_index != len(fields)] never fails and no index is ever
    out of range. *)
Lemma ParseTree_fuel_Raise_cases (rnd : nat -> Z) (fuel : nat) :
  forall fields pos e,
    ParseTree_fuel rnd fuel fields pos = Raise e -> constructor_exn e.
Proof.
  unfold constructor_exn.
  induction fuel as [|fuel IH]; intros fields pos e Hrun; [discriminate|].
  apply ParseTree_fuel_Raise_inv in Hrun
    as [->|[->|[[i [_ [_ [_ [Hl|[l [p1 [_ Hr]]]]]]]]
               |[f [m [-> [_ [_ [_ [[_ ->]|[[_ [ex [_ Hsub]]]|[_ Hleaf]]]]]]]]]]]];
    try tauto; try (eapply IH; eassumption).
  apply ValueNode_init_Raise in Hleaf as [[_ [->| ->]]|[_ ->]]; tauto.
Qed.

Lemma parse_fields_loop_Raise (s : string) :
  forall fields curr e,
    parse_fields_loop s fields curr = Raise e -> e = AssertionError_split.
Proof.
  induction s as [|c rest IH]; intros fields curr e; simpl.
  - destruct (String.eqb curr ""); discriminate.
  - destruct (Ascii.eqb c "+").
    + unfold py_assert. destruct (_ || _); simpl; [apply IH | now intros [= <-]].
    + destruct (Ascii.eqb c "-"); [|apply IH].
      unfold py_assert.
      destruct ((0 <? List.length fields)%nat || negb (String.eqb curr "")) eqn:Ha;
        simpl; [|now intros [= <-]].
      destruct (String.eqb curr ""); simpl; [|apply IH].
      unfold last_field.
      destruct (List.rev fields) as [|l rl] eqn:Hrev; simpl.
      * apply (f_equal (@List.length string)) in Hrev.
        rewrite length_rev in Hrev. simpl in Ha. rewrite Hrev in Ha. discriminate.
      * destruct (String.eqb l "-"); apply IH.
Qed.

Lemma split_middle (fields : list string) (i : nat) (x : string) :
  nth_error fields i = Some x ->
  fields = (firstn i fields ++ x :: skipn (i + 1) fields)%list.
Proof.
  intros H. rewrite Nat.add_1_r. symmetry. now apply firstn_skipn_middle.
Qed.

(** C2, the code at the fields of ["3+"]: the root is the trailing ["+"],
    at the last index; the second placement assertion compares the index
    with the length, never fails on any input, and lets the trailing
    operator pass; the left operand is built; the failure comes from the
    root locator on the empty right slice.  With a left operand that is no
    integer the failure is that of [int()] instead.  A leading operator does
    fail the first placement assertion. *)
Theorem trailing_operator_passes_placement_assertion (rnd : nat -> Z) (pos : nat) :
  parse_fields "3+" = Ok ["3"; "+"] /\
  find_root_node ["3"; "+"] = Ok (List.length ["3"; "+"] - 1)%nat /\
  ParseTree_init rnd (PyList ["3"; "+"]) pos = Raise AssertionError_no_op /\
  ParseTree_init rnd (PyList ["x"; "+"]) pos = Raise ValueError_int /\
  ParseTree_init rnd (PyList ["+"; "3"]) pos = Raise AssertionError_root_first /\
  (forall arg, ParseTree_init rnd arg pos <> Raise AssertionError_root_len).
Proof.
  repeat split. intros arg Hrun. unfold ParseTree_init in Hrun.
  apply bind_Raise_inv in Hrun as [Hsplit|[fields [_ Hrun]]].
  - destruct arg as [s|l]; [|discriminate].
    apply parse_fields_loop_Raise in Hsplit. discriminate.
  - apply ParseTree_fuel_Raise_cases in Hrun. unfold constructor_exn in Hrun.
    intuition discriminate.
Qed.

(** ** Empty operands *)

Lemma built_no_empty_field (rnd : nat -> Z) (fields : list string) (pos : nat)
    (t : Node) (pos' : nat) :
  built rnd fields pos t pos' -> ~ In "" fields.
Proof.
  induction 1 as [f pos n pos' _ _ _ Hinit
                 |f m expanded pos t pos' _ _ Hmult Hlt _ _ _
                 |fields i op pos l pos1 r pos2 _ Hnth _ _ IHl _ IHr].
  - intros [->|[]]. discriminate.
  - intros [->|[]]. vm_compute in Hmult. injection Hmult as <-. lia.
  - intros Hin. rewrite (split_middle fields i _ Hnth) in Hin.
    apply in_app_or in Hin as [Hin|[Heq|Hin]]; [tauto| |tauto].
    destruct op; discriminate.
Qed.

(** After a first field, the splitter never fails and only appends. *)
Lemma parse_fields_loop_extends (s : string) :
  forall fields curr,
    fields <> [] ->
    exists more, parse_fields_loop s fields curr = Ok (fields ++ more)%list.
Proof.
  assert (Hlen : forall (l : list string), l <> [] -> (0 <? List.length l)%nat = true)
    by (intros [|x l] H; [congruence | reflexivity]).
  assert (Happ : forall (l : list string) x, append_field l x <> [])
    by (intros [|y l] x; discriminate).
  induction s as [|c rest IH]; intros fields curr Hne; simpl.
  - destruct (String.eqb curr ""); [exists []; now rewrite app_nil_r|].
    now exists [strip curr].
  - destruct (Ascii.eqb c "+"); [|destruct (Ascii.eqb c "-")].
    + rewrite (Hlen fields Hne). cbn [orb py_assert bind].
      destruct (IH (append_field (append_field fields (strip curr)) "+") ""
                  (Happ _ _)) as [more ->].
      exists ([strip curr; "+"] ++ more)%list.
      unfold append_field. now rewrite <- !app_assoc.
    + rewrite (Hlen fields Hne). cbn [orb py_assert bind].
      assert (Hsign : exists b,
                (if String.eqb curr ""
                 then (l <- last_field fields ;; Ok (String.eqb l "-"))
                 else Ok false) = Ok b).
      { destruct (String.eqb curr ""); [|now exists false].
        unfold last_field. destruct (List.rev fields) as [|l rl] eqn:Hrev.
        - apply (f_equal (@List.rev string)) in Hrev.
          rewrite rev_involutive in Hrev. simpl in Hrev. congruence.
        - now eexists. }
      destruct Hsign as [b ->]. cbn [bind]. destruct b; [now apply IH|].
      destruct (IH (append_field (append_field fields (strip curr)) "-") ""
                  (Happ _ _)) as [more ->].
      exists ([strip curr; "-"] ++ more)%list.
      unfold append_field. now rewrite <- !app_assoc.
    + now apply IH.
Qed.

(** C10: two ["+"] in a row are accepted by the splitter, which puts an
    empty operand field between them; no list with an empty operand builds
    a tree, and for ["3++4"] the failure is that of [int()] on the empty
    field. *)
Theorem consecutive_plus_fails_at_int (rnd : nat -> Z) :
  parse_fields "3++4" = Ok ["3"; "+"; ""; "+"; "4"] /\
  (forall pos, evaluate rnd "3++4" pos = Raise ValueError_int) /\
  (forall a b,
     no_operator a = true -> a <> "" ->
     exists fields, parse_fields (a ++ "++" ++ b) = Ok fields /\ In "" fields) /\
  (forall line fields pos,
     parse_fields line = Ok fields -> In "" fields ->
     is_ok (evaluate rnd line pos) = false).
Proof.
  split; [reflexivity|]. split; [reflexivity|]. split.
  - intros a b Ha Hne. unfold parse_fields.
    rewrite (parse_fields_loop_operand a ("++" ++ b) [] "" Ha).
    cbn [append parse_fields_loop]. change (Ascii.eqb "+" "+") with true.
    cbv beta iota. apply String.eqb_neq in Hne. rewrite Hne.
    cbn [List.length Nat.ltb Nat.leb orb negb py_assert bind append_field
         Datatypes.app String.eqb].
    destruct (parse_fields_loop_extends b [strip a; "+"; strip ""; "+"] "")
      as [more Hmore]; [discriminate|].
    exists ([strip a; "+"; strip ""; "+"] ++ more)%list. split; [exact Hmore|].
    apply in_or_app. left. simpl. tauto.
  - intros line fields pos Hsplit Hin.
    destruct (evaluate rnd line pos) as [[e p]| |] eqn:Hrun; try reflexivity.
    apply evaluate_Ok_inv in Hrun as [fields' [Hsplit' [Hbuilt _]]].
    rewrite Hsplit in Hsplit'. injection Hsplit' as <-.
    now apply built_no_empty_field in Hbuilt.
Qed.

Lemma consecutive_plus_fails_at_int_witness :
  (exists fields, parse_fields ("2d6" ++ "++" ++ "1") = Ok fields /\ In "" fields) /\
  is_ok (evaluate tape_count "2d6++1" 0) = false.
Proof.
  split.
  - apply (proj1 (proj2 (proj2 (consecutive_plus_fails_at_int tape_count)))).
    + reflexivity.
    + discriminate.
  - apply (proj2 (proj2 (proj2 (consecutive_plus_fails_at_int tape_count)))
             "2d6++1" ["2d6"; "+"; ""; "+"; "1"] 0%nat).
    + reflexivity.
    + simpl. tauto.
Defined.

(** * Leaf classification *)

Lemma contains_app (c : ascii) (a b : string) :
  contains c (a ++ b) = contains c a || contains c b.
Proof.
  induction a as [|x r IH]; simpl; [reflexivity|].
  rewrite IH. now rewrite orb_assoc.
Qed.







(** * Further properties of the splitter *)

Lemma lstrip_no_operator (s : string) :
  no_operator s = true -> no_operator (lstrip s) = true.
Proof.
  induction s as [|c r IH]; simpl; [reflexivity|].
  intros H. destruct (isspace c); [|exact H].
  apply andb_prop in H as [_ Hr]. now apply IH.
Qed.

Lemma rstrip_no_operator (s : string) :
  no_operator s = true -> no_operator (rstrip s) = true.
Proof.
  induction s as [|c r IH]; simpl; [reflexivity|].
  intros H. apply andb_prop in H as [Hc Hr]. specialize (IH Hr).
  destruct (rstrip r) as [|c' r'].
  - destruct (isspace c); [reflexivity|]. simpl. now rewrite Hc.
  - cbn [no_operator]. rewrite Hc. exact IH.
Qed.

Lemma strip_no_operator (s : string) :
  no_operator s = true -> no_operator (strip s) = true.
Proof. intros H. now apply rstrip_no_operator, lstrip_no_operator. Qed.

Lemma rstrip_idempotent (s : string) : rstrip (rstrip s) = rstrip s.
Proof.
  induction s as [|c r IH]; simpl; [reflexivity|].
  destruct (rstrip r) as [|c' r'] eqn:Hr.
  - destruct (isspace c) eqn:Hc; simpl; [reflexivity|]. now rewrite Hc.
  - cbn [rstrip]. cbn [rstrip] in IH. rewrite IH. reflexivity.
Qed.

Lemma lstrip_head (s : string) :
  match lstrip s with
  | String c _ => isspace c = false
  | EmptyString => True
  end.
Proof.
  induction s as [|c r IH]; simpl; [exact I|].
  destruct (isspace c) eqn:Hc; [exact IH | exact Hc].
Qed.

Lemma rstrip_keeps_head (c : ascii) (r : string) :
  isspace c = false -> exists r', rstrip (String c r) = String c r'.
Proof.
  intros Hc. simpl. destruct (rstrip r); rewrite ?Hc; eauto.
Qed.

Lemma strip_idempotent (s : string) : strip (strip s) = strip s.
Proof.
  unfold strip. pose proof (lstrip_head s) as Hh.
  destruct (lstrip s) as [|c r]; [reflexivity|].
  destruct (rstrip_keeps_head c r Hh) as [r' Hr]. rewrite Hr.
  cbn [lstrip]. rewrite Hh. rewrite <- Hr. apply rstrip_idempotent.
Qed.

Lemma pushed_operand_strip (curr : string) :
  no_operator curr = true -> pushed_operand (strip curr).
Proof.
  intros H. split; [now apply strip_no_operator | apply strip_idempotent].
Qed.

Lemma no_operator_app_char (curr : string) (c : ascii) :
  no_operator curr = true -> Ascii.eqb c "+" = false -> Ascii.eqb c "-" = false ->
  no_operator (curr ++ String c "") = true.
Proof.
  intros Hcurr Hp Hm. rewrite no_operator_app, Hcurr. simpl. now rewrite Hp, Hm.
Qed.

Lemma flat_pairs_snoc (ps : list (string * string)) (f o : string) :
  append_field (append_field (flat_pairs ps) f) o = flat_pairs (ps ++ [(f, o)]).
Proof.
  unfold append_field, flat_pairs. rewrite flat_map_app. simpl.
  now rewrite <- app_assoc.
Qed.

(** The loop keeps the fields in operand/operator pairs and the buffer free
    of operator characters. *)
Lemma parse_fields_loop_pairs (s : string) :
  forall ps curr out,
    Forall (fun p => pushed_operand (fst p) /\ is_operator (snd p) = true) ps ->
    no_operator curr = true ->
    parse_fields_loop s (flat_pairs ps) curr = Ok out ->
    exists ps',
      Forall (fun p => pushed_operand (fst p) /\ is_operator (snd p) = true) ps' /\
      (out = flat_pairs ps' \/
       exists f, pushed_operand f /\ out = (flat_pairs ps' ++ [f])%list).
Proof.
  induction s as [|c rest IH]; intros ps curr out Hps Hcurr; simpl.
  - destruct (String.eqb curr ""); intros [= <-]; exists ps; split; auto.
    right. exists (strip curr). split; [now apply pushed_operand_strip | reflexivity].
  - assert (Hpush : forall o, is_operator o = true ->
              Forall (fun p => pushed_operand (fst p) /\ is_operator (snd p) = true)
                (ps ++ [(strip curr, o)])).
    { intros o Ho. apply Forall_app. split; [exact Hps|].
      constructor; [|constructor]. split; [now apply pushed_operand_strip | exact Ho]. }
    destruct (Ascii.eqb c "+") eqn:Hplus.
    + unfold py_assert. destruct (_ || _); cbn [bind]; [|discriminate].
      rewrite flat_pairs_snoc. apply IH; auto.
    + destruct (Ascii.eqb c "-") eqn:Hminus.
      * unfold py_assert. destruct (_ || _); cbn [bind]; [|discriminate].
        intros Hrun. apply bind_Ok_inv in Hrun as [[|] [_ Hrun]].
        -- now apply (IH ps curr).
        -- rewrite flat_pairs_snoc in Hrun. apply IH in Hrun; auto.
      * apply IH; auto. now apply no_operator_app_char.
Qed.

Lemma nth_error_flat_pairs (ps : list (string * string)) (P Q : string -> Prop) :
  Forall (fun p => P (fst p) /\ Q (snd p)) ps ->
  forall i f, nth_error (flat_pairs ps) i = Some f ->
    if Nat.even i then P f else Q f.
Proof.
  induction 1 as [|[a o] ps [Ha Ho] _ IH]; intros i f Hnth.
  - destruct i; discriminate.
  - destruct i as [|[|i]]; simpl in Hnth.
    + now injection Hnth as <-.
    + now injection Hnth as <-.
    + change (Nat.even (S (S i))) with (Nat.even i). now apply IH.
Qed.

Lemma nth_error_flat_pairs_last (ps : list (string * string)) (P Q : string -> Prop)
    (last : string) :
  Forall (fun p => P (fst p) /\ Q (snd p)) ps -> P last ->
  forall i f, nth_error (flat_pairs ps ++ [last]) i = Some f ->
    if Nat.even i then P f else Q f.
Proof.
  induction 1 as [|[a o] ps [Ha Ho] _ IH]; intros Hl i f Hnth.
  - destruct i as [|[|i]]; simpl in Hnth; try discriminate.
    now injection Hnth as <-.
  - destruct i as [|[|i]]; simpl in Hnth.
    + now injection Hnth as <-.
    + now injection Hnth as <-.
    + change (Nat.even (S (S i))) with (Nat.even i). now apply IH.
Qed.

(** X1: the fields the splitter returns alternate, starting with an
    operand: every field at an even index is an operand without operator
    characters and without surrounding whitespace, every field at an odd
    index is ["+"] or ["-"]. *)
Theorem parse_fields_alternates (s : string) (fields : list string) :
  parse_fields s = Ok fields ->
  forall i f, nth_error fields i = Some f ->
    if Nat.even i then no_operator f = true /\ strip f = f
    else f = "+" \/ f = "-".
Proof.
  intros Hrun.
  apply (parse_fields_loop_pairs s [] "" fields) in Hrun
    as [ps [Hps [->|[l [Hl ->]]]]]; [| |constructor|reflexivity].
  - intros i f Hnth.
    apply (nth_error_flat_pairs ps pushed_operand (fun o => o = "+" \/ o = "-"));
      [|exact Hnth].
    eapply Forall_impl; [|exact Hps]. intros [a o] [Ha Ho]. split; [exact Ha|].
    unfold is_operator in Ho. simpl in *.
    apply orb_prop in Ho as [Ho|Ho]; apply String.eqb_eq in Ho; auto.
  - intros i f Hnth.
    apply (nth_error_flat_pairs_last ps pushed_operand
             (fun o => o = "+" \/ o = "-") l); [|exact Hl|exact Hnth].
    eapply Forall_impl; [|exact Hps]. intros [a o] [Ha Ho]. split; [exact Ha|].
    unfold is_operator in Ho. simpl in *.
    apply orb_prop in Ho as [Ho|Ho]; apply String.eqb_eq in Ho; auto.
Qed.

Lemma parse_fields_alternates_witness :
  (if Nat.even 2 then no_operator "1d4" = true /\ strip "1d4" = "1d4"
   else "1d4" = "+" \/ "1d4" = "-") /\
  (if Nat.even 1 then no_operator "-" = true /\ strip "-" = "-"
   else "-" = "+" \/ "-" = "-").
Proof.
  split.
  - apply (parse_fields_alternates " 2d6 - 1d4 +7" ["2d6"; "-"; "1d4"; "+"; "7"]
             eq_refl 2%nat "1d4" eq_refl).
  - apply (parse_fields_alternates " 2d6 - 1d4 +7" ["2d6"; "-"; "1d4"; "+"; "7"]
             eq_refl 1%nat "-" eq_refl).
Defined.

(** Once the buffer or the field list is non-empty the splitter accepts
    whatever follows. *)
Lemma parse_fields_loop_accepts (s : string) :
  forall fields curr,
    fields <> [] \/ curr <> "" ->
    exists out, parse_fields_loop s fields curr = Ok out.
Proof.
  induction s as [|c rest IH]; intros fields curr Hstate.
  - simpl. destruct (String.eqb curr ""); eauto.
  - destruct Hstate as [Hf|Hc].
    + destruct (parse_fields_loop_extends (String c rest) fields curr Hf) as [more ->].
      eauto.
    + simpl. apply String.eqb_neq in Hc as Hb. rewrite Hb.
      destruct (Ascii.eqb c "+"); [|destruct (Ascii.eqb c "-")];
        rewrite ?orb_true_r; cbn [negb py_assert bind].
      * apply IH. left. destruct fields; discriminate.
      * apply IH. left. destruct fields; discriminate.
      * apply IH. right. destruct curr; [congruence | discriminate].
Qed.

(** X2: the splitter rejects exactly the inputs whose first character is
    an operator, with its own assertion; every other input, the empty one
    included, is split. *)
Theorem parse_fields_rejects_leading_operator (s : string) :
  if starts_with_operator s
  then parse_fields s = Raise AssertionError_split
  else exists fields, parse_fields s = Ok fields.
Proof.
  destruct s as [|c r]; [exists []; reflexivity|].
  unfold starts_with_operator, parse_fields. cbn [parse_fields_loop].
  destruct (Ascii.eqb c "+"); [reflexivity|].
  destruct (Ascii.eqb c "-"); [reflexivity|].
  cbn [orb]. apply parse_fields_loop_accepts. right. discriminate.
Qed.

Lemma concat_fields_app (a b : list string) :
  concat_fields (a ++ b) = concat_fields a ++ concat_fields b.
Proof.
  unfold concat_fields. induction a as [|x a IH]; simpl; [reflexivity|].
  now rewrite IH, append_assoc.
Qed.

Lemma last_field_append (fields : list string) (x : string) :
  last_field (append_field fields x) = Ok x.
Proof. unfold last_field, append_field. now rewrite rev_app_distr. Qed.

(** The loop loses no character of an input without whitespace as long as
    no ["-"] follows a ["-"]. *)
Lemma parse_fields_loop_concat (s : string) :
  forall fields curr out,
    no_space s = true -> no_space curr = true -> has_double_minus s = false ->
    (curr = "" -> last_field fields = Ok "-" -> forall r, s <> String "-" r) ->
    parse_fields_loop s fields curr = Ok out ->
    concat_fields out = concat_fields fields ++ curr ++ s.
Proof.
  induction s as [|c rest IH]; intros fields curr out Hs Hcurr Hdm Hadj; simpl.
  - rewrite append_empty_r. destruct (String.eqb_spec curr "") as [->|Hne].
    + intros [= <-]. now rewrite append_empty_r.
    + intros [= <-]. unfold append_field.
      rewrite concat_fields_app, (strip_no_space curr Hcurr). simpl.
      now rewrite append_empty_r.
  - simpl in Hs. apply andb_prop in Hs as [Hc Hrest].
    simpl in Hdm. apply orb_false_elim in Hdm as [Hcc Hdm].
    assert (Hstep : forall o : ascii,
              (forall r, rest = String "-" r -> o <> "-"%char) ->
              parse_fields_loop rest
                (append_field (append_field fields (strip curr)) (String o "")) ""
                = Ok out ->
              concat_fields out = concat_fields fields ++ curr ++ String o rest).
    { intros o Hnext Hrun. apply IH in Hrun; auto.
      - rewrite Hrun. unfold append_field.
        rewrite !concat_fields_app, (strip_no_space curr Hcurr). simpl.
        rewrite !append_empty_r, !append_assoc. reflexivity.
      - intros _ Hlast r ->. rewrite last_field_append in Hlast.
        assert (Ho : o = "-"%char) by congruence.
        now apply (Hnext r eq_refl). }
    destruct (Ascii.eqb_spec c "+") as [->|Hplus].
    + unfold py_assert. destruct (_ || _); cbn [bind]; [|discriminate].
      apply Hstep. intros r _. discriminate.
    + destruct (Ascii.eqb_spec c "-") as [->|Hminus].
      * unfold py_assert. destruct (_ || _); cbn [bind]; [|discriminate].
        intros Hrun. apply bind_Ok_inv in Hrun as [b [Hsign Hrun]].
        destruct b.
        -- exfalso. destruct (String.eqb_spec curr "") as [->|]; [|discriminate].
           apply bind_Ok_inv in Hsign as [l [Hl Heq]].
           injection Heq as Heq. apply String.eqb_eq in Heq. subst l.
           now apply (Hadj eq_refl Hl rest).
        -- apply Hstep; [|exact Hrun].
           intros r -> _. simpl in Hcc. discriminate.
      * intros Hrun. apply IH in Hrun; auto.
        -- rewrite Hrun, append_assoc. reflexivity.
        -- rewrite no_space_app, Hcurr. simpl. now rewrite Hc.
        -- intros Hempty. destruct curr; discriminate.
Qed.

(** X3: for an input without whitespace in which no ["-"] follows a ["-"],
    the fields written one after the other give the input back: nothing is
    lost or invented by the splitter. *)
Theorem parse_fields_round_trip (s : string) (fields : list string) :
  no_space s = true -> has_double_minus s = false ->
  parse_fields s = Ok fields ->
  concat_fields fields = s.
Proof.
  intros Hs Hdm Hrun.
  apply (parse_fields_loop_concat s [] "" fields Hs eq_refl Hdm) in Hrun;
    [exact Hrun|].
  intros _ Hlast. discriminate.
Qed.

Lemma parse_fields_round_trip_witness :
  concat_fields ["2d6"; "+"; ""; "-"; "1d4"; "+"] = "2d6+-1d4+".
Proof.
  apply (parse_fields_round_trip "2d6+-1d4+" ["2d6"; "+"; ""; "-"; "1d4"; "+"]);
    reflexivity.
Defined.

(** * The constructor without fuel *)

Lemma firstn_length_app (A B : list string) :
  firstn (List.length A) (A ++ B) = A.
Proof. induction A as [|x A IH]; simpl; [now destruct B | now rewrite IH]. Qed.

Lemma skipn_length_app (A B : list string) (o : string) :
  skipn (List.length A + 1) (A ++ o :: B) = B.
Proof. induction A as [|x A IH]; simpl; [reflexivity | exact IH]. Qed.

Lemma nth_error_middle (A B : list string) (o : string) :
  nth_error (A ++ o :: B) (List.length A) = Some o.
Proof. induction A as [|x A IH]; simpl; [reflexivity | exact IH]. Qed.

Lemma index_middle (x : string) (A B : list string) :
  ~ In x A -> index x (A ++ x :: B) = Some (List.length A).
Proof.
  induction A as [|a A IH]; simpl; intros Hin.
  - now rewrite String.eqb_refl.
  - destruct (String.eqb_spec a x) as [->|_]; [tauto|].
    rewrite IH by tauto. reflexivity.
Qed.

Lemma find_root_node_plus_at (A B : list string) :
  ~ In "+" A -> find_root_node (A ++ "+" :: B) = Ok (List.length A).
Proof.
  intros HA. unfold find_root_node.
  replace (field_in "+" (A ++ "+" :: B)) with true
    by (symmetry; apply field_in_iff, in_or_app; simpl; tauto).
  now rewrite index_middle.
Qed.

Lemma find_root_node_minus_at (A B : list string) :
  ~ In "+" A -> ~ In "+" B -> ~ In "-" B ->
  find_root_node (A ++ "-" :: B) = Ok (List.length A).
Proof.
  intros HA HB HmB. unfold find_root_node.
  replace (field_in "+" (A ++ "-" :: B)) with false.
  2:{ symmetry. apply field_in_false_iff. intros Hin.
      apply in_app_or in Hin as [Hin|[Hin|Hin]]; [tauto|discriminate|tauto]. }
  replace (field_in "-" (A ++ "-" :: B)) with true
    by (symmetry; apply field_in_iff, in_or_app; simpl; tauto).
  replace (List.rev (A ++ "-" :: B)) with (List.rev B ++ "-" :: List.rev A)%list
    by (rewrite rev_app_distr; simpl; now rewrite <- app_assoc).
  rewrite index_middle by (now rewrite <- in_rev).
  rewrite length_rev, length_app. simpl. f_equal. lia.
Qed.

(** A list split around its root operator is built as the operation on
    the trees of its two sides, the left one first. *)
Lemma ParseTree_init_split (rnd : nat -> Z) (A B : list string) (op : Operator)
    (pos : nat) :
  A <> [] ->
  find_root_node (A ++ opstring op :: B) = Ok (List.length A) ->
  ParseTree_init rnd (PyList (A ++ opstring op :: B)) pos =
    ('(l, p1) <- ParseTree_init rnd (PyList A) pos ;;
     '(r, p2) <- ParseTree_init rnd (PyList B) p1 ;;
     Ok (ParseTree (OpNode_init l r op) (value_of (OpNode_init l r op)), p2)).
Proof.
  intros HA Hroot. unfold ParseTree_init at 1. cbn [bind].
  pose proof (fields_weight_app A (opstring op :: B)) as Hw.
  change (opstring op :: B) with ([opstring op] ++ B)%list in Hw.
  rewrite (fields_weight_app [opstring op] B) in Hw.
  assert (Ho : fields_weight [opstring op] = 1%nat) by (destruct op; reflexivity).
  rewrite (ParseTree_fuel_op rnd _ _ pos (List.length A) op Hroot);
    [|apply nth_error_middle|destruct A; [congruence | discriminate]].
  rewrite firstn_length_app, skipn_length_app.
  rewrite (ParseTree_fuel_enough rnd _ A pos) by (simpl in *; lia).
  destruct (ParseTree_init rnd (PyList A) pos) as [[l p1]| |]; cbn [bind];
    try reflexivity.
  rewrite (ParseTree_fuel_enough rnd _ B p1) by (simpl in *; lia).
  reflexivity.
Qed.

(** * Left-to-right evaluation *)

Lemma eval_terms_app (rnd : nat -> Z) (T1 T2 : list (string * string)) :
  forall acc shown pos,
    eval_terms rnd (T1 ++ T2) acc shown pos =
      ('(a, s, p) <- eval_terms rnd T1 acc shown pos ;; eval_terms rnd T2 a s p).
Proof.
  induction T1 as [|[o f] T1 IH]; intros acc shown pos; [reflexivity|].
  cbn [Datatypes.app eval_terms].
  destruct (ParseTree_init rnd (PyList [f]) pos) as [[t p]| |]; cbn [bind];
    [apply IH | reflexivity | reflexivity].
Qed.

Lemma apply_op_shift (op : Operator) (a v w : Z) :
  apply_op op (a + v) w = a + apply_op op v w.
Proof. destruct op; simpl; lia. Qed.

(** Terms read after a running value [a + v] give [a] plus what they give
    after [v]; the text in front is carried along. *)
Lemma eval_terms_shift (rnd : nat -> Z) (T : list (string * string)) (a : Z)
    (pre : string) :
  forall v sv pos,
    eval_terms rnd T (a + v) (pre ++ sv) pos =
      ('(b, s, p) <- eval_terms rnd T v sv pos ;; Ok (a + b, pre ++ s, p)).
Proof.
  induction T as [|[o f] T IH]; intros v sv pos; [reflexivity|].
  cbn [eval_terms].
  destruct (ParseTree_init rnd (PyList [f]) pos) as [[t p]| |]; cbn [bind];
    try reflexivity.
  rewrite apply_op_shift, append_assoc. apply IH.
Qed.

Lemma flat_pairs_app (T1 T2 : list (string * string)) :
  flat_pairs (T1 ++ T2) = (flat_pairs T1 ++ flat_pairs T2)%list.
Proof. unfold flat_pairs. apply flat_map_app. Qed.

Lemma expression_fields_app (first : string) (T1 T2 : list (string * string))
    (o g : string) :
  expression_fields first (T1 ++ (o, g) :: T2) =
    (expression_fields first T1 ++ o :: expression_fields g T2)%list.
Proof.
  unfold expression_fields. rewrite flat_pairs_app. reflexivity.
Qed.

Lemma is_operator_false (f : string) :
  is_operator f = false <-> f <> "+" /\ f <> "-".
Proof.
  unfold is_operator. rewrite orb_false_iff, !String.eqb_neq. tauto.
Qed.

Lemma is_operator_true (f : string) :
  is_operator f = true <-> f = "+" \/ f = "-".
Proof.
  unfold is_operator. rewrite orb_true_iff, !String.eqb_eq. tauto.
Qed.

(** Fields whose operators are all ["-"] contain no ["+"]. *)
Lemma minus_only_no_plus (first : string) (T : list (string * string)) :
  is_operator first = false ->
  Forall (fun p => fst p = "-" /\ is_operator (snd p) = false) T ->
  ~ In "+" (expression_fields first T).
Proof.
  intros Hf HT. unfold expression_fields. intros [Hin|Hin].
  - apply is_operator_false in Hf. tauto.
  - induction HT as [|[o g] T [Ho Hg] _ IH]; simpl in Hin; [tauto|].
    simpl in Ho, Hg. apply is_operator_false in Hg.
    destruct Hin as [Hin|[Hin|Hin]]; [congruence | tauto | tauto].
Qed.

(** Well-formed terms either have only ["-"] operators or split at their
    first ["+"]. *)
Lemma terms_first_plus (T : list (string * string)) :
  Forall (fun p => is_operator (fst p) = true /\ is_operator (snd p) = false) T ->
  Forall (fun p => fst p = "-" /\ is_operator (snd p) = false) T \/
  exists T1 g T2,
    T = (T1 ++ ("+", g) :: T2)%list /\
    Forall (fun p => fst p = "-" /\ is_operator (snd p) = false) T1 /\
    is_operator g = false /\
    Forall (fun p => is_operator (fst p) = true /\ is_operator (snd p) = false) T2.
Proof.
  induction 1 as [|[o g] T [Ho Hg] HT IH]; [left; constructor|].
  simpl in Ho, Hg. apply is_operator_true in Ho as [->| ->].
  - right. exists [], g, T. repeat split; auto.
  - destruct IH as [IH|[T1 [g' [T2 [-> [H1 [Hg' H2]]]]]]].
    + left. constructor; auto.
    + right. exists (("-", g) :: T1), g', T2. repeat split; auto.
Qed.

Lemma minus_only_well_formed (T : list (string * string)) :
  Forall (fun p => fst p = "-" /\ is_operator (snd p) = false) T ->
  Forall (fun p => is_operator (fst p) = true /\ is_operator (snd p) = false) T.
Proof.
  apply Forall_impl. intros [o g] [Ho Hg]. simpl in *. subst o. auto.
Qed.

Lemma observe_split (rnd : nat -> Z) (A B : list string) (op : Operator)
    (pos : nat) :
  A <> [] ->
  find_root_node (A ++ opstring op :: B) = Ok (List.length A) ->
  observe (ParseTree_init rnd (PyList (A ++ opstring op :: B)) pos) =
    ('(a, sa, p1) <- observe (ParseTree_init rnd (PyList A) pos) ;;
     '(b, sb, p2) <- observe (ParseTree_init rnd (PyList B) p1) ;;
     Ok (apply_op op a b, sa ++ " " ++ opstring op ++ " " ++ sb, p2)).
Proof.
  intros HA Hroot. rewrite (ParseTree_init_split rnd A B op pos HA Hroot).
  unfold observe.
  destruct (ParseTree_init rnd (PyList A) pos) as [[l p1]| |]; cbn [bind];
    try reflexivity.
  destruct (ParseTree_init rnd (PyList B) p1) as [[r p2]| |]; reflexivity.
Qed.

(** The tree built from a well-formed expression agrees with its reading
    from left to right, in value, rendering, tape use and exception. *)
Lemma ParseTree_left_to_right (rnd : nat -> Z) (n : nat) :
  forall terms first pos,
    (List.length terms <= n)%nat -> well_formed first terms ->
    observe (ParseTree_init rnd (PyList (expression_fields first terms)) pos) =
      eval_left_to_right rnd first terms pos.
Proof.
  induction n as [|n IH]; intros terms first pos Hlen [Hfirst Hterms].
  { destruct terms; [|simpl in Hlen; lia]. unfold eval_left_to_right, observe.
    change (expression_fields first []) with [first]. cbn [eval_terms].
    destruct (ParseTree_init rnd (PyList [first]) pos) as [[t p]| |]; reflexivity. }
  destruct (terms_first_plus terms Hterms)
    as [Hminus|[T1 [g [T2 [-> [H1 [Hg H2]]]]]]].
  - destruct terms as [|x terms'] using rev_ind.
    { unfold eval_left_to_right, observe.
      change (expression_fields first []) with [first]. cbn [eval_terms].
      destruct (ParseTree_init rnd (PyList [first]) pos) as [[t p]| |]; reflexivity. }
    clear IHterms'. destruct x as [o g].
    apply Forall_app in Hminus as [H1 Hx].
    apply Forall_inv in Hx as [Ho Hg]. simpl in Ho, Hg. subst o.
    rewrite length_app in Hlen. simpl in Hlen.
    rewrite expression_fields_app.
    change (expression_fields g []) with [g].
    rewrite (observe_split rnd _ [g] operator_sub pos); [|discriminate|].
    2:{ apply is_operator_false in Hg.
        apply find_root_node_minus_at; [now apply minus_only_no_plus| |];
          simpl; tauto. }
    rewrite (IH terms' first pos) by
      (first [lia | split; [exact Hfirst | now apply minus_only_well_formed]]).
    unfold eval_left_to_right.
    destruct (ParseTree_init rnd (PyList [first]) pos) as [[t0 p0]| |]; cbn [bind];
      try reflexivity.
    rewrite eval_terms_app.
    destruct (eval_terms rnd terms' (value_of t0) (Node_str t0) p0)
      as [[[a sa] p1]| |]; cbn [bind eval_terms]; try reflexivity.
    unfold observe.
    destruct (ParseTree_init rnd (PyList [g]) p1) as [[tg p2]| |]; reflexivity.
  - rewrite length_app in Hlen. simpl in Hlen.
    rewrite expression_fields_app.
    rewrite (observe_split rnd _ _ operator_add pos); [|discriminate|].
    2:{ apply find_root_node_plus_at. now apply minus_only_no_plus. }
    rewrite (IH T1 first pos) by
      (first [lia | split; [exact Hfirst | now apply minus_only_well_formed]]).
    unfold eval_left_to_right.
    destruct (ParseTree_init rnd (PyList [first]) pos) as [[t0 p0]| |]; cbn [bind];
      try reflexivity.
    rewrite eval_terms_app.
    destruct (eval_terms rnd T1 (value_of t0) (Node_str t0) p0)
      as [[[a sa] p1]| |]; cbn [bind eval_terms]; try reflexivity.
    rewrite (IH T2 g p1) by (first [lia | split; assumption]).
    unfold eval_left_to_right.
    destruct (ParseTree_init rnd (PyList [g]) p1) as [[tg p2]| |]; cbn [bind];
      try reflexivity.
    change (apply_op (op_of_field "+") a (value_of tg)) with (a + value_of tg).
    replace (sa ++ " " ++ "+" ++ " " ++ Node_str tg)
      with ((sa ++ " + ") ++ Node_str tg) by (now rewrite append_assoc).
    rewrite eval_terms_shift.
    destruct (eval_terms rnd T2 (value_of tg) (Node_str tg) p2)
      as [[[b sb] p3]| |]; cbn [bind apply_op opstring]; try reflexivity.
    now rewrite append_assoc.
Qed.

Lemma no_operator_not_operator (f : string) :
  no_operator f = true -> is_operator f = false.
Proof.
  intros H. apply is_operator_false. split; intros ->; discriminate.
Qed.

(** The splitter on operand texts separated by operators: one field per
    operand, stripped, and one per operator, in order. *)
Lemma parse_fields_loop_terms (terms : list (string * string)) :
  forall fields curr,
    curr <> "" ->
    Forall (fun p => is_operator (fst p) = true /\
                     no_operator (snd p) = true /\ snd p <> "") terms ->
    parse_fields_loop (terms_string terms) fields curr =
      Ok (fields ++ strip curr :: flat_pairs (strip_terms terms))%list.
Proof.
  induction terms as [|[o f] terms IH]; intros fields curr Hcurr Hterms.
  - simpl. apply String.eqb_neq in Hcurr. now rewrite Hcurr.
  - apply Forall_cons_iff in Hterms as [[Ho [Hf Hne]] Hterms]. simpl in Ho, Hf, Hne.
    apply String.eqb_neq in Hcurr as Hb.
    assert (Hrest : forall c : ascii,
              parse_fields_loop (f ++ terms_string terms)
                (append_field (append_field fields (strip curr)) (String c "")) "" =
              Ok (fields ++ strip curr
                    :: flat_pairs (strip_terms ((String c "", f) :: terms)))%list).
    { intros c. rewrite (parse_fields_loop_operand f _ _ "" Hf).
      cbn [append]. rewrite (IH _ f Hne Hterms). unfold append_field.
      rewrite <- !app_assoc. reflexivity. }
    apply is_operator_true in Ho as [-> | ->]; cbn [terms_string append parse_fields_loop].
    + change (Ascii.eqb "+" "+") with true. cbv beta iota.
      rewrite Hb, orb_true_r. cbn [negb py_assert bind]. apply Hrest.
    + change (Ascii.eqb "-" "+") with false. change (Ascii.eqb "-" "-") with true.
      cbv beta iota. rewrite Hb, orb_true_r. cbn [negb py_assert bind]. apply Hrest.
Qed.

Lemma parse_fields_expression (first : string) (terms : list (string * string)) :
  operand_texts first terms ->
  parse_fields (expression_string first terms) =
    Ok (expression_fields (strip first) (strip_terms terms)).
Proof.
  intros [[Hf Hne] Hterms]. unfold parse_fields, expression_string.
  rewrite (parse_fields_loop_operand first _ [] "" Hf). cbn [append].
  now rewrite (parse_fields_loop_terms terms [] first Hne Hterms).
Qed.

Lemma strip_terms_well_formed (first : string) (terms : list (string * string)) :
  operand_texts first terms -> well_formed (strip first) (strip_terms terms).
Proof.
  intros [[Hf _] Hterms]. split.
  - now apply no_operator_not_operator, strip_no_operator.
  - unfold strip_terms. apply Forall_map. eapply Forall_impl; [|exact Hterms].
    intros [o f] [Ho [Hnf _]]. simpl in *. split; [exact Ho|].
    now apply no_operator_not_operator, strip_no_operator.
Qed.

Lemma observe_evaluation_fields (rnd : nat -> Z) (line : string)
    (fields : list string) (pos : nat) :
  parse_fields line = Ok fields ->
  observe_evaluation (evaluate rnd line pos) =
    observe (ParseTree_init rnd (PyList fields) pos).
Proof.
  intros Hsplit. unfold observe_evaluation, observe, evaluate, ParseTree_init.
  rewrite Hsplit. cbn [bind].
  destruct (ParseTree_fuel rnd _ fields pos) as [[t p]| |]; reflexivity.
Qed.

(** X4: an expression written as operand texts separated by ["+"] and
    ["-"] evaluates as it reads from left to right: the operands are built
    one after the other on the tape, each is added to or subtracted from
    the running total according to the operator in front of it, and the
    rendering lists them in the same order; if an operand fails, its
    exception is the outcome. *)
Theorem evaluate_left_to_right (rnd : nat -> Z) (first : string)
    (terms : list (string * string)) (pos : nat) :
  operand_texts first terms ->
  observe_evaluation (evaluate rnd (expression_string first terms) pos) =
    eval_left_to_right rnd (strip first) (strip_terms terms) pos.
Proof.
  intros Htexts.
  rewrite (observe_evaluation_fields rnd _ _ pos (parse_fields_expression _ _ Htexts)).
  apply (ParseTree_left_to_right rnd (List.length (strip_terms terms))); [lia|].
  now apply strip_terms_well_formed.
Qed.

Lemma evaluate_left_to_right_witness :
  observe_evaluation
    (evaluate tape_count
       (expression_string "10 " [("-", " 2d6 "); ("+", "3"); ("-", "1d4")]) 0) =
  eval_left_to_right tape_count (strip "10 ")
    (strip_terms [("-", " 2d6 "); ("+", "3"); ("-", "1d4")]) 0.
Proof.
  apply (evaluate_left_to_right tape_count "10 "
           [("-", " 2d6 "); ("+", "3"); ("-", "1d4")] 0%nat).
  split; [split; [reflexivity | discriminate]|].
  repeat constructor; discriminate.
Defined.

(** * Integer literals *)

Lemma contains_lstrip (c : ascii) (s : string) :
  contains c s = false -> contains c (lstrip s) = false.
Proof.
  induction s as [|a r IH]; simpl; [reflexivity|].
  intros H. destruct (isspace a); [|exact H].
  apply orb_false_elim in H as [_ Hr]. now apply IH.
Qed.

Lemma contains_rstrip (c : ascii) (s : string) :
  contains c s = false -> contains c (rstrip s) = false.
Proof.
  induction s as [|a r IH]; simpl; [reflexivity|].
  intros H. apply orb_false_elim in H as [Ha Hr]. specialize (IH Hr).
  destruct (rstrip r) as [|a' r'].
  - destruct (isspace a); [reflexivity|]. simpl. now rewrite Ha.
  - cbn [contains]. rewrite Ha. exact IH.
Qed.

Lemma contains_strip (c : ascii) (s : string) :
  contains c s = false -> contains c (strip s) = false.
Proof. intros H. now apply contains_rstrip, contains_lstrip. Qed.

(** Without a [d] the multiplier pattern cannot match. *)
Lemma DIE_MULT_REGEXP_needs_d (f : string) :
  contains "d" f = false -> DIE_MULT_REGEXP_match f = None.
Proof.
  intros Hd. unfold DIE_MULT_REGEXP_match.
  destruct (span_digits_spec f) as [Hf _].
  destruct (span_digits f) as [ds rest]. simpl in Hf.
  destruct rest as [|c rest]; [reflexivity|].
  destruct (Ascii.eqb_spec c "d") as [->|_]; [|reflexivity].
  rewrite Hf, contains_app in Hd. simpl in Hd.
  now rewrite orb_true_r in Hd.
Qed.

(** An operand without [d] is a literal leaf: its value is [int(field)]
    and no draw is made. *)
Lemma ParseTree_init_literal (rnd : nat -> Z) (f : string) (pos : nat) :
  contains "d" f = false -> is_operator f = false ->
  ParseTree_init rnd (PyList [f]) pos =
    (v <- py_int f ;; Ok (ParseTree (ValueNode f false None v) v, pos)).
Proof.
  intros Hd Hop. apply is_operator_false in Hop as [Hp Hm].
  assert (Hmult : get_multiplier f = Ok 1)
    by (unfold get_multiplier; now rewrite DIE_MULT_REGEXP_needs_d).
  unfold ParseTree_init. cbn [bind].
  rewrite (ParseTree_fuel_leaf rnd _ f pos 1 Hp Hm Hmult) by lia.
  unfold ValueNode_init. rewrite Hd.
  destruct (py_int f); reflexivity.
Qed.

Lemma eval_terms_literals (rnd : nat -> Z) (terms : list (string * string * Z)) :
  forall acc shown pos,
    Forall (fun p => is_operator (fst (fst p)) = true /\
                     literal_text (snd (fst p)) (snd p)) terms ->
    eval_terms rnd (strip_terms (map term_text terms)) acc shown pos =
      Ok (literal_terms (map term_value terms) acc shown, pos).
Proof.
  induction terms as [|[[o f] v] terms IH]; intros acc shown pos Hterms;
    [reflexivity|].
  apply Forall_cons_iff in Hterms as [[_ [Hno [_ [Hd Hv]]]] Hterms].
  simpl in Hno, Hd, Hv.
  cbn [map strip_terms term_text term_value fst snd eval_terms literal_terms].
  rewrite ParseTree_init_literal;
    [|now apply contains_strip
     |now apply no_operator_not_operator, strip_no_operator].
  rewrite Hv. cbn [bind value_of Node_str andb].
  apply IH, Hterms.
Qed.

(** X5: an expression of integer literals separated by ["+"] and ["-"]
    evaluates to the value of the literals taken from left to right, is
    rendered as the literals in decimal with [" + "] and [" - "] between
    them, and draws nothing from the tape. *)
Theorem evaluate_literals (rnd : nat -> Z) (first : string) (v0 : Z)
    (terms : list (string * string * Z)) (pos : nat) :
  literal_text first v0 ->
  Forall (fun p => is_operator (fst (fst p)) = true /\
                   literal_text (snd (fst p)) (snd p)) terms ->
  observe_evaluation
    (evaluate rnd (expression_string first (map term_text terms)) pos) =
  Ok (literal_terms (map term_value terms) v0 (str_int v0), pos).
Proof.
  intros [Hno [Hne [Hd Hv]]] Hterms.
  assert (Htexts : operand_texts first (map term_text terms)).
  { split; [now split|]. apply Forall_map. eapply Forall_impl; [|exact Hterms].
    intros [[o f] v] [Ho [Hf [Hfne _]]]. simpl in *. auto. }
  rewrite (observe_evaluation_fields rnd _ _ pos (parse_fields_expression _ _ Htexts)).
  rewrite (ParseTree_left_to_right rnd (List.length (strip_terms (map term_text terms))));
    [|lia|now apply strip_terms_well_formed].
  unfold eval_left_to_right.
  rewrite ParseTree_init_literal;
    [|now apply contains_strip
     |now apply no_operator_not_operator, strip_no_operator].
  rewrite Hv. cbn [bind value_of Node_str andb].
  now apply eval_terms_literals.
Qed.

Lemma evaluate_literals_witness :
  observe_evaluation (evaluate tape_count "10 - 3+ 07 -1_0" 5) =
  Ok (4, "10 - 3 + 7 - 10", 5%nat).
Proof.
  apply (evaluate_literals tape_count "10 " 10
           [("-", " 3", 3); ("+", " 07 ", 7); ("-", "1_0", 10)] 5%nat).
  - repeat split; discriminate.
  - repeat constructor; discriminate.
Defined.

(** * Invariants of constructed trees *)

Lemma built_leaf_ok (rnd : nat -> Z) (fields : list string) (pos : nat) (t : Node)
    (pos' : nat) :
  built rnd fields pos t pos' -> Forall leaf_ok (leaves t).
Proof.
  induction 1 as [f pos n pos' _ _ _ Hinit
                 |f m expanded pos t pos' _ _ _ _ _ _ IH
                 |fields i op pos l pos1 r pos2 _ _ _ _ IHl _ IHr];
    cbn [leaves OpNode_init].
  - apply ValueNode_init_Ok_inv in Hinit
      as [[Hd [faces [Hf [Hpos [-> _]]]]]|[Hd [v [Hv [-> _]]]]];
      cbn [leaves]; constructor; try constructor; cbn [leaf_ok]; auto.
    pose proof (die_value_range rnd faces pos Hpos). repeat split; auto; lia.
  - exact IH.
  - apply Forall_app. now split.
Qed.

(** X6: in every tree the constructor returns, a die leaf holds a field
    with a [d], the face count read from that field, which is at least 1,
    and a value between 1 and the face count; a literal leaf holds a field
    without [d], no face count, and the integer the field reads as. *)
Theorem constructed_leaves_are_consistent (rnd : nat -> Z) (arg : PyArg)
    (pos : nat) (t : Node) (pos' : nat) :
  ParseTree_init rnd arg pos = Ok (t, pos') -> Forall leaf_ok (leaves t).
Proof.
  intros Hrun. apply ParseTree_init_list_built in Hrun as [fields Hbuilt].
  eapply built_leaf_ok, Hbuilt.
Qed.

Lemma constructed_leaves_are_consistent_witness :
  Forall leaf_ok
    (leaves (ParseTree
               (OpNode (ParseTree (ValueNode "d20" true (Some 20) 8) 8)
                       (ParseTree (ValueNode "5" false None 5) 5)
                       operator_sub 3) 3)).
Proof.
  apply (constructed_leaves_are_consistent tape_count (PyStr "d20 - 5") 7 _ 8).
  reflexivity.
Defined.








(** * The range of the total and the number of draws *)

Lemma rolled_value_in_range (rnd : nat -> Z) (t : Node) (pos pos' : nat) :
  rolled rnd t pos pos' ->
  fst (value_range t) <= value_of t <= snd (value_range t).
Proof.
  induction 1 as [f faces pos Hf|f v pos _|l r op pos pos1 pos2 _ IHl _ IHr
                 |n pos pos' _ IH]; cbn [value_range value_of fst snd].
  - now apply die_value_range.
  - lia.
  - destruct op; cbn [fst snd apply_op]; lia.
  - exact IH.
Qed.

Lemma built_single_not_op (rnd : nat -> Z) (f : string) (i : nat) (op : Operator) :
  nth_error [f] i = Some (opstring op) -> i <> 0%nat -> False.
Proof. destruct i as [|[|i]]; simpl; intros H Hi; [congruence | discriminate..]. Qed.

Lemma opstring_inj (op op' : Operator) : opstring op = opstring op' -> op = op'.
Proof. destruct op, op'; simpl; congruence. Qed.

(** The range of a tree depends on the fields alone, not on the tape. *)
Lemma built_range_determined (rnd1 : nat -> Z) (fields : list string) (pos1 : nat)
    (t1 : Node) (pos1' : nat) :
  built rnd1 fields pos1 t1 pos1' ->
  forall rnd2 pos2 t2 pos2',
    built rnd2 fields pos2 t2 pos2' -> value_range t2 = value_range t1.
Proof.
  induction 1 as [f pos n pos' Hp Hm Hmulti Hinit
                 |f m expanded pos t pos' Hp Hm Hmult Hlt Hexp _ IH
                 |fields i op pos l pos1' r pos2' Hroot Hnth Hi _ IHl _ IHr];
    intros rnd2 pos2 t2 pos2'' Hsecond.
  - inversion Hsecond as [f' p n2 p' _ _ _ Hinit2
                         |f' m' ex p t' p' _ _ Hmult' Hlt' _ _
                         |fs i' op' p l' p1 r' p2 _ Hnth' Hi' _ _]; subst.
    + cbn [value_range].
      apply ValueNode_init_Ok_inv in Hinit
        as [[Hd [faces [Hf [_ [-> _]]]]]|[Hd [v [Hv [-> _]]]]];
        apply ValueNode_init_Ok_inv in Hinit2
          as [[Hd2 [faces2 [Hf2 [_ [-> _]]]]]|[Hd2 [v2 [Hv2 [-> _]]]]];
        cbn [value_range]; congruence.
    + unfold is_multi_die in Hmulti. rewrite Hmult' in Hmulti.
      cbn [bind] in Hmulti. apply Z.ltb_lt in Hlt'. congruence.
    + exfalso. eapply built_single_not_op; eassumption.
  - inversion Hsecond as [f' p n2 p' _ _ Hmulti2 _
                         |f' m' ex p t' p' _ _ Hmult' Hlt' Hexp' Hsub
                         |fs i' op' p l' p1 r' p2 _ Hnth' Hi' _ _]; subst.
    + unfold is_multi_die in Hmulti2. rewrite Hmult in Hmulti2.
      cbn [bind] in Hmulti2. apply Z.ltb_lt in Hlt. congruence.
    + cbn [value_range]. rewrite Hmult in Hmult'. injection Hmult' as <-.
      rewrite Hexp in Hexp'. injection Hexp' as <-. eapply IH, Hsub.
    + exfalso. eapply built_single_not_op; eassumption.
  - inversion Hsecond as [f' p n2 p' _ _ _ _
                         |f' m' ex p t' p' _ _ _ _ _ _
                         |fs i' op' p l' p1 r' p2 Hroot' Hnth' Hi' Hl' Hr']; subst.
    + exfalso. eapply built_single_not_op; eassumption.
    + exfalso. eapply built_single_not_op; eassumption.
    + rewrite Hroot in Hroot'. injection Hroot' as <-.
      rewrite Hnth in Hnth'. injection Hnth' as Hop. apply opstring_inj in Hop.
      subst op'. unfold OpNode_init. cbn [value_range].
      rewrite (IHl _ _ _ _ Hl'), (IHr _ _ _ _ Hr'). reflexivity.
Qed.

Lemma ParseTree_init_built_fields (rnd : nat -> Z) (arg : PyArg) (pos : nat)
    (t : Node) (pos' : nat) :
  ParseTree_init rnd arg pos = Ok (t, pos') ->
  exists fields,
    match arg with PyStr s => parse_fields s | PyList l => Ok l end = Ok fields /\
    built rnd fields pos t pos'.
Proof.
  unfold ParseTree_init. intros Hrun.
  apply bind_Ok_inv in Hrun as [fields [Hfields Hrun]].
  exists fields. split; [exact Hfields|]. eapply ParseTree_fuel_built, Hrun.
Qed.

(** X8: the total of every successful run on an input lies in the range
    read off the tree of any successful run on the same input, whatever the
    two tapes: the range (faces of the dice, values of the literals, the
    operators between them) is a property of the input. *)
Theorem total_lies_in_the_range_of_the_input (rnd1 rnd2 : nat -> Z) (arg : PyArg)
    (pos1 pos2 : nat) (t1 t2 : Node) (pos1' pos2' : nat) :
  ParseTree_init rnd1 arg pos1 = Ok (t1, pos1') ->
  ParseTree_init rnd2 arg pos2 = Ok (t2, pos2') ->
  fst (value_range t1) <= value_of t2 <= snd (value_range t1).
Proof.
  intros H1 H2.
  apply ParseTree_init_built_fields in H1 as [fields1 [Hf1 Hb1]].
  apply ParseTree_init_built_fields in H2 as [fields2 [Hf2 Hb2]].
  rewrite Hf1 in Hf2. injection Hf2 as <-.
  rewrite <- (built_range_determined rnd1 _ _ _ _ Hb1 rnd2 _ _ _ Hb2).
  eapply rolled_value_in_range, built_rolled, Hb2.
Qed.

Lemma total_lies_in_the_range_of_the_input_witness :
  exists t1 t2,
    value_range t1 = (1, 14) /\ value_of t2 = 10 /\
    fst (value_range t1) <= value_of t2 <= snd (value_range t1).
Proof.
  eexists. eexists. split; [|split];
    [| |apply (total_lies_in_the_range_of_the_input
                 tape_count (fun n => 5 - Z.of_nat n) (PyStr "2d6+3-1d4") 0 0 _ _ 3 3);
        vm_compute; reflexivity];
    reflexivity.
Defined.

Lemma multiplier_needs_d (f : string) (m : Z) :
  get_multiplier f = Ok m -> m <> 1 -> contains "d" f = true.
Proof.
  intros Hm Hne. destruct (contains "d" f) eqn:Hd; [reflexivity|].
  unfold get_multiplier in Hm. rewrite (DIE_MULT_REGEXP_needs_d f Hd) in Hm.
  congruence.
Qed.

Lemma dice_of_chain (faces : Z) (n : nat) :
  list_sum (map dice_of_field (chain_fields ("1d" ++ str_int faces) n)) = S n.
Proof.
  unfold chain_fields. set (single := "1d" ++ str_int faces).
  assert (Hs : dice_of_field single = 1%nat) by reflexivity.
  assert (Htail : list_sum (map dice_of_field
                    (flat_map (fun f => ["+"; f]) (repeat single n))) = n).
  { induction n as [|n IH]; [reflexivity|].
    cbn [repeat flat_map Datatypes.app].
    change (list_sum (map dice_of_field ("+" :: single :: ?l)))
      with (dice_of_field "+" + (dice_of_field single
                                 + list_sum (map dice_of_field l)))%nat.
    rewrite IH, Hs. reflexivity. }
  change (list_sum (map dice_of_field (single :: ?l)))
    with (dice_of_field single + list_sum (map dice_of_field l))%nat.
  rewrite Htail, Hs. reflexivity.
Qed.

Lemma built_dice_count (rnd : nat -> Z) (fields : list string) (pos : nat)
    (t : Node) (pos' : nat) :
  built rnd fields pos t pos' ->
  pos' = (pos + list_sum (map dice_of_field fields))%nat.
Proof.
  induction 1 as [f pos n pos' _ _ Hmulti Hinit
                 |f m expanded pos t pos' _ _ Hmult Hlt Hexp _ IH
                 |fields i op pos l pos1 r pos2 _ Hnth _ _ IHl _ IHr].
  - change (list_sum (map dice_of_field [f])) with (dice_of_field f + 0)%nat.
    unfold dice_of_field.
    unfold is_multi_die in Hmulti.
    destruct (get_multiplier_total f) as [m [Hm _]]. rewrite Hm in *.
    cbn [bind] in Hmulti. injection Hmulti as Hle. apply Z.ltb_ge in Hle.
    apply ValueNode_init_Ok_inv in Hinit
      as [[Hd [faces [_ [_ [_ ->]]]]]|[Hd [v [_ [_ ->]]]]]; rewrite Hd.
    + rewrite Z.max_l by lia. simpl. lia.
    + simpl. lia.
  - change (list_sum (map dice_of_field [f])) with (dice_of_field f + 0)%nat.
    unfold dice_of_field.
    rewrite (multiplier_needs_d f m Hmult) by lia. rewrite Hmult.
    destruct (get_die_type_cases f) as [Hf|[faces [Hf _]]].
    + unfold multi_expression, make_single_roll in Hexp. rewrite Hf in Hexp.
      discriminate.
    + rewrite (multi_expression_chain f m faces Hf) in Hexp by lia.
      assert (Hex : expanded = chain_fields ("1d" ++ str_int faces) (Z.to_nat m - 1))
        by congruence.
      rewrite Hex, dice_of_chain in IH. lia.
  - rewrite (split_middle fields i _ Hnth), map_app, list_sum_app.
    change (list_sum (map dice_of_field (opstring op :: ?l)))
      with (dice_of_field (opstring op) + list_sum (map dice_of_field l))%nat.
    replace (dice_of_field (opstring op)) with 0%nat by (now destruct op). lia.
Qed.

(** X9: a successful run consumes exactly as many draws as its fields ask
    for: none for a field without [d], the multiplier for a multi-die field
    and one for any other field with a [d]; the tree has as many die
    leaves. *)
Theorem draws_are_counted_by_the_fields (rnd : nat -> Z) (fields : list string)
    (pos : nat) (t : Node) (pos' : nat) :
  ParseTree_init rnd (PyList fields) pos = Ok (t, pos') ->
  pos' = (pos + list_sum (map dice_of_field fields))%nat /\
  count_dice t = list_sum (map dice_of_field fields).
Proof.
  intros Hrun.
  apply ParseTree_init_built_fields in Hrun as [fields' [Heq Hbuilt]].
  injection Heq as <-.
  pose proof (built_dice_count rnd _ _ _ _ Hbuilt) as Hcount.
  split; [exact Hcount|].
  apply built_rolled, rolled_count_dice in Hbuilt. lia.
Qed.

Lemma draws_are_counted_by_the_fields_witness :
  exists t,
    ParseTree_init tape_count (PyList ["3d6"; "+"; "0d8"; "-"; "xd4"; "-"; "2"]) 4 =
      Ok (t, 9%nat) /\
    9%nat = (4 + list_sum (map dice_of_field ["3d6"; "+"; "0d8"; "-"; "xd4"; "-"; "2"]))%nat /\
    count_dice t = list_sum (map dice_of_field ["3d6"; "+"; "0d8"; "-"; "xd4"; "-"; "2"]).
Proof.
  eexists. split; [vm_compute; reflexivity|].
  apply (draws_are_counted_by_the_fields tape_count
           ["3d6"; "+"; "0d8"; "-"; "xd4"; "-"; "2"] 4).
  vm_compute. reflexivity.
Defined.

(** * The two patterns, characterised *)

Lemma span_digits_fst_empty (r : string) :
  fst (span_digits r) = "" <-> starts_nondigit r = true.
Proof.
  destruct r as [|c r]; simpl; [tauto|].
  destruct (is_digit c); [|simpl; tauto].
  destruct (span_digits r). simpl. split; discriminate.
Qed.

Lemma DIE_TYPE_REGEXP_search_None (f : string) :
  DIE_TYPE_REGEXP_search f = None <-> has_d_digit f = false.
Proof.
  induction f as [|c r IH]; simpl; [tauto|].
  destruct (Ascii.eqb c "d"); cbn [andb orb]; [|exact IH].
  pose proof (span_digits_fst_empty r) as Hspan.
  destruct (fst (span_digits r)) as [|a ds].
  - assert (Hr : starts_nondigit r = true) by now apply Hspan.
    destruct r as [|c' r']; [exact IH|]. simpl in Hr.
    apply negb_true_iff in Hr. rewrite Hr. exact IH.
  - assert (Hr : starts_nondigit r <> true) by (rewrite <- Hspan; discriminate).
    destruct r as [|c' r']; [now elim Hr|]. simpl in Hr.
    destruct (is_digit c'); [split; discriminate | now elim Hr].
Qed.

(** X10: [get_die_type] finds a face count exactly when some [d] of the
    field is directly followed by a digit; the count is then not negative;
    otherwise it raises its own exception and nothing else. *)
Theorem get_die_type_needs_d_and_digit (f : string) :
  if has_d_digit f
  then exists faces, get_die_type f = Ok faces /\ 0 <= faces
  else get_die_type f = Raise Exception_not_a_die.
Proof.
  destruct (has_d_digit f) eqn:Hd.
  - destruct (get_die_type_cases f) as [Hraise|Hok]; [|exact Hok].
    unfold get_die_type in Hraise.
    destruct (DIE_TYPE_REGEXP_search f) as [ms|] eqn:Hs.
    + apply DIE_TYPE_REGEXP_search_spec in Hs as [ds [-> [Hds Hne]]].
      destruct (py_int_digits ds Hds Hne) as [u [_ Hint]].
      cbn [drop_first] in Hraise. congruence.
    + apply DIE_TYPE_REGEXP_search_None in Hs. congruence.
  - apply DIE_TYPE_REGEXP_search_None in Hd. unfold get_die_type. now rewrite Hd.
Qed.

(** X11: [is_multi_die] never raises, and it answers [True] exactly for
    the fields that start with a run of digits reading as more than 1,
    directly followed by a [d]. *)
Theorem is_multi_die_characterised (f : string) :
  (exists b, is_multi_die f = Ok b) /\
  (is_multi_die f = Ok true <->
   exists ds rest m,
     f = ds ++ String "d" rest /\ all_digits ds = true /\ ds <> "" /\
     py_int ds = Ok m /\ 1 < m).
Proof.
  split.
  - unfold is_multi_die. destruct (get_multiplier_total f) as [m [-> _]].
    now eexists.
  - split.
    + unfold is_multi_die, get_multiplier, DIE_MULT_REGEXP_match.
      destruct (span_digits_spec f) as [Hf [Hds _]].
      destruct (span_digits f) as [ds rest]. simpl in Hf, Hds.
      destruct rest as [|c rest]; [discriminate|].
      destruct (Ascii.eqb_spec c "d") as [->|_]; [|discriminate].
      rewrite length_app_char, drop_last_app_char.
      destruct ds as [|a r]; [discriminate|].
      replace (S (String.length (String a r)) =? 1)%nat with false by reflexivity.
      intros Hrun. apply bind_Ok_inv in Hrun as [m [Hm Hlt]].
      injection Hlt as Hlt. apply Z.ltb_lt in Hlt.
      exists (String a r), rest, m. repeat split; auto. discriminate.
    + intros [ds [rest [m [-> [Hds [Hne [Hm Hlt]]]]]]].
      unfold is_multi_die. rewrite (get_multiplier_digits_d ds rest m Hds Hne Hm).
      cbn [bind]. apply Z.ltb_lt in Hlt. now rewrite Hlt.
Qed.

Lemma is_multi_die_characterised_witness :
  is_multi_die ("012" ++ String "d" "6+1") = Ok true /\
  exists ds rest m,
    "3d" = ds ++ String "d" rest /\ all_digits ds = true /\ ds <> "" /\
    py_int ds = Ok m /\ 1 < m.
Proof.
  split.
  - apply (proj2 (proj2 (is_multi_die_characterised ("012" ++ String "d" "6+1")))).
    exists "012", "6+1", 12. repeat split; first [discriminate | lia].
  - apply (proj1 (proj2 (is_multi_die_characterised "3d"))). reflexivity.
Defined.

(** * Exceptions and termination of the constructor *)

Lemma parse_fields_accepts (s : string) :
  starts_with_operator s = false -> exists fields, parse_fields s = Ok fields.
Proof.
  destruct s as [|c r]; [exists []; reflexivity|].
  unfold starts_with_operator, parse_fields. cbn [parse_fields_loop].
  intros Hs. apply orb_false_elim in Hs as [-> ->].
  apply parse_fields_loop_accepts. right. discriminate.
Qed.

(** The exceptions of [ParseTree_init]: the assertion of the splitter
    (only for a string that starts with an operator) or one of the five
    exceptions of the construction; no list index is ever out of range. *)
Lemma ParseTree_init_Raise_cases (rnd : nat -> Z) (arg : PyArg) (pos : nat)
    (e : PyExn) :
  ParseTree_init rnd arg pos = Raise e ->
  e <> IndexError /\
  match arg with
  | PyStr s =>
      (e = AssertionError_split /\ starts_with_operator s = true) \/
      constructor_exn e
  | PyList _ => constructor_exn e
  end.
Proof.
  intros Hrun. unfold ParseTree_init in Hrun.
  apply bind_Raise_inv in Hrun as [Hsplit|[fields [_ Hrun]]].
  - destruct arg as [s|l]; [|discriminate].
    pose proof (parse_fields_loop_Raise s [] "" e Hsplit) as ->.
    split; [discriminate|]. left. split; [reflexivity|].
    destruct (starts_with_operator s) eqn:Hs; [reflexivity|].
    destruct (parse_fields_accepts s Hs) as [out Hout]. congruence.
  - apply ParseTree_fuel_Raise_cases in Hrun.
    split; [unfold constructor_exn in Hrun; intuition congruence|].
    destruct arg; auto.
Qed.

(** X12: whatever the type and content of its argument, the constructor
    call returns or raises one of eight exceptions.  The exception for an
    improper argument is raised exactly for an argument that is neither a
    string nor a list, the [isinstance] assertion exactly for a list with an
    item that is not a string; otherwise the exception is the assertion of
    the splitter (only for a string that starts with an operator), the
    assertion of the root locator, the first placement assertion, the
    exception of [get_die_type], the empty range of [randint] or the invalid
    literal of [int].  No list index is ever out of range, the second
    placement assertion never fails, and the call always terminates. *)
Theorem ParseTree_call_exceptions (rnd : nat -> Z) (v : PyValue) (pos : nat) :
  match ParseTree_call rnd v pos with
  | inl Exception_improper_argument => v = PVOther
  | inl AssertionError_isinstance =>
      exists items x,
        v = PVList items /\ In x items /\ forall s, x <> PVStr s
  | inr (Raise e) =>
      accepted_argument v /\
      e <> IndexError /\ e <> AssertionError_root_len /\
      ((e = AssertionError_split /\
        exists s, v = PVStr s /\ starts_with_operator s = true) \/
       constructor_exn e)
  | inr (Ok _) => accepted_argument v
  | inr NoFuel => False
  end.
Proof.
  destruct v as [s|items|]; cbn [ParseTree_call].
  - assert (Hacc : accepted_argument (PVStr s)) by (left; now exists s).
    destruct (ParseTree_init rnd (PyStr s) pos) as [[t p]|e|] eqn:Hrun.
    + exact Hacc.
    + apply ParseTree_init_Raise_cases in Hrun as [Hidx Hcases].
      split; [exact Hacc|]. split; [exact Hidx|].
      destruct Hcases as [[-> Hs]|Hc].
      * split; [discriminate|]. left. split; [reflexivity|]. now exists s.
      * split; [unfold constructor_exn in Hc; intuition congruence|].
        now right.
    + now apply ParseTree_init_not_NoFuel in Hrun.
  - destruct (forallb isinstance_str items) eqn:Hall.
    + assert (Hacc : accepted_argument (PVList items)).
      { right. exists items. split; [reflexivity|].
        intros x Hx. rewrite forallb_forall in Hall. apply Hall in Hx.
        destruct x as [s| |]; try discriminate. now exists s. }
      destruct (ParseTree_init rnd (PyList (str_items items)) pos)
        as [[t p]|e|] eqn:Hrun.
      * exact Hacc.
      * apply ParseTree_init_Raise_cases in Hrun as [Hidx Hc].
        split; [exact Hacc|]. split; [exact Hidx|].
        split; [unfold constructor_exn in Hc; intuition congruence|].
        now right.
      * now apply ParseTree_init_not_NoFuel in Hrun.
    + assert (Hex : exists x, In x items /\ isinstance_str x = false).
      { clear -Hall. induction items as [|y r IH]; [discriminate|].
        cbn [forallb] in Hall. apply andb_false_iff in Hall as [Hy|Hr].
        - exists y. split; [now left|exact Hy].
        - destruct (IH Hr) as [x [Hin Hx]]. exists x. split; [now right|exact Hx]. }
      destruct Hex as [x [Hin Hx]]. exists items, x.
      repeat split; auto. intros s ->. discriminate.
  - reflexivity.
Qed.

(** X13: the constructor terminates on every argument: the depth of
    nested constructor calls never exceeds the weight of the fields, where
    a multi-die field weighs twice its multiplier and any other field 1,
    and every larger depth bound gives the same outcome. *)
Theorem ParseTree_init_terminates (rnd : nat -> Z) (fields : list string)
    (pos : nat) :
  ParseTree_init rnd (PyList fields) pos <> NoFuel /\
  forall fuel,
    (fields_weight fields < fuel)%nat ->
    ParseTree_fuel rnd fuel fields pos = ParseTree_init rnd (PyList fields) pos.
Proof.
  split; [apply ParseTree_init_not_NoFuel|].
  intros fuel Hfuel. now apply ParseTree_fuel_enough.
Qed.

Lemma ParseTree_init_terminates_witness :
  ParseTree_fuel tape_count 30 ["5d6"; "-"; "2d4"] 0 =
    ParseTree_init tape_count (PyList ["5d6"; "-"; "2d4"]) 0.
Proof.
  apply (proj2 (ParseTree_init_terminates tape_count ["5d6"; "-"; "2d4"] 0) 30%nat).
  vm_compute. lia.
Defined.

(** * Blank input *)

Lemma isspace_not_operator (c : ascii) :
  isspace c = true -> Ascii.eqb c "+" = false /\ Ascii.eqb c "-" = false.
Proof.
  destruct c as [[|] [|] [|] [|] [|] [|] [|] [|]]; vm_compute;
    first [discriminate | intros _; split; reflexivity].
Qed.

Lemma all_space_no_operator (s : string) :
  all_space s = true -> no_operator s = true.
Proof.
  induction s as [|c r IH]; simpl; [reflexivity|].
  intros H. apply andb_prop in H as [Hc Hr].
  destruct (isspace_not_operator c Hc) as [-> ->]. now rewrite (IH Hr).
Qed.

Lemma all_space_strip (s : string) : all_space s = true -> strip s = "".
Proof.
  intros H. unfold strip.
  assert (Hl : lstrip s = "").
  { induction s as [|c r IH]; simpl in *; [reflexivity|].
    apply andb_prop in H as [Hc Hr]. rewrite Hc. now apply IH. }
  now rewrite Hl.
Qed.

Lemma in_string_whitespace_isspace (c : ascii) :
  in_string_whitespace c = true -> isspace c = true.
Proof.
  destruct c as [[|] [|] [|] [|] [|] [|] [|] [|]]; vm_compute;
    first [discriminate | reflexivity].
Qed.

Lemma evaluate_blank (rnd : nat -> Z) (s : string) (pos : nat) :
  all_space s = true -> s <> "" -> evaluate rnd s pos = Raise ValueError_int.
Proof.
  intros Hs Hne. unfold evaluate, ParseTree_init.
  rewrite (parse_fields_operand s (all_space_no_operator s Hs) Hne).
  rewrite (all_space_strip s Hs). reflexivity.
Qed.

(** X14: input made of whitespace never evaluates: the empty string fails
    the assertion of the root locator on an empty field list, any other
    blank string is one empty operand on which [int] fails.  The blank test
    of [main] knows the six characters of [string.whitespace] only, all of
    them whitespace; a line of other whitespace is evaluated and ends
    [main] with that [ValueError], after the prompt and before any other
    line is read. *)
Theorem blank_input_never_evaluates (rnd : nat -> Z) (s : string) (pos : nat) :
  (all_space s = true ->
   evaluate rnd s pos =
     Raise (if String.eqb s "" then AssertionError_no_op else ValueError_int)) /\
  (all_string_whitespace s = true -> all_space s = true) /\
  (all_space s = true -> all_string_whitespace s = false ->
   forall rest, main rnd (s :: rest) pos = ([PROMPT], Main_raised ValueError_int, pos)).
Proof.
  split; [|split].
  - intros Hs. destruct (String.eqb_spec s "") as [->|Hne]; [reflexivity|].
    now apply evaluate_blank.
  - induction s as [|c r IH]; simpl; [reflexivity|].
    intros H. apply andb_prop in H as [Hc Hr].
    now rewrite (in_string_whitespace_isspace c Hc), (IH Hr).
  - intros Hs Hw rest. cbn [main]. rewrite Hw.
    assert (Hne : s <> "") by (intros ->; discriminate).
    pose proof (evaluate_blank rnd s pos Hs Hne) as Hrun.
    unfold evaluate in Hrun.
    destruct (ParseTree_init rnd (PyStr s) pos) as [[t p]| |];
      [discriminate| |discriminate].
    cbn [bind] in Hrun. now injection Hrun as ->.
Qed.

Lemma blank_input_never_evaluates_witness :
  evaluate tape_count (String "028" " ") 0 =
    Raise (if String.eqb (String "028" " ") "" then AssertionError_no_op
           else ValueError_int) /\
  all_space (String "009" " ") = true /\
  main tape_count [String "028" " "; "1d6"] 0 =
    ([PROMPT], Main_raised ValueError_int, 0%nat).
Proof.
  split; [|split].
  - apply (proj1 (blank_input_never_evaluates tape_count (String "028" " ") 0) eq_refl).
  - apply (proj1 (proj2 (blank_input_never_evaluates tape_count (String "009" " ") 0))
             eq_refl).
  - apply (proj2 (proj2 (blank_input_never_evaluates tape_count (String "028" " ") 0))
             eq_refl eq_refl ["1d6"]).
Defined.

(** * The loop of [main] *)

Lemma printed_evaluation (rnd : nat -> Z) (line : string) (pos : nat)
    (e : Evaluation) (pos' : nat) :
  evaluate rnd line pos = Ok (e, pos') ->
  ParseTree_init rnd (PyStr line) pos = Ok (tree e, pos') /\
  printed (tree e) = rendered e ++ " = " ++ str_int (total e) ++ newline ++ newline.
Proof.
  unfold evaluate. intros Hrun.
  apply bind_Ok_inv in Hrun as [[t p] [Hinit Hres]].
  injection Hres as <- <-. split; [exact Hinit | reflexivity].
Qed.

(** Lines that are not blank and evaluate are answered one by one; the
    loop then goes on with what follows them. *)
Lemma main_good_lines (rnd : nat -> Z) (lines : list string) :
  forall pos es pos' rest,
    Forall (fun line => all_string_whitespace line = false) lines ->
    evaluate_lines rnd lines pos = Ok (es, pos') ->
    main rnd (lines ++ rest) pos =
      (let '(out, outcome, p) := main rnd rest pos' in
       (transcript es ++ out, outcome, p)%list).
Proof.
  induction lines as [|line lines IH]; intros pos es pos' rest Hlines Hrun.
  - injection Hrun as <- <-. simpl. now destruct (main rnd rest pos) as [[out o] p].
  - apply Forall_cons_iff in Hlines as [Hline Hlines].
    cbn [evaluate_lines] in Hrun.
    apply bind_Ok_inv in Hrun as [[e p1] [He Hrun]].
    apply bind_Ok_inv in Hrun as [[es' p2] [Hes Hrun]].
    injection Hrun as <- <-.
    apply printed_evaluation in He as [Hinit Hprinted].
    cbn [Datatypes.app main]. rewrite Hline, Hinit, (IH p1 es' p2 rest Hlines Hes).
    destruct (main rnd rest p2) as [[out o] p]. rewrite Hprinted. reflexivity.
Qed.

(** X15: when the lines before the first blank line all evaluate, [main]
    answers each of them with the prompt and its result line, writes one
    more prompt and returns at the blank line without reading further; with
    no blank line at the end of the input it leaves with [EOFError] after
    the last prompt. *)
Theorem main_answers_until_blank (rnd : nat -> Z) (lines : list string)
    (pos : nat) (es : list Evaluation) (pos' : nat) :
  Forall (fun line => all_string_whitespace line = false) lines ->
  evaluate_lines rnd lines pos = Ok (es, pos') ->
  (forall blank rest,
     all_string_whitespace blank = true ->
     main rnd (lines ++ blank :: rest) pos =
       (transcript es ++ [PROMPT], Main_returned, pos')%list) /\
  main rnd lines pos = (transcript es ++ [PROMPT], Main_EOFError, pos')%list.
Proof.
  intros Hlines Hrun. split.
  - intros blank rest Hblank.
    rewrite (main_good_lines rnd lines pos es pos' _ Hlines Hrun).
    cbn [main]. now rewrite Hblank.
  - rewrite <- (app_nil_r lines) at 1.
    now rewrite (main_good_lines rnd lines pos es pos' [] Hlines Hrun).
Qed.

Lemma main_answers_until_blank_witness :
  exists es,
    evaluate_lines tape_count ["2d6+1"; "10-3"] 0 = Ok (es, 2%nat) /\
    main tape_count (["2d6+1"; "10-3"] ++ " " :: ["1d20"]) 0 =
      (transcript es ++ [PROMPT], Main_returned, 2%nat)%list /\
    main tape_count ["2d6+1"; "10-3"] 0 =
      (transcript es ++ [PROMPT], Main_EOFError, 2%nat)%list.
Proof.
  eexists. split; [vm_compute; reflexivity|].
  pose proof (main_answers_until_blank tape_count ["2d6+1"; "10-3"] 0 _ 2%nat
                ltac:(repeat constructor) eq_refl) as [Hblank Heof].
  split; [apply (Hblank " " ["1d20"] eq_refl) | exact Heof].
Defined.

(** X16: the first line that fails ends [main] with its exception: the
    lines before it are answered, the prompt for the failing line is the
    last thing written, and nothing after it is read or evaluated. *)
Theorem main_stops_at_first_exception (rnd : nat -> Z) (lines : list string)
    (pos : nat) (es : list Evaluation) (pos' : nat) (bad : string) (e : PyExn)
    (rest : list string) :
  Forall (fun line => all_string_whitespace line = false) lines ->
  evaluate_lines rnd lines pos = Ok (es, pos') ->
  all_string_whitespace bad = false ->
  evaluate rnd bad pos' = Raise e ->
  main rnd (lines ++ bad :: rest) pos =
    (transcript es ++ [PROMPT], Main_raised e, pos')%list.
Proof.
  intros Hlines Hrun Hbad Hraise.
  rewrite (main_good_lines rnd lines pos es pos' _ Hlines Hrun).
  cbn [main]. rewrite Hbad. unfold evaluate in Hraise.
  destruct (ParseTree_init rnd (PyStr bad) pos') as [[t p]| |];
    [discriminate| |discriminate].
  cbn [bind] in Hraise. now injection Hraise as ->.
Qed.

Lemma main_stops_at_first_exception_witness :
  exists es,
    main tape_count (["1d6"] ++ "3+" :: ["2d8"; ""]) 0 =
      (transcript es ++ [PROMPT], Main_raised AssertionError_no_op, 1%nat)%list.
Proof.
  eexists.
  apply (main_stops_at_first_exception tape_count ["1d6"] 0 _ 1%nat "3+"
           AssertionError_no_op ["2d8"; ""]);
    first [reflexivity | repeat constructor].
Defined.

(** * Which field lists build a tree *)

Lemma built_well_formed (rnd : nat -> Z) (fields : list string) (pos : nat)
    (t : Node) (pos' : nat) :
  built rnd fields pos t pos' ->
  exists first terms,
    fields = expression_fields first terms /\ well_formed first terms.
Proof.
  induction 1 as [f pos n pos' Hp Hm _ _
                 |f m expanded pos t pos' Hp Hm _ _ _ _ _
                 |fields i op pos l pos1 r pos2 _ Hnth _ _ IHl _ IHr].
  - exists f, []. split; [reflexivity|]. split; [|constructor].
    now apply is_operator_false.
  - exists f, []. split; [reflexivity|]. split; [|constructor].
    now apply is_operator_false.
  - destruct IHl as [f1 [T1 [Hl [Hf1 HT1]]]].
    destruct IHr as [f2 [T2 [Hr [Hf2 HT2]]]].
    exists f1, (T1 ++ (opstring op, f2) :: T2)%list. split.
    + rewrite expression_fields_app, <- Hl, <- Hr. now apply split_middle.
    + split; [exact Hf1|]. apply Forall_app. split; [exact HT1|].
      constructor; [|exact HT2]. split; [now destruct op | exact Hf2].
Qed.

(** X17: a list of fields builds a tree only if it is an operand followed
    by (operator, operand) pairs: an odd number of fields, operands and
    operators taking turns, no operator at either end. *)
Theorem only_alternating_fields_build (rnd : nat -> Z) (fields : list string)
    (pos : nat) (t : Node) (pos' : nat) :
  ParseTree_init rnd (PyList fields) pos = Ok (t, pos') ->
  exists first terms,
    fields = expression_fields first terms /\ well_formed first terms /\
    List.length fields = S (2 * List.length terms).
Proof.
  intros Hrun.
  apply ParseTree_init_built_fields in Hrun as [fields' [Heq Hbuilt]].
  injection Heq as <-.
  apply built_well_formed in Hbuilt as [first [terms [-> Hwf]]].
  exists first, terms. split; [reflexivity|]. split; [exact Hwf|].
  clear Hwf. unfold expression_fields, flat_pairs. cbn [List.length]. f_equal.
  induction terms as [|p terms IH]; [reflexivity|].
  cbn [flat_map Datatypes.app List.length]. rewrite IH. lia.
Qed.

Lemma only_alternating_fields_build_witness :
  exists first terms,
    ["d6"; "-"; "2"; "+"; "2d4"] = expression_fields first terms /\
    well_formed first terms /\
    List.length ["d6"; "-"; "2"; "+"; "2d4"] = S (2 * List.length terms).
Proof.
  apply (only_alternating_fields_build tape_count ["d6"; "-"; "2"; "+"; "2d4"] 0
           (ParseTree
              (OpNode
                 (ParseTree
                    (OpNode (ParseTree (ValueNode "d6" true (Some 6) 1) 1)
                            (ParseTree (ValueNode "2" false None 2) 2)
                            operator_sub (-1)) (-1))
                 (ParseTree
                    (ParseTree
                       (OpNode (ParseTree (ValueNode "1d4" true (Some 4) 2) 2)
                               (ParseTree (ValueNode "1d4" true (Some 4) 3) 3)
                               operator_add 5) 5) 5)
                 operator_add 4) 4) 3%nat).
  reflexivity.
Defined.

(** * The store: construction writes once, rendering only reads *)

Lemma sbind_SOk {A B : Type} (c : SM A) (k : A -> SM B) (st st' : Store) (a : A) :
  c st = SOk (a, st') -> sbind c k st = k a st'.
Proof. unfold sbind. now intros ->. Qed.

Lemma sbind_SRaise {A B : Type} (c : SM A) (k : A -> SM B) (st : Store)
    (e : StoreExn) :
  c st = SRaise e -> sbind c k st = SRaise e.
Proof. unfold sbind. now intros ->. Qed.

Lemma sbind_SNoFuel {A B : Type} (c : SM A) (k : A -> SM B) (st : Store) :
  c st = SNoFuel -> sbind c k st = SNoFuel.
Proof. unfold sbind. now intros ->. Qed.

Lemma represents_bounds (hp : nat -> option PyObj) (k n a : nat) (t : Node) :
  represents hp k n a t -> (k <= a < n)%nat.
Proof. now destruct 1. Qed.

Lemma represents_value (hp : nat -> option PyObj) (k n a : nat) (t : Node) :
  represents hp k n a t ->
  exists o, hp a = Some o /\
            lookup_attr "value" (obj_attrs o) = Some (VInt (value_of t)).
Proof. destruct 1; eexists; (split; [eassumption|]); assumption. Qed.

Lemma represents_agree (hp hp' : nat -> option PyObj) (k n a : nat) (t : Node) :
  (forall b, (k <= b < n)%nat -> hp' b = hp b) ->
  represents hp k n a t -> represents hp' k n a t.
Proof.
  intros Hagree. induction 1.
  - eapply rep_ValueNode; eauto. rewrite Hagree; eauto.
  - eapply rep_OpNode; eauto. rewrite Hagree; eauto.
  - eapply rep_ParseTree; eauto. rewrite Hagree; eauto.
Qed.

Lemma represents_widen (hp : nat -> option PyObj) (k n k' n' a : nat) (t : Node) :
  (k' <= k)%nat -> (n <= n')%nat ->
  represents hp k n a t -> represents hp k' n' a t.
Proof.
  intros Hk Hn. induction 1.
  - eapply rep_ValueNode; eauto. lia.
  - eapply rep_OpNode; eauto. lia.
  - eapply rep_ParseTree; eauto. lia.
Qed.

(** Reads of the store. *)
Lemma get_attr_eq (st : Store) (a : nat) (cls : PyClass)
    (attrs : list (string * PyVal)) (name : string) (v : PyVal) :
  heap st a = Some (mkObj cls attrs) ->
  lookup_attr name attrs = Some v ->
  get_attr a name st = SOk (v, st).
Proof. unfold get_attr. intros -> Hv. cbn [obj_attrs]. now rewrite Hv. Qed.

Lemma get_bool_eq (st : Store) (a : nat) (cls : PyClass)
    (attrs : list (string * PyVal)) (name : string) (b : bool) :
  heap st a = Some (mkObj cls attrs) ->
  lookup_attr name attrs = Some (VBool b) ->
  get_bool a name st = SOk (b, st).
Proof.
  intros Ha Hv. unfold get_bool.
  now rewrite (sbind_SOk _ _ _ _ _ (get_attr_eq _ _ _ _ _ _ Ha Hv)).
Qed.

Lemma get_int_eq (st : Store) (a : nat) (cls : PyClass)
    (attrs : list (string * PyVal)) (name : string) (z : Z) :
  heap st a = Some (mkObj cls attrs) ->
  lookup_attr name attrs = Some (VInt z) ->
  get_int a name st = SOk (z, st).
Proof.
  intros Ha Hv. unfold get_int.
  now rewrite (sbind_SOk _ _ _ _ _ (get_attr_eq _ _ _ _ _ _ Ha Hv)).
Qed.

Lemma get_opt_int_eq (st : Store) (a : nat) (cls : PyClass)
    (attrs : list (string * PyVal)) (name : string) (m : option Z) :
  heap st a = Some (mkObj cls attrs) ->
  lookup_attr name attrs = Some (val_of_opt m) ->
  get_opt_int a name st = SOk (m, st).
Proof.
  intros Ha Hv. unfold get_opt_int.
  rewrite (sbind_SOk _ _ _ _ _ (get_attr_eq _ _ _ _ _ _ Ha Hv)).
  now destruct m.
Qed.

Lemma get_ref_eq (st : Store) (a : nat) (cls : PyClass)
    (attrs : list (string * PyVal)) (name : string) (r : nat) :
  heap st a = Some (mkObj cls attrs) ->
  lookup_attr name attrs = Some (VRef r) ->
  get_ref a name st = SOk (r, st).
Proof.
  intros Ha Hv. unfold get_ref.
  now rewrite (sbind_SOk _ _ _ _ _ (get_attr_eq _ _ _ _ _ _ Ha Hv)).
Qed.

Lemma class_of_eq (st : Store) (a : nat) (cls : PyClass)
    (attrs : list (string * PyVal)) :
  heap st a = Some (mkObj cls attrs) -> class_of a st = SOk (cls, st).
Proof. unfold class_of. now intros ->. Qed.

(** Rendering reads the store and leaves it as it is. *)
Lemma s_str_represents (st : Store) (k n a : nat) (t : Node) :
  represents (heap st) k n a t ->
  forall fuel, (str_depth t <= fuel)%nat ->
  s_str fuel a st = SOk (Node_str t, st).
Proof.
  induction 1 as [a attrs field isdie max_value value Hb Ha Hf Hi Hm Hv
                 |a attrs al ar l r op value Hb Ha Hl Hr Ho Hv Hrl IHl Hrr IHr
                 |a attrs ar root value Hb Ha Hr Hv Hrep IH];
    intros [|fuel] Hfuel; cbn [str_depth] in Hfuel; try lia;
    cbn [s_str]; rewrite (sbind_SOk _ _ _ _ _ (class_of_eq _ _ _ _ Ha)).
  - pose proof (get_bool_eq _ _ _ _ _ _ Ha Hi) as Gi.
    pose proof (get_int_eq _ _ _ _ _ _ Ha Hv) as Gv.
    pose proof (get_opt_int_eq _ _ _ _ _ _ Ha Hm) as Gm.
    rewrite (sbind_SOk _ _ _ _ _ Gi).
    assert (Hmax : (if isdie
                    then value0 <-- get_int a "value" ;;
                         max_value0 <-- get_opt_int a "max_value" ;;
                         sret (eq_max value0 max_value0)
                    else sret false) st
                   = SOk (isdie && eq_max value max_value, st)).
    { destruct isdie; [|reflexivity].
      rewrite (sbind_SOk _ _ _ _ _ Gv), (sbind_SOk _ _ _ _ _ Gm). reflexivity. }
    rewrite (sbind_SOk _ _ _ _ _ Hmax). cbn [Node_str].
    destruct (isdie && eq_max value max_value).
    + rewrite (sbind_SOk _ _ _ _ _ Gv), (sbind_SOk _ _ _ _ _ Gm). reflexivity.
    + rewrite (sbind_SOk _ _ _ _ _ Gi), (sbind_SOk _ _ _ _ _ Gv),
        (sbind_SOk _ _ _ _ _ Gm).
      now destruct isdie.
  - rewrite (sbind_SOk _ _ _ _ _ (get_attr_eq _ _ _ _ _ _ Ha Ho)).
    assert (Hop : (match op with
                   | operator_add => sret "+"
                   | operator_sub =>
                       op' <-- get_attr a "op" ;;
                       match op' with
                       | VOp operator_sub => sret "-"
                       | _ => sraise Exception_unknown_operator
                       end
                   end) st = SOk (opstring op, st)).
    { destruct op; [reflexivity|].
      now rewrite (sbind_SOk _ _ _ _ _ (get_attr_eq _ _ _ _ _ _ Ha Ho)). }
    rewrite (sbind_SOk _ _ _ _ _ Hop).
    rewrite (sbind_SOk _ _ _ _ _ (get_ref_eq _ _ _ _ _ _ Ha Hl)).
    rewrite (sbind_SOk _ _ _ _ _ (IHl fuel ltac:(lia))).
    rewrite (sbind_SOk _ _ _ _ _ (get_ref_eq _ _ _ _ _ _ Ha Hr)).
    rewrite (sbind_SOk _ _ _ _ _ (IHr fuel ltac:(lia))).
    reflexivity.
  - rewrite (sbind_SOk _ _ _ _ _ (get_ref_eq _ _ _ _ _ _ Ha Hr)).
    cbn [Node_str]. apply IH. lia.
Qed.

(** Writes of the store. *)
Lemma update_eq (hp : nat -> option PyObj) (a : nat) (o : PyObj) :
  update hp a o a = Some o.
Proof. unfold update. now rewrite Nat.eqb_refl. Qed.

Lemma update_neq (hp : nat -> option PyObj) (a b : nat) (o : PyObj) :
  b <> a -> update hp a o b = hp b.
Proof. unfold update. intros H. apply Nat.eqb_neq in H. now rewrite H. Qed.

Lemma set_attr_eq (st : Store) (a : nat) (cls : PyClass)
    (attrs : list (string * PyVal)) (name : string) (v : PyVal) :
  heap st a = Some (mkObj cls attrs) ->
  set_attr a name v st =
  SOk (tt, mkStore (update (heap st) a (mkObj cls ((name, v) :: attrs)))
                   (next st) (writes st ++ [(a, name)]) (tape_pos st)).
Proof. unfold set_attr. now intros ->. Qed.

(** ** The log of assignments *)

Lemma NoDup_app_disjoint {A : Type} (l1 l2 : list A) :
  NoDup l1 -> NoDup l2 -> (forall x, In x l1 -> ~ In x l2) ->
  NoDup (l1 ++ l2)%list.
Proof.
  intros H1 H2 Hdis. induction H1 as [|x l Hx Hl IH]; [exact H2|].
  cbn [Datatypes.app]. constructor.
  - rewrite in_app_iff. intros [Hin|Hin]; [now apply Hx|].
    apply (Hdis x); [now left|exact Hin].
  - apply IH. intros y Hy. apply Hdis. now right.
Qed.

Lemma NoDup_map_pair (a : nat) (names : list string) :
  NoDup names -> NoDup (map (pair a) names).
Proof.
  induction 1 as [|x l Hx Hl IH]; cbn [map]; constructor; [|exact IH].
  rewrite in_map_iff. intros [y [Heq Hy]]. injection Heq as ->. now apply Hx.
Qed.

Lemma In_map_pair (a b : nat) (x : string) (names : list string) :
  In (b, x) (map (pair a) names) -> b = a /\ In x names.
Proof.
  rewrite in_map_iff. intros [y [Heq Hy]]. injection Heq as -> ->. now split.
Qed.

Lemma Forall_map_pair (a : nat) (names : list string) (P : nat -> Prop) :
  P a -> Forall (fun w : nat * string => P (fst w)) (map (pair a) names).
Proof. intros Ha. apply Forall_forall. intros [b x] Hin. apply In_map_pair in Hin as [-> _]. exact Ha. Qed.

(** ** Construction in the store *)

Lemma constructed_ValueNode (st st' : Store) (attrs : list (string * PyVal))
    (field : string) (isdie : bool) (max_value : option Z) (value : Z)
    (names : list string) :
  next st' = S (next st) ->
  (forall b, b <> next st -> heap st' b = heap st b) ->
  heap st' (next st) = Some (mkObj Class_ValueNode attrs) ->
  lookup_attr "field" attrs = Some (VStr field) ->
  lookup_attr "isdie" attrs = Some (VBool isdie) ->
  lookup_attr "max_value" attrs = Some (val_of_opt max_value) ->
  lookup_attr "value" attrs = Some (VInt value) ->
  writes st' = (writes st ++ map (pair (next st)) names)%list ->
  NoDup names -> In "value" names ->
  constructed st (next st) (ValueNode field isdie max_value value) st'.
Proof.
  intros Hnext Hframe Hself Hf Hi Hm Hv Hws Hnames Hin.
  unfold constructed. rewrite Hnext. repeat split.
  - lia.
  - intros b Hb. apply Hframe. lia.
  - eapply rep_ValueNode; [lia|exact Hself|exact Hf|exact Hi|exact Hm|exact Hv].
  - exists (map (pair (next st)) names). repeat split.
    + exact Hws.
    + now apply NoDup_map_pair.
    + apply (Forall_map_pair _ _ (fun b => (next st <= b < S (next st))%nat)). lia.
    + intros b attrs' Hb _. assert (b = next st) as -> by lia.
      now apply in_map.
Qed.

Lemma constructed_OpNode (st st1 st2 st3 : Store) (attrs : list (string * PyVal))
    (al ar : nat) (l r : Node) (op : Operator) (names : list string) :
  constructed st al l st1 ->
  constructed st1 ar r st2 ->
  next st3 = S (next st2) ->
  (forall b, b <> next st2 -> heap st3 b = heap st2 b) ->
  heap st3 (next st2) = Some (mkObj Class_OpNode attrs) ->
  lookup_attr "left" attrs = Some (VRef al) ->
  lookup_attr "right" attrs = Some (VRef ar) ->
  lookup_attr "op" attrs = Some (VOp op) ->
  lookup_attr "value" attrs =
    Some (VInt (apply_op op (value_of l) (value_of r))) ->
  writes st3 = (writes st2 ++ map (pair (next st2)) names)%list ->
  NoDup names ->
  constructed st (next st2) (OpNode_init l r op) st3.
Proof.
  intros [Hn1 [Hf1 [Hrep1 [ws1 [Hw1 [Hnd1 [Hr1 Hc1]]]]]]]
         [Hn2 [Hf2 [Hrep2 [ws2 [Hw2 [Hnd2 [Hr2 Hc2]]]]]]]
         Hnext Hframe Hself Hl Hr Ho Hv Hws Hnames.
  assert (H31 : forall b, (b < next st1)%nat -> heap st3 b = heap st1 b).
  { intros b Hb. rewrite Hframe by lia. now apply Hf2. }
  unfold constructed. rewrite Hnext. repeat split.
  - lia.
  - intros b Hb. rewrite H31 by lia. now apply Hf1.
  - unfold OpNode_init.
    eapply rep_OpNode; [lia|exact Hself|exact Hl|exact Hr|exact Ho|exact Hv| |].
    + apply (represents_widen _ (next st) (next st1)); [lia|lia|].
      eapply represents_agree; [|exact Hrep1]. intros b Hb. apply H31. lia.
    + apply (represents_widen _ (next st1) (next st2)); [lia|lia|].
      eapply represents_agree; [|exact Hrep2]. intros b Hb. apply Hframe. lia.
  - rewrite Forall_forall in Hr1, Hr2.
    exists (ws1 ++ ws2 ++ map (pair (next st2)) names)%list. repeat split.
    + rewrite Hws, Hw2, Hw1. now rewrite <- !app_assoc.
    + apply NoDup_app_disjoint; [exact Hnd1| |].
      * apply NoDup_app_disjoint; [exact Hnd2|now apply NoDup_map_pair|].
        intros [b x] Hin Hin'. apply In_map_pair in Hin' as [-> _].
        apply Hr2 in Hin. cbn [fst] in Hin. lia.
      * intros [b x] Hin Hin'. apply Hr1 in Hin. cbn [fst] in Hin.
        apply in_app_iff in Hin' as [Hin'|Hin'].
        -- apply Hr2 in Hin'. cbn [fst] in Hin'. lia.
        -- apply In_map_pair in Hin' as [-> _]. lia.
    + apply Forall_forall. intros [b x] Hin. cbn [fst].
      apply in_app_iff in Hin as [Hin|Hin]; [apply Hr1 in Hin; cbn [fst] in Hin; lia|].
      apply in_app_iff in Hin as [Hin|Hin]; [apply Hr2 in Hin; cbn [fst] in Hin; lia|].
      apply In_map_pair in Hin as [-> _]. lia.
    + intros b attrs' Hb Hobj.
      destruct (Nat.lt_ge_cases b (next st1)) as [Hlt|Hge].
      * apply in_app_iff. left. apply (Hc1 b attrs'); [lia|].
        now rewrite <- H31.
      * destruct (Nat.eq_dec b (next st2)) as [->|Hne]; [congruence|].
        apply in_app_iff. right. apply in_app_iff. left.
        apply (Hc2 b attrs'); [lia|]. now rewrite <- Hframe.
Qed.

Lemma constructed_ParseTree (st st0 st1 st2 : Store) (attrs : list (string * PyVal))
    (ar : nat) (root : Node) (names : list string) :
  next st0 = S (next st) ->
  (forall b, (b < next st)%nat -> heap st0 b = heap st b) ->
  writes st0 = writes st ->
  constructed st0 ar root st1 ->
  next st2 = next st1 ->
  (forall b, b <> next st -> heap st2 b = heap st1 b) ->
  heap st2 (next st) = Some (mkObj Class_ParseTree attrs) ->
  lookup_attr "root_node" attrs = Some (VRef ar) ->
  lookup_attr "value" attrs = Some (VInt (value_of root)) ->
  writes st2 = (writes st1 ++ map (pair (next st)) names)%list ->
  NoDup names ->
  constructed st (next st) (ParseTree root (value_of root)) st2.
Proof.
  intros Hn0 Hf0 Hw0 [Hn1 [Hf1 [Hrep1 [ws1 [Hw1 [Hnd1 [Hr1 Hc1]]]]]]]
         Hnext Hframe Hself Hroot Hv Hws Hnames.
  rewrite Hn0 in *.
  unfold constructed. rewrite Hnext. repeat split.
  - lia.
  - intros b Hb. rewrite Hframe by lia. rewrite Hf1 by lia. now apply Hf0.
  - eapply rep_ParseTree; [lia|exact Hself|exact Hroot|exact Hv|].
    apply (represents_widen _ (S (next st)) (next st1)); [lia|lia|].
    eapply represents_agree; [|exact Hrep1]. intros b Hb. apply Hframe. lia.
  - rewrite Forall_forall in Hr1.
    exists (ws1 ++ map (pair (next st)) names)%list. repeat split.
    + rewrite Hws, Hw1, Hw0. now rewrite <- !app_assoc.
    + apply NoDup_app_disjoint; [exact Hnd1|now apply NoDup_map_pair|].
      intros [b x] Hin Hin'. apply In_map_pair in Hin' as [-> _].
      apply Hr1 in Hin. cbn [fst] in Hin. lia.
    + apply Forall_forall. intros [b x] Hin. cbn [fst].
      apply in_app_iff in Hin as [Hin|Hin]; [apply Hr1 in Hin; cbn [fst] in Hin; lia|].
      apply In_map_pair in Hin as [-> _]. lia.
    + intros b attrs' Hb Hobj.
      destruct (Nat.eq_dec b (next st)) as [->|Hne]; [congruence|].
      apply in_app_iff. left. apply (Hc1 b attrs'); [lia|]. now rewrite <- Hframe.
Qed.

(** Tactics that run a store program one statement at a time: an
    allocation, an assignment to the object under construction, a read of
    one of its attributes. *)
Ltac at_self := cbn [heap]; apply update_eq.
Ltac tidy := cbn [heap next writes tape_pos].
Ltac step_new := erewrite sbind_SOk by reflexivity; tidy.
Ltac step_set := erewrite sbind_SOk; [|eapply set_attr_eq; at_self]; tidy.
Ltac step_get lem := erewrite sbind_SOk; [|eapply lem; [at_self|reflexivity]]; tidy.
Ltac frame_self :=
  let b := fresh "b" in let Hb := fresh "Hb" in
  intros b Hb; tidy; rewrite !update_neq by exact Hb; reflexivity.
Ltac log_self := tidy; cbn [map]; rewrite <- !app_assoc; reflexivity.
Ltac names_distinct :=
  repeat constructor; cbn [In]; intuition discriminate.

Lemma s_ValueNode_refines (rnd : nat -> Z) (field : string) (st : Store) :
  refines (ValueNode_init rnd field (tape_pos st)) (s_ValueNode rnd field) st.
Proof.
  unfold ValueNode_init, s_ValueNode, refines.
  step_new. step_set. step_set. step_get get_bool_eq.
  destruct (contains "d" field) eqn:Hd.
  - destruct (get_die_type field) as [m| |]; cbn [bind lift];
      [|apply sbind_SRaise; now apply sbind_SRaise
       |apply sbind_SNoFuel; now apply sbind_SNoFuel].
    destruct (randint rnd 1 m (tape_pos st)) as [[v p]|e|] eqn:Hr; cbn [bind].
    + eexists _, _. split; [|split].
      * erewrite sbind_SOk; [reflexivity|].
        step_new. step_set. step_get get_int_eq.
        erewrite sbind_SOk; [|unfold s_randint; tidy; rewrite Hr; reflexivity]. tidy.
        eapply set_attr_eq; at_self.
      * reflexivity.
      * eapply (constructed_ValueNode _ _ _ field true (Some m) v
                  ["field"; "isdie"; "max_value"; "value"]);
          [reflexivity|frame_self|at_self|reflexivity|reflexivity|reflexivity
          |reflexivity|log_self|names_distinct|cbn [In]; auto].
    + apply sbind_SRaise. step_new. step_set. step_get get_int_eq.
      apply sbind_SRaise. unfold s_randint. tidy. now rewrite Hr.
    + apply sbind_SNoFuel. step_new. step_set. step_get get_int_eq.
      apply sbind_SNoFuel. unfold s_randint. tidy. now rewrite Hr.
  - destruct (py_int field) as [v| |] eqn:Hint; cbn [bind].
    + eexists _, _. split; [|split].
      * erewrite sbind_SOk; [reflexivity|].
        step_set. step_new.
        eapply set_attr_eq; at_self.
      * reflexivity.
      * eapply (constructed_ValueNode _ _ _ field false None v
                  ["field"; "isdie"; "max_value"; "value"]);
          [reflexivity|frame_self|at_self|reflexivity|reflexivity|reflexivity
          |reflexivity|log_self|names_distinct|cbn [In]; auto].
    + apply sbind_SRaise. step_set. now apply sbind_SRaise.
    + apply sbind_SNoFuel. step_set. now apply sbind_SNoFuel.
Qed.

Lemma s_OpNode_constructed (st st1 st2 : Store) (al ar : nat) (l r : Node)
    (op : Operator) :
  constructed st al l st1 ->
  constructed st1 ar r st2 ->
  exists st3,
    s_OpNode al ar op st2 = SOk (next st2, st3) /\
    tape_pos st3 = tape_pos st2 /\
    constructed st (next st2) (OpNode_init l r op) st3.
Proof.
  intros C1 C2.
  pose proof C1 as [Hn1 [Hf1 [Hrep1 _]]].
  pose proof C2 as [Hn2 [Hf2 [Hrep2 _]]].
  pose proof (represents_bounds _ _ _ _ _ Hrep1) as Hbl.
  pose proof (represents_bounds _ _ _ _ _ Hrep2) as Hbr.
  destruct (represents_value _ _ _ _ _ Hrep1) as [[cl attrsl] [Hol Hvl]].
  destruct (represents_value _ _ _ _ _ Hrep2) as [[cr attrsr] [Hor Hvr]].
  cbn [obj_attrs] in Hvl, Hvr.
  rewrite <- Hf2 in Hol by lia.
  eexists. split; [|split].
  - unfold s_OpNode. step_new. step_set. step_set. step_set.
    erewrite sbind_SOk;
      [|eapply get_int_eq; [tidy; rewrite !update_neq by lia; exact Hol|exact Hvl]].
    erewrite sbind_SOk;
      [|eapply get_int_eq; [tidy; rewrite !update_neq by lia; exact Hor|exact Hvr]].
    erewrite sbind_SOk; [|eapply set_attr_eq; at_self]. tidy.
    reflexivity.
  - reflexivity.
  - eapply (constructed_OpNode st st1 st2 _ _ al ar l r op
              ["left"; "right"; "op"; "value"] C1 C2);
      [reflexivity|frame_self|at_self|reflexivity|reflexivity|reflexivity
      |reflexivity|log_self|names_distinct].
Qed.

(** The two operands and the operation node, as [parse_node] builds them. *)
Lemma operands_refine
    (P : list string -> nat -> result (Node * nat)) (SP : list string -> SM nat)
    (fl fr : list string) (op : Operator) (st : Store) :
  (forall fs st0, refines (P fs (tape_pos st0)) (SP fs) st0) ->
  refines
    ('(left_, pos1) <- P fl (tape_pos st) ;;
     '(right_, pos2) <- P fr pos1 ;;
     Ok (OpNode_init left_ right_ op, pos2))
    (left_ <-- SP fl ;; right_ <-- SP fr ;; s_OpNode left_ right_ op) st.
Proof.
  intros Hrec.
  pose proof (Hrec fl st) as H1. unfold refines in H1 |- *.
  destruct (P fl (tape_pos st)) as [[l p1]|e|]; cbn [bind];
    [|now apply sbind_SRaise|now apply sbind_SNoFuel].
  destruct H1 as [al [st1 [Hrun1 [<- C1]]]].
  rewrite (sbind_SOk _ _ _ _ _ Hrun1).
  pose proof (Hrec fr st1) as H2. unfold refines in H2.
  destruct (P fr (tape_pos st1)) as [[r p2]|e|]; cbn [bind];
    [|exact (sbind_SRaise _ _ _ _ H2)|exact (sbind_SNoFuel _ _ _ H2)].
  destruct H2 as [ar [st2 [Hrun2 [<- C2]]]].
  rewrite (sbind_SOk _ _ _ _ _ Hrun2).
  destruct (s_OpNode_constructed st st1 st2 al ar l r op C1 C2)
    as [st3 [Hrun3 [Hpos C3]]].
  exists (next st2), st3. split; [exact Hrun3|split; [exact Hpos|exact C3]].
Qed.

Lemma lift_Ok {A : Type} (a : A) (st : Store) : lift (Ok a) st = SOk (a, st).
Proof. reflexivity. Qed.

Lemma refines_bind_lift {A : Type} (r : result A)
    (k : A -> result (Node * nat)) (sk : A -> SM nat) (st : Store) :
  (forall a, r = Ok a -> refines (k a) (sk a) st) ->
  refines (bind r k) (sbind (lift r) sk) st.
Proof.
  intros H. destruct r as [a| |]; cbn [bind]; [|reflexivity|reflexivity].
  specialize (H a eq_refl). unfold refines in H |- *.
  now rewrite (sbind_SOk _ _ _ _ _ (lift_Ok a st)).
Qed.

Lemma s_parse_node_refines (rnd : nat -> Z)
    (P : list string -> nat -> result (Node * nat)) (SP : list string -> SM nat)
    (fields : list string) (root_index : nat) (st : Store) :
  (forall fs st0, refines (P fs (tape_pos st0)) (SP fs) st0) ->
  refines (parse_node rnd P fields root_index (tape_pos st))
          (s_parse_node rnd SP fields root_index) st.
Proof.
  intros Hrec. unfold parse_node, s_parse_node.
  apply refines_bind_lift. intros f _.
  destruct (String.eqb f "+").
  { apply refines_bind_lift. intros _ _.
    apply refines_bind_lift. intros _ _.
    now apply operands_refine. }
  destruct (String.eqb f "-").
  { apply refines_bind_lift. intros _ _.
    apply refines_bind_lift. intros _ _.
    now apply operands_refine. }
  apply refines_bind_lift. intros [|] _.
  - apply refines_bind_lift. intros m _.
    apply refines_bind_lift. intros expanded _.
    apply Hrec.
  - apply s_ValueNode_refines.
Qed.

(** The construction in the store has the outcome of the construction on
    values: the same tree, the same exception, the same tape position. *)
Lemma s_new_refines (rnd : nat -> Z) (fuel : nat) :
  forall (fields : list string) (st : Store),
    refines (ParseTree_fuel rnd fuel fields (tape_pos st))
            (s_new rnd fuel fields) st.
Proof.
  induction fuel as [|fuel IH]; intros fields st; [reflexivity|].
  unfold s_new. cbn [ParseTree_fuel s_init]. unfold refines.
  step_new.
  set (st0 := mkStore (update (heap st) (next st) (mkObj Class_ParseTree []))
                      (S (next st)) (writes st) (tape_pos st)).
  destruct (find_root_node fields) as [i| |]; cbn [bind];
    [|reflexivity|reflexivity].
  pose proof (s_parse_node_refines rnd (ParseTree_fuel rnd fuel) (s_new rnd fuel)
                fields i st0 IH) as Hnode.
  change (tape_pos st0) with (tape_pos st) in Hnode.
  unfold refines in Hnode.
  destruct (parse_node rnd (ParseTree_fuel rnd fuel) fields i (tape_pos st))
    as [[root p]|e|]; cbn [bind].
  - destruct Hnode as [ar [st1 [Hrun [<- C]]]].
    pose proof C as [Hn1 [Hf1 [Hrep1 _]]].
    change (next st0) with (S (next st)) in Hn1, Hf1, Hrep1.
    pose proof (represents_bounds _ _ _ _ _ Hrep1) as Hb.
    destruct (represents_value _ _ _ _ _ Hrep1) as [[cr attrsr] [Hor Hvr]].
    cbn [obj_attrs] in Hvr.
    assert (Hself : heap st1 (next st) = Some (mkObj Class_ParseTree [])).
    { rewrite Hf1 by lia. unfold st0. at_self. }
    eexists _, _. split; [|split].
    + erewrite sbind_SOk; [reflexivity|].
      rewrite (sbind_SOk _ _ _ _ _ (lift_Ok i st0)).
      unfold s_new in Hrun. rewrite (sbind_SOk _ _ _ _ _ Hrun).
      erewrite sbind_SOk; [|eapply set_attr_eq; exact Hself]. tidy.
      step_get get_ref_eq.
      erewrite sbind_SOk;
        [|eapply get_attr_eq; [tidy; rewrite update_neq by lia; exact Hor|exact Hvr]].
      eapply set_attr_eq; at_self.
    + reflexivity.
    + eapply (constructed_ParseTree st st0 st1 _ _ ar root ["root_node"; "value"]);
        [reflexivity| |reflexivity|exact C|reflexivity|frame_self|at_self
        |reflexivity|reflexivity|log_self|names_distinct].
      intros b Hb'. unfold st0. tidy. apply update_neq. lia.
  - apply sbind_SRaise. rewrite (sbind_SOk _ _ _ _ _ (lift_Ok i st0)).
    unfold s_new in Hnode. now apply sbind_SRaise.
  - apply sbind_SNoFuel. rewrite (sbind_SOk _ _ _ _ _ (lift_Ok i st0)).
    unfold s_new in Hnode. now apply sbind_SNoFuel.
Qed.

Lemma s_ParseTree_refines (rnd : nat -> Z) (arg : PyArg) (st : Store) :
  refines (ParseTree_init rnd arg (tape_pos st)) (s_ParseTree rnd arg) st.
Proof.
  unfold ParseTree_init, s_ParseTree.
  set (split := match arg with PyStr s => parse_fields s | PyList l => Ok l end).
  destruct split as [fields| |]; cbn [bind].
  - pose proof (s_new_refines rnd (S (fields_weight fields)) fields st) as H.
    unfold refines, s_new in H |- *.
    destruct (ParseTree_fuel rnd (S (fields_weight fields)) fields (tape_pos st))
      as [[t p]|e|].
    + destruct H as [a [st' [Hrun HC]]]. exists a, st'. split; [|exact HC].
      rewrite <- Hrun. reflexivity.
    + rewrite <- H. reflexivity.
    + rewrite <- H. reflexivity.
  - reflexivity.
  - reflexivity.
Qed.

(** ** Counting assignments in the log *)

Lemma is_write_true (a : nat) (name : string) (w : nat * string) :
  is_write a name w = true <-> w = (a, name).
Proof.
  unfold is_write. destruct w as [b x]. cbn [fst snd].
  rewrite andb_true_iff, Nat.eqb_eq, String.eqb_eq.
  split; [intros [-> ->]; reflexivity|intros H; injection H as -> ->; now split].
Qed.

Lemma count_absent (a : nat) (name : string) (l : list (nat * string)) :
  ~ In (a, name) l -> List.length (filter (is_write a name) l) = 0%nat.
Proof.
  induction l as [|w l IH]; intros Hin; [reflexivity|].
  cbn [filter]. destruct (is_write a name w) eqn:Hw.
  - apply is_write_true in Hw. subst w. exfalso. apply Hin. now left.
  - apply IH. intros H. apply Hin. now right.
Qed.

Lemma count_NoDup (a : nat) (name : string) (l : list (nat * string)) :
  NoDup l -> In (a, name) l -> List.length (filter (is_write a name) l) = 1%nat.
Proof.
  induction 1 as [|w l Hw Hl IH]; intros Hin; [destruct Hin|].
  cbn [filter]. destruct (is_write a name w) eqn:Htest.
  - apply is_write_true in Htest. subst w. cbn [List.length].
    now rewrite count_absent.
  - destruct Hin as [->|Hin]; [|now apply IH].
    assert (is_write a name (a, name) = true) by now apply is_write_true.
    congruence.
Qed.

Lemma constructed_write_count (st st' : Store) (a : nat) (t : Node) :
  writes_allocated st ->
  constructed st a t st' ->
  forall b attrs,
    (next st <= b < next st')%nat ->
    heap st' b = Some (mkObj Class_ValueNode attrs) ->
    write_count st' b "value" = 1%nat.
Proof.
  intros Hold [_ [_ [_ [ws [Hws [Hnd [_ Hcov]]]]]]] b attrs Hb Hobj.
  unfold write_count.
  rewrite Hws, filter_app, length_app.
  rewrite count_absent, (count_NoDup _ _ _ Hnd (Hcov b attrs Hb Hobj)); [reflexivity|].
  intros Hin. unfold writes_allocated in Hold. rewrite Forall_forall in Hold.
  apply Hold in Hin. cbn [fst] in Hin. lia.
Qed.

Lemma s_ParseTree_Ok_inv (rnd : nat -> Z) (arg : PyArg) (st st1 : Store) (a : nat) :
  s_ParseTree rnd arg st = SOk (a, st1) ->
  exists t,
    ParseTree_init rnd arg (tape_pos st) = Ok (t, tape_pos st1) /\
    constructed st a t st1.
Proof.
  intros Hrun. pose proof (s_ParseTree_refines rnd arg st) as H.
  unfold refines in H.
  destruct (ParseTree_init rnd arg (tape_pos st)) as [[t p]|e|]; [|congruence|congruence].
  destruct H as [a' [st' [Hrun' [<- C]]]].
  rewrite Hrun in Hrun'. injection Hrun' as <- <-.
  now exists t.
Qed.

(** The body of the loop of [main] on the store prints what the evaluator
    on values returns. *)
Lemma s_evaluate_evaluate (rnd : nat -> Z) (line : string) (st : Store)
    (e : Evaluation) (pos' : nat) :
  evaluate rnd line (tape_pos st) = Ok (e, pos') ->
  forall fuel, (str_depth (tree e) <= fuel)%nat ->
  exists a st1,
    s_evaluate rnd fuel line st = SOk ((a, rendered e, VInt (total e)), st1) /\
    tape_pos st1 = pos'.
Proof.
  unfold evaluate. intros Hrun fuel Hfuel.
  pose proof (s_ParseTree_refines rnd (PyStr line) st) as H. unfold refines in H.
  destruct (ParseTree_init rnd (PyStr line) (tape_pos st)) as [[t p]|e0|];
    cbn [bind] in Hrun; [|discriminate|discriminate].
  injection Hrun as <- <-. cbn [tree rendered total] in *.
  destruct H as [a [st1 [Hnew [Hpos [_ [_ [Hrep _]]]]]]].
  destruct (represents_value _ _ _ _ _ Hrep) as [[cls attrs] [Hobj Hval]].
  exists a, st1. split; [|exact Hpos].
  unfold s_evaluate. rewrite (sbind_SOk _ _ _ _ _ Hnew).
  rewrite (sbind_SOk _ _ _ _ _ (get_attr_eq _ _ _ _ _ _ Hobj Hval)).
  rewrite (sbind_SOk _ _ _ _ _ (s_str_represents _ _ _ _ _ Hrep fuel Hfuel)).
  reflexivity.
Qed.

(** C8: for every tree the constructor builds in the store, [str] of the
    tree called twice in a row returns the same string both times and the
    store after the two calls is the store before them: no attribute is
    assigned and the tape of draws is not advanced.  Reading [value] returns
    the total and leaves the store as it is.  In the log of the assignments
    made up to the end of the construction, the attribute [value] of every
    [ValueNode] of the tree is assigned exactly once.  The tree, its string
    and its total are those of the constructor on values. *)
Theorem rendering_never_rerolls (rnd : nat -> Z) (arg : PyArg) (st st1 : Store)
    (a : nat) :
  writes_allocated st ->
  s_ParseTree rnd arg st = SOk (a, st1) ->
  exists t,
    ParseTree_init rnd arg (tape_pos st) = Ok (t, tape_pos st1) /\
    represents (heap st1) (next st) (next st1) a t /\
    (forall fuel, (str_depth t <= fuel)%nat ->
       (first <-- s_str fuel a ;; second <-- s_str fuel a ;; sret (first, second)) st1
       = SOk ((Node_str t, Node_str t), st1)) /\
    get_attr a "value" st1 = SOk (VInt (value_of t), st1) /\
    (forall b attrs,
       (next st <= b < next st1)%nat ->
       heap st1 b = Some (mkObj Class_ValueNode attrs) ->
       write_count st1 b "value" = 1%nat).
Proof.
  intros Hold Hrun.
  apply s_ParseTree_Ok_inv in Hrun as [t [Hinit C]].
  pose proof C as [_ [_ [Hrep _]]].
  exists t. split; [exact Hinit|]. split; [exact Hrep|]. split; [|split].
  - intros fuel Hfuel.
    rewrite (sbind_SOk _ _ _ _ _ (s_str_represents _ _ _ _ _ Hrep fuel Hfuel)).
    rewrite (sbind_SOk _ _ _ _ _ (s_str_represents _ _ _ _ _ Hrep fuel Hfuel)).
    reflexivity.
  - destruct (represents_value _ _ _ _ _ Hrep) as [[cls attrs] [Hobj Hval]].
    exact (get_attr_eq _ _ _ _ _ _ Hobj Hval).
  - exact (constructed_write_count st st1 a t Hold C).
Qed.

Lemma rendering_never_rerolls_witness :
  exists a st1,
    s_ParseTree tape_count (PyStr "2d6+3-1d4") (empty_store 0) = SOk (a, st1) /\
    exists t,
      ParseTree_init tape_count (PyStr "2d6+3-1d4") (tape_pos (empty_store 0))
      = Ok (t, tape_pos st1) /\
      represents (heap st1) (next (empty_store 0)) (next st1) a t /\
      (forall fuel, (str_depth t <= fuel)%nat ->
         (first <-- s_str fuel a ;; second <-- s_str fuel a ;; sret (first, second)) st1
         = SOk ((Node_str t, Node_str t), st1)) /\
      get_attr a "value" st1 = SOk (VInt (value_of t), st1) /\
      (forall b attrs,
         (next (empty_store 0) <= b < next st1)%nat ->
         heap st1 b = Some (mkObj Class_ValueNode attrs) ->
         write_count st1 b "value" = 1%nat).
Proof.
  eexists _, _. split; [vm_compute; reflexivity|].
  apply (rendering_never_rerolls tape_count (PyStr "2d6+3-1d4") (empty_store 0)).
  - constructor.
  - vm_compute. reflexivity.
Defined.
